(** * Request builders of the Tail-f / NSO NETCONF extension

    A shallow embedding of [ncclient/operations/third_party/tailf/rpc.py]:
    the option encoders ([add_service_commit_params], [add_rollback_meta_data],
    [add_with_transaction_id], [add_with_inactive]) and the seven request
    builders ([StartTransaction], [PrepareTransaction], [CommitTransaction],
    [AbortTransaction], [EditConfig], [CopyConfig], [Commit]).

    The Python code builds lxml elements and mutates them in place.  Elements
    are therefore kept in a store (a list of element cells addressed by their
    index); a Python reference to an element is an index into that store, and
    a builder is a state transformer that may raise. *)

From stdpp Require Import base tactics option list strings.
From Stdlib Require Import Ascii Lia.

Local Open Scope string_scope.
Local Open Scope list_scope.
Local Open Scope nat_scope.

(** ** Elements *)

(** An element as a value: Clark-notation tag, text, children in order. *)
#[warnings="-register-all"]
Inductive xml : Type :=
  | Element (xtag : string) (xtext : option string) (xkids : list xml).

(** A cell of the store: the children are references. *)
Record enode : Type := ENode {
  tag : string;
  text : option string;
  children : list nat
}.

(** The store, and the requests handed to the dispatch collaborator so far. *)
Record state : Type := State {
  heap : list enode;
  outbox : list nat
}.

(** ** Exceptions and the builder monad *)

(** [OperationError] is the spec's [InvalidArgument], [MissingCapabilityError]
    its [UnsupportedCapability] (it carries the capability asked for),
    [XMLError] and [XMLSyntaxError] its [MalformedPayload]; [TypeError] is what
    lxml raises when a text is set to something that is not a string. *)
Inductive exn : Type :=
  | OperationError (msg : string)
  | MissingCapabilityError (capability : string)
  | XMLError (msg : string)
  | XMLSyntaxError
  | TypeError
  | OtherError (msg : string).

Inductive res (A : Type) : Type :=
  | Ok (a : A)
  | Raise (e : exn).
Arguments Ok {A} a.
Arguments Raise {A} e.

Definition M (A : Type) : Type := state → state * res A.

Definition ret {A} (a : A) : M A := λ σ, (σ, Ok a).

Definition raise {A} (e : exn) : M A := λ σ, (σ, Raise e).

Definition bind {A B} (m : M A) (f : A → M B) : M B :=
  λ σ, match m σ with
       | (σ', Ok a) => f a σ'
       | (σ', Raise e) => (σ', Raise e)
       end.

Notation "x <- m ;; k" := (bind m (λ x, k))
  (at level 100, m at next level, right associativity,
   format "'[v' x  <-  m  ;;  '/' k ']'").
Notation "m ;;; k" := (bind m (λ _, k))
  (at level 100, right associativity,
   format "'[v' m  ;;;  '/' k ']'").

(** [if b: m] with no else branch. *)
Definition when (b : bool) (m : M unit) : M unit :=
  if b then m else ret tt.

(** [try: m  except Exception: h]: whatever [m] did to the store before it
    raised stays done. *)
Definition try_except {A} (m h : M A) : M A :=
  λ σ, match m σ with
       | (σ', Raise _) => h σ'
       | r => r
       end.

(** A result that does not touch the store. *)
Definition lift {A} (r : res A) : M A := λ σ, (σ, r).

(** ** Python values *)

(** A parameter with a default in the signature: left out, or given. *)
Inductive arg (A : Type) : Type :=
  | Omitted
  | Given (a : A).
Arguments Omitted {A}.
Arguments Given {A} a.

Definition arg_default {A} (d : A) (a : arg A) : A :=
  match a with Omitted => d | Given x => x end.

(** What [source] and [config] can be: a string or an element. *)
Inductive pyval : Type :=
  | PStr (s : string)
  | PEle (ele : nat).

(** What [timeout] can be: the docstring of [Commit] gives it as a number of
    seconds, and a caller can also pass the number as a string. *)
Inductive pytext : Type :=
  | TStr (s : string)
  | TInt (n : Z).

(** Python truthiness of the optional parameters. *)
Definition truthy_str (o : option string) : bool :=
  match o with
  | None => false
  | Some s => negb (bool_decide (s = ""))
  end.

Definition truthy_bool (o : option bool) : bool :=
  match o with
  | None => false
  | Some b => b
  end.

(** ** The markup builder *)

(** Modelled from the spec: [BASE_NS_1_0] of [ncclient.xml_], the base
    protocol namespace.  The URI is the one [EditConfig.request] writes out. *)
Definition BASE_NS_1_0 : string := "urn:ietf:params:xml:ns:netconf:base:1.0".

(** Modelled from the spec: [qualify] of [ncclient.xml_], the namespace
    qualification of a name (lxml's Clark notation). *)
Definition qualify_ns (name ns : string) : string :=
  "{" +:+ ns +:+ "}" +:+ name.

Definition qualify (name : string) : string := qualify_ns name BASE_NS_1_0.

Definition leaf (t : string) : enode := ENode t None [].

Definition add_child (c : nat) (e : enode) : enode :=
  ENode (tag e) (text e) (children e ++ [c]).

Definition with_text (s : string) (e : enode) : enode :=
  ENode (tag e) (Some s) (children e).

Definition with_tag (t : string) (e : enode) : enode :=
  ENode t (text e) (children e).

(** A new cell at the end of the store; its index is the reference. *)
Definition alloc (e : enode) : M nat :=
  λ σ, (State (heap σ ++ [e]) (outbox σ), Ok (length (heap σ))).

(** In-place update of a cell.  References are only ever obtained from the
    store, so the out-of-range case (nothing happens) is never reached. *)
Definition update (f : enode → enode) (i : nat) : M unit :=
  λ σ, (State (alter f i (heap σ)) (outbox σ), Ok tt).

(** Modelled from the spec: [parent.append(child)] of the markup builder, for
    a [child] that has no parent yet (every element appended by the builders
    is freshly made, parsed, or the caller's root element). *)
Definition append (parent child : nat) : M unit :=
  update (add_child child) parent.

(** Modelled from the spec: [ele.text = s] ([setText(node, text)]). *)
Definition set_text (ele : nat) (s : string) : M unit :=
  update (with_text s) ele.

(** [ele.text = v] for a value that may not be a string. *)
Definition set_text_py (ele : nat) (v : pyval) : M unit :=
  match v with
  | PStr s => set_text ele s
  | PEle _ => raise TypeError
  end.

(** [ele.text = v] for a timeout: the text of an element is a string, a
    number is refused. *)
Definition set_text_of (ele : nat) (v : pytext) : M unit :=
  match v with
  | TStr s => set_text ele s
  | TInt _ => raise TypeError
  end.

(** Modelled from the spec: [ele.tag = t]. *)
Definition set_tag (ele : nat) (t : string) : M unit :=
  update (with_tag t) ele.

(** [ele.tag]. *)
Definition get_tag (ele : nat) : M string :=
  λ σ, (σ, Ok (default "" (tag <$> heap σ !! ele))).

(** Modelled from the spec: [new_ele_ns(tag, ns)] and [new_ele(tag)] of
    [ncclient.xml_] ([newElement(name, namespace) -> node]). *)
Definition new_ele_ns (name ns : string) : M nat :=
  alloc (leaf (qualify_ns name ns)).

Definition new_ele (name : string) : M nat :=
  alloc (leaf (qualify name)).

(** Modelled from the spec: [sub_ele_ns(parent, tag, ns)] and
    [sub_ele(parent, tag)] of [ncclient.xml_]
    ([appendChild(parent, name, namespace) -> node]). *)
Definition sub_ele_ns (parent : nat) (name ns : string) : M nat :=
  c <- alloc (leaf (qualify_ns name ns)) ;;
  append parent c ;;;
  ret c.

Definition sub_ele (parent : nat) (name : string) : M nat :=
  c <- alloc (leaf (qualify name)) ;;
  append parent c ;;;
  ret c.

(** [[f(x) for x in l]] in the builder monad. *)
Definition for_each {A B} (f : A → M B) : list A → M (list B) :=
  fix go (l : list A) : M (list B) :=
    match l with
    | [] => ret []
    | x :: l' => y <- f x ;; ys <- go l' ;; ret (y :: ys)
    end.

(** An element value is put into the store children first, so that the cell
    of the root is made with its references complete. *)
Fixpoint alloc_tree (t : xml) : M nat :=
  match t with
  | Element tg tx ks =>
      ids <- for_each alloc_tree ks ;;
      alloc (ENode tg tx ids)
  end.

(** The number of levels of an element. *)
Fixpoint depth (t : xml) : nat :=
  match t with
  | Element _ _ ks => S (foldr (λ k d, depth k `max` d) 0 ks)
  end.

(** Reading an element back as a value; [fuel] bounds the depth. *)
Fixpoint to_tree (fuel : nat) (h : list enode) (i : nat) : option xml :=
  match fuel with
  | 0 => None
  | S fuel' =>
      match h !! i with
      | None => None
      | Some e =>
          match mapM (to_tree fuel' h) (children e) with
          | None => None
          | Some ks => Some (Element (tag e) (text e) ks)
          end
      end
  end.

(** The tags of the children of an element, in order. *)
Definition children_of (h : list enode) (i : nat) : list nat :=
  default [] (children <$> h !! i).

Definition tag_of (h : list enode) (i : nat) : string :=
  default "" (tag <$> h !! i).

Definition text_of (h : list enode) (i : nat) : option string :=
  default None (text <$> h !! i).

Definition child_tags (h : list enode) (i : nat) : list string :=
  tag_of h <$> children_of h i.

(** ** The module [rpc.py] *)

Section Tailf.

(** The vendor namespaces of [ncclient.xml_]: symbolic constants. *)
Variables TAILF_NS TAILF_NS_NCS TAILF_NS_ROLLBACK : string.
Variables TAILF_NS_WTI TAILF_NS_INACTIVE : string.

(** The capabilities the server advertised in its hello. *)
Variable server_capabilities : list string.

(** [util.datastore_or_url(wha, loc, capcheck)]: the element that names a
    datastore or a URL, or an exception. *)
Variable datastore_or_url : string → pyval → (string → res unit) → res xml.

(** The XML parser behind [to_ele]: a string is a document or it is not. *)
Variable parse_xml : string → option xml.

(** Modelled from the spec: [RPC._assert], which raises
    [MissingCapabilityError] for a capability the session does not have. *)
Definition _assert (capability : string) : res unit :=
  if bool_decide (capability ∈ server_capabilities) then Ok tt
  else Raise (MissingCapabilityError capability).

(** Modelled from the spec: [RPC._request], which hands the finished node to
    the dispatch collaborator.  The round trip is not part of the core; the
    model records the node and returns it. *)
Definition _request (node : nat) : M nat :=
  λ σ, (State (heap σ) (outbox σ ++ [node]), Ok node).

(** Modelled from the spec: [to_ele] of [ncclient.xml_]: an element is
    itself, a string is parsed. *)
Definition to_ele (x : pyval) : M nat :=
  match x with
  | PEle ele => ret ele
  | PStr s =>
      match parse_xml s with
      | Some t => alloc_tree t
      | None => raise XMLSyntaxError
      end
  end.

(** Modelled from the spec: [validated_element(x, tags)] of
    [ncclient.xml_]: the payload as an element, provided its root is named
    by one of [tags]. *)
Definition validated_element (x : pyval) (tags : list string) : M nat :=
  ele <- to_ele x ;;
  t <- get_tag ele ;;
  if bool_decide (t ∈ tags) then ret ele
  else raise (XMLError ("Element [" +:+ t +:+ "] does not meet requirement")).

(** The element [util.datastore_or_url] returns, as a fresh element of the
    store. *)
Definition datastore_or_url_ele (wha : string) (loc : pyval) : M nat :=
  t <- lift (datastore_or_url wha loc _assert) ;;
  alloc_tree t.

(** *** Option encoders *)

Definition add_service_commit_params
    (node : nat) (no_deploy : arg bool) (reconcile : option string) : M unit :=
  let no_deploy := arg_default false no_deploy in
  when no_deploy
    (_ <- sub_ele_ns node "no-deploy" TAILF_NS_NCS ;; ret tt) ;;;
  match reconcile with
  | None => ret tt
  | Some reconcile =>
      when (bool_decide
              (reconcile ∉ ["keep-non-service-config"; "discard-non-service-config"]))
        (raise (OperationError ("Wrong reconcile argument: " +:+ reconcile))) ;;;
      rec_node <- sub_ele_ns node "reconcile" TAILF_NS_NCS ;;
      _ <- sub_ele_ns rec_node reconcile TAILF_NS_NCS ;;
      ret tt
  end.

Definition add_rollback_meta_data
    (node : nat) (rollback_label rollback_comment : option string) : M unit :=
  match rollback_label with
  | Some l =>
      when (truthy_str rollback_label)
        (e <- sub_ele_ns node "label" TAILF_NS_ROLLBACK ;; set_text e l)
  | None => ret tt
  end ;;;
  match rollback_comment with
  | Some c =>
      when (truthy_str rollback_comment)
        (e <- sub_ele_ns node "comment" TAILF_NS_ROLLBACK ;; set_text e c)
  | None => ret tt
  end.

Definition add_with_transaction_id
    (node : nat) (with_transaction_id : arg (option bool)) : M unit :=
  let with_transaction_id := arg_default (Some false) with_transaction_id in
  when (truthy_bool with_transaction_id)
    (_ <- sub_ele_ns node "with-transaction-id" TAILF_NS_WTI ;; ret tt).

Definition add_with_inactive (node : nat) (with_inactive : arg bool) : M unit :=
  let with_inactive := arg_default true with_inactive in
  when with_inactive
    (_ <- sub_ele_ns node "with-inactive" TAILF_NS_INACTIVE ;; ret tt).

(** *** NSO specific RPCs *)

Definition StartTransaction_request
    (target : arg string) (with_inactive : arg bool) : M nat :=
  let target := arg_default "candidate" target in
  let with_inactive := arg_default true with_inactive in
  node <- new_ele_ns "start-transaction" TAILF_NS ;;
  target_node <- sub_ele_ns node "target" TAILF_NS ;;
  _ <- sub_ele_ns target_node target TAILF_NS ;;
  add_with_inactive node (Given with_inactive) ;;;
  _request node.

Definition PrepareTransaction_request
    (dry_run : option string) (dry_run_reverse : arg bool)
    (no_deploy : arg bool) (reconcile : option string)
    (rollback_label rollback_comment : option string) : M nat :=
  let dry_run_reverse := arg_default false dry_run_reverse in
  let no_deploy := arg_default false no_deploy in
  node <- new_ele_ns "prepare-transaction" TAILF_NS ;;
  match dry_run with
  | None => ret tt
  | Some dry_run =>
      when (bool_decide (dry_run ∉ ["native"; "cli"; "xml"]))
        (raise (OperationError ("Wrong dry-run argument: " +:+ dry_run))) ;;;
      dr_node <- sub_ele_ns node "dry-run" TAILF_NS_NCS ;;
      outformat <- sub_ele_ns dr_node "outformat" TAILF_NS_NCS ;;
      set_text outformat dry_run ;;;
      when dry_run_reverse
        (_ <- sub_ele_ns dr_node "reverse" TAILF_NS_NCS ;; ret tt)
  end ;;;
  add_service_commit_params node (Given no_deploy) reconcile ;;;
  add_rollback_meta_data node rollback_label rollback_comment ;;;
  _request node.

Definition CommitTransaction_request
    (with_transaction_id : arg (option bool)) : M nat :=
  let with_transaction_id := arg_default None with_transaction_id in
  node <- new_ele_ns "commit-transaction" TAILF_NS ;;
  add_with_transaction_id node (Given with_transaction_id) ;;;
  _request node.

Definition AbortTransaction_request : M nat :=
  node <- new_ele_ns "abort-transaction" TAILF_NS ;;
  _request node.

(** *** Overridden standard RPCs with NSO options *)

Definition EditConfig_request
    (config : pyval) (format : arg string) (target : arg string)
    (default_operation test_option error_option : option string)
    (no_deploy : arg bool) (reconcile : option string)
    (rollback_label rollback_comment : option string)
    (with_transaction_id : arg (option bool))
    (with_inactive : arg bool) : M nat :=
  let format := arg_default "xml" format in
  let target := arg_default "candidate" target in
  let no_deploy := arg_default false no_deploy in
  let with_transaction_id := arg_default (Some false) with_transaction_id in
  let with_inactive := arg_default false with_inactive in
  node <- new_ele "edit-config" ;;
  t <- datastore_or_url_ele "target" (PStr target) ;;
  append node t ;;;
  match default_operation with
  | None => ret tt
  | Some default_operation =>
      e <- sub_ele node "default-operation" ;;
      set_text e default_operation
  end ;;;
  match test_option with
  | None => ret tt
  | Some test_option =>
      lift (_assert ":validate") ;;;
      e <- sub_ele node "test-option" ;;
      set_text e test_option
  end ;;;
  match error_option with
  | None => ret tt
  | Some error_option =>
      when (bool_decide (error_option = "rollback-on-error"))
        (lift (_assert ":rollback-on-error")) ;;;
      e <- sub_ele node "error-option" ;;
      set_text e error_option
  end ;;;
  add_service_commit_params node (Given no_deploy) reconcile ;;;
  add_rollback_meta_data node rollback_label rollback_comment ;;;
  add_with_transaction_id node (Given with_transaction_id) ;;;
  add_with_inactive node (Given with_inactive) ;;;
  when (bool_decide (format = "xml"))
    (config_node <- validated_element config ["config"; qualify "config"] ;;
     let ns := "{urn:ietf:params:xml:ns:netconf:base:1.0}" in
     set_tag config_node (ns +:+ "config") ;;;
     append node config_node) ;;;
  when (bool_decide (format = "text"))
    (config_text <- sub_ele node "config-text" ;;
     e <- sub_ele config_text "configuration-text" ;;
     set_text_py e config) ;;;
  _request node.

Definition CopyConfig_request
    (source : pyval) (target : string)
    (no_deploy : arg bool) (reconcile : option string)
    (with_transaction_id : arg (option bool))
    (with_inactive : arg bool) : M nat :=
  let no_deploy := arg_default false no_deploy in
  let with_transaction_id := arg_default (Some false) with_transaction_id in
  let with_inactive := arg_default false with_inactive in
  node <- new_ele "copy-config" ;;
  t <- datastore_or_url_ele "target" (PStr target) ;;
  append node t ;;;
  try_except
    (s <- datastore_or_url_ele "source" source ;;
     append node s)
    (s <- validated_element source ["source"; qualify "source"] ;;
     append node s) ;;;
  add_service_commit_params node (Given no_deploy) reconcile ;;;
  add_with_transaction_id node (Given with_transaction_id) ;;;
  add_with_inactive node (Given with_inactive) ;;;
  _request node.

Definition Commit_request
    (confirmed : arg bool) (timeout : option pytext)
    (persist persist_id : option string)
    (no_deploy : arg bool) (reconcile : option string)
    (rollback_label rollback_comment : option string)
    (with_transaction_id : arg (option bool)) : M nat :=
  let confirmed := arg_default false confirmed in
  let no_deploy := arg_default false no_deploy in
  let with_transaction_id := arg_default (Some false) with_transaction_id in
  node <- new_ele "commit" ;;
  when ((confirmed || truthy_str persist) && truthy_str persist_id)
    (raise (OperationError
       "Invalid operation as confirmed or persist cannot be present with persist-id")) ;;;
  when confirmed
    (lift (_assert ":confirmed-commit") ;;;
     _ <- sub_ele node "confirmed" ;;
     match timeout with
     | None => ret tt
     | Some timeout =>
         e <- sub_ele node "confirm-timeout" ;; set_text_of e timeout
     end ;;;
     match persist with
     | None => ret tt
     | Some persist => e <- sub_ele node "persist" ;; set_text e persist
     end) ;;;
  match persist_id with
  | Some p =>
      when (truthy_str persist_id)
        (e <- sub_ele node "persist-id" ;; set_text e p)
  | None => ret tt
  end ;;;
  add_service_commit_params node (Given no_deploy) reconcile ;;;
  add_rollback_meta_data node rollback_label rollback_comment ;;;
  add_with_transaction_id node (Given with_transaction_id) ;;;
  _request node.

End Tailf.

(** ** Collaborators for the examples *)

(** A [datastore_or_url] for running the builders on concrete inputs: a
    string names a datastore, an element is not a name. *)
Definition example_datastore_or_url
    (wha : string) (loc : pyval) (capcheck : string → res unit) : res xml :=
  match loc with
  | PStr s => Ok (Element (qualify wha) None [Element (qualify s) None []])
  | PEle _ => Raise TypeError
  end.

(** A parser for running the builders on concrete inputs: it knows two
    documents. *)
Definition example_parse_xml (s : string) : option xml :=
  if bool_decide (s = "<config><system/></config>")
  then Some (Element "config" None [Element "system" None []])
  else if bool_decide (s = "<source><config/></source>")
  then Some (Element "source" None [Element "config" None []])
  else None.

(** * Vocabulary of the statements *)

(** Whether a closing brace occurs in [s]. *)
Fixpoint has_brace (s : string) : bool :=
  match s with
  | EmptyString => false
  | String c s' => bool_decide (c = "}"%char) || has_brace s'
  end.

(** What follows the last closing brace: the name without its namespace. *)
Fixpoint local_name (s : string) : string :=
  match s with
  | EmptyString => EmptyString
  | String c s' => if has_brace s then local_name s' else s
  end.

(** [ext n P σ σ']: from [σ] to [σ'] nothing was dispatched, the store
    only grew, no old cell but [n] changed, and [n] only gained children, all
    of them new cells with a tag in [P]. *)
Definition ext (n : nat) (P : string → Prop) (σ σ' : state) : Prop :=
  outbox σ' = outbox σ ∧
  length (heap σ) ≤ length (heap σ') ∧
  (∀ i, i < length (heap σ) → i ≠ n → heap σ' !! i = heap σ !! i) ∧
  tag_of (heap σ') n = tag_of (heap σ) n ∧
  text_of (heap σ') n = text_of (heap σ) n ∧
  ∃ kids,
    children_of (heap σ') n = children_of (heap σ) n ++ kids ∧
    Forall (λ k, length (heap σ) ≤ k < length (heap σ') ∧
                 P (tag_of (heap σ') k)) kids.

(** The tags whose local name is one of [names]. *)
Definition named (names : list string) (t : string) : Prop :=
  local_name t ∈ names.

(** Every tag. *)
Definition any_tag (t : string) : Prop := True.

(** [stored b news k t]: put at the end of a store of [b] cells, [t] takes
    the cells [news], its root is cell [b + k], and it reads back as [t] from
    any store that has these cells at these places. *)
Definition stored (b : nat) (news : list enode) (k : nat) (t : xml) : Prop :=
  k < length news ∧
  (∀ h ob, length h = b →
     alloc_tree t (State h ob) = (State (h ++ news) ob, Ok (b + k))) ∧
  (∀ h fuel, (∀ j e, news !! j = Some e → h !! (b + j) = Some e) →
     depth t ≤ fuel → to_tree fuel h (b + k) = Some t).

(** The same for a list of elements put into the store one after the other. *)
Definition stored_list (b : nat) (news : list enode) (ids : list nat)
    (ks : list xml) : Prop :=
  (∀ h ob, length h = b →
     for_each alloc_tree ks (State h ob) = (State (h ++ news) ob, Ok ids)) ∧
  (∀ h fuel, (∀ j e, news !! j = Some e → h !! (b + j) = Some e) →
     foldr (λ k d, depth k `max` d) 0 ks ≤ fuel →
     mapM (to_tree fuel h) ids = Some ks).

(** [m] hands nothing to the dispatcher. *)
Definition keeps_outbox {A} (m : M A) : Prop :=
  ∀ σ, outbox (m σ).1 = outbox σ.

(** When [m] raises, nothing has been handed to the dispatcher. *)
Definition no_dispatch_on_raise {A} (m : M A) : Prop :=
  ∀ σ σ' e, m σ = (σ', Raise e) → outbox σ' = outbox σ.



(** Every exception [m] raises is in [P]. *)
Definition raises_only {A} (P : exn → Prop) (m : M A) : Prop :=
  ∀ σ σ' e, m σ = (σ', Raise e) → P e.

(** The two reconcile values. *)
Definition reconcile_values : list string :=
  ["keep-non-service-config"; "discard-non-service-config"].

(** The outcome of [add_service_commit_params]: it raises exactly for a
    reconcile value that is not one of the two. *)
Definition reconcile_outcome (reconcile : option string) : res unit :=
  match reconcile with
  | None => Ok tt
  | Some r =>
      if bool_decide (r ∈ reconcile_values) then Ok tt
      else Raise (OperationError ("Wrong reconcile argument: " +:+ r))
  end.

(** No reconcile value, or one of the two. *)
Definition reconcile_ok (reconcile : option string) : Prop :=
  match reconcile with
  | Some r => r ∈ ["keep-non-service-config"; "discard-non-service-config"]
  | None => True
  end.

(** The local names of the children [Commit] may give its node. *)
Definition confirmed_names (confirmed : bool) : list string :=
  if confirmed then ["confirmed"; "confirm-timeout"; "persist"] else [].

Definition persist_id_names (persist_id : option string) : list string :=
  if truthy_str persist_id then ["persist-id"] else [].

Definition commit_names (confirmed : bool) (persist_id : option string) :
    list string :=
  confirmed_names confirmed ++ persist_id_names persist_id ++
  ["no-deploy"; "reconcile"; "label"; "comment"; "with-transaction-id"].

(** The exception of [validated_element] for a root named [t]. *)
Definition not_rooted (t : string) : exn :=
  XMLError ("Element [" +:+ t +:+ "] does not meet requirement").

(** [untouched b x σ σ']: from [σ] to [σ'] the store did not shrink and no
    cell below [b] changed, [x] apart. *)
Definition untouched (b x : nat) (σ σ' : state) : Prop :=
  length (heap σ) ≤ length (heap σ') ∧
  ∀ i, i < b → i ≠ x → heap σ' !! i = heap σ !! i.

(** [m], run on a store of at least [b] cells, leaves the cells below [b]
    alone ([x] apart), and what it returns is in [Q]. *)
Definition keeps_below {A} (b x : nat) (Q : A → Prop) (m : M A) : Prop :=
  ∀ σ, b ≤ length (heap σ) →
    untouched b x σ (m σ).1 ∧ ∀ a, (m σ).2 = Ok a → Q a.

(** [reads h c t]: the element [c] of the store [h] is the document [t]. *)
Definition reads (h : list enode) (c : nat) (t : xml) : Prop :=
  ∀ fuel, depth t ≤ fuel → to_tree fuel h c = Some t.

(** [reads_from b h c t]: [c] is the document [t] in every store that has the
    cells of [h] from [b] on. *)
Definition reads_from (b : nat) (h : list enode) (c : nat) (t : xml) : Prop :=
  ∀ h', (∀ i, b ≤ i < length h → h' !! i = h !! i) → reads h' c t.

(** [appends n ts σ σ']: from [σ] to [σ'] the node [n] gained, after the
    children it had, new children that are the documents [ts], in this order;
    nothing else of the old store changed and nothing was dispatched. *)
Definition appends (n : nat) (ts : list xml) (σ σ' : state) : Prop :=
  ext n any_tag σ σ' ∧
  ∃ kids,
    children_of (heap σ') n = children_of (heap σ) n ++ kids ∧
    Forall2 (reads_from (length (heap σ)) (heap σ')) kids ts.

(** ** The documents the encoders add *)

(** An empty element, and an element that holds a text. *)
Definition marker (name ns : string) : xml :=
  Element (qualify_ns name ns) None [].

Definition text_element (name ns s : string) : xml :=
  Element (qualify_ns name ns) (Some s) [].

(** The element of an optional text that Python finds true. *)
Definition present_text (name ns : string) (o : option string) : list xml :=
  match o with
  | Some s => if truthy_str o then [text_element name ns s] else []
  | None => []
  end.

(** The element of an optional text that is not [None]. *)
Definition given_text (name ns : string) (o : option string) : list xml :=
  match o with
  | Some s => [text_element name ns s]
  | None => []
  end.

Definition service_commit_params_doc
    (ns : string) (no_deploy : arg bool) (reconcile : option string) : list xml :=
  (if arg_default false no_deploy then [marker "no-deploy" ns] else []) ++
  match reconcile with
  | Some r => [Element (qualify_ns "reconcile" ns) None [marker r ns]]
  | None => []
  end.

Definition rollback_meta_data_doc
    (ns : string) (rollback_label rollback_comment : option string) : list xml :=
  present_text "label" ns rollback_label ++
  present_text "comment" ns rollback_comment.

Definition with_transaction_id_doc
    (ns : string) (with_transaction_id : arg (option bool)) : list xml :=
  if truthy_bool (arg_default (Some false) with_transaction_id)
  then [marker "with-transaction-id" ns] else [].

Definition with_inactive_doc (ns : string) (with_inactive : arg bool) : list xml :=
  if arg_default true with_inactive then [marker "with-inactive" ns] else [].

(** ** The documents the builders dispatch, and the errors they raise *)

Definition StartTransaction_doc
    (ns nsi : string) (target : arg string) (with_inactive : arg bool) : xml :=
  Element (qualify_ns "start-transaction" ns) None
    ([Element (qualify_ns "target" ns) None
        [marker (arg_default "candidate" target) ns]] ++
     with_inactive_doc nsi with_inactive).

Definition dry_run_doc
    (ncs : string) (dry_run : option string) (dry_run_reverse : arg bool) :
    list xml :=
  match dry_run with
  | Some d =>
      [Element (qualify_ns "dry-run" ncs) None
         ([text_element "outformat" ncs d] ++
          if arg_default false dry_run_reverse
          then [marker "reverse" ncs] else [])]
  | None => []
  end.

Definition PrepareTransaction_doc
    (ns ncs nsr : string) (dry_run : option string) (dry_run_reverse : arg bool)
    (no_deploy : arg bool) (reconcile : option string)
    (rollback_label rollback_comment : option string) : xml :=
  Element (qualify_ns "prepare-transaction" ns) None
    (dry_run_doc ncs dry_run dry_run_reverse ++
     service_commit_params_doc ncs no_deploy reconcile ++
     rollback_meta_data_doc nsr rollback_label rollback_comment).

(** The error of a reconcile value, if it is one. *)
Definition reconcile_error (reconcile : option string) : option exn :=
  match reconcile with
  | Some r =>
      if bool_decide (r ∈ ["keep-non-service-config"; "discard-non-service-config"])
      then None
      else Some (OperationError ("Wrong reconcile argument: " +:+ r))
  | None => None
  end.

(** The first error [PrepareTransaction] finds. *)
Definition PrepareTransaction_error
    (dry_run reconcile : option string) : option exn :=
  match dry_run with
  | Some d =>
      if bool_decide (d ∈ ["native"; "cli"; "xml"]) then reconcile_error reconcile
      else Some (OperationError ("Wrong dry-run argument: " +:+ d))
  | None => reconcile_error reconcile
  end.

(** ** Steps of a builder, as outcomes *)

(** An error, or else the documents. *)
Definition guard (e : option exn) (ts : list xml) : res (list xml) :=
  match e with
  | Some e => Raise e
  | None => Ok ts
  end.

(** One outcome after the other: the first error wins, documents add up. *)
Definition seq_res (r1 r2 : res (list xml)) : res (list xml) :=
  match r1 with
  | Raise e => Raise e
  | Ok ts1 =>
      match r2 with
      | Raise e => Raise e
      | Ok ts2 => Ok (ts1 ++ ts2)
      end
  end.

(** [performs n r m σ]: run on [σ], the step [m] either raises the error of
    [r] with nothing dispatched, or appends the documents of [r] to [n]. *)
Definition performs (n : nat) (r : res (list xml)) (m : M unit) (σ : state) :
    Prop :=
  ∃ σ',
    match r with
    | Raise e => m σ = (σ', Raise e) ∧ outbox σ' = outbox σ
    | Ok ts => m σ = (σ', Ok tt) ∧ appends n ts σ σ'
    end.

(** [dispatches n r k σ]: run on [σ], the rest [k] of a builder either raises
    the error of [r] with nothing dispatched, or appends the documents of [r]
    to [n], dispatches [n] and returns it. *)
Definition dispatches (n : nat) (r : res (list xml)) (k : M nat) (σ : state) :
    Prop :=
  match r with
  | Raise e => ∃ σ', k σ = (σ', Raise e) ∧ outbox σ' = outbox σ
  | Ok ts =>
      ∃ σk, appends n ts σ σk ∧
            k σ = (State (heap σk) (outbox σk ++ [n]), Ok n)
  end.

(** [builds tg r k σ]: run on [σ], the builder [k] either raises the error of
    [r] with nothing dispatched, or dispatches one new element, the document
    with tag [tg] and the children of [r]. *)
Definition builds (tg : string) (r : res (list xml)) (k : M nat) (σ : state) :
    Prop :=
  ∃ σ',
    match r with
    | Raise e => k σ = (σ', Raise e) ∧ outbox σ' = outbox σ
    | Ok ts =>
        k σ = (σ', Ok (length (heap σ))) ∧
        outbox σ' = outbox σ ++ [length (heap σ)] ∧
        reads (heap σ') (length (heap σ)) (Element tg None ts)
    end.

(** A capability that is needed and not advertised. *)
Definition missing (caps : list string) (needed : bool) (capability : string) :
    option exn :=
  if needed && negb (bool_decide (capability ∈ caps))
  then Some (MissingCapabilityError capability)
  else None.

(** The children a confirmed [Commit] gives its node first, or the error of
    the step: the capability is asserted before anything is appended, and a
    timeout that is a number is refused when it is set as text. *)
Definition confirmed_result
    (caps : list string) (confirmed : bool) (timeout : option pytext)
    (persist : option string) : res (list xml) :=
  if confirmed
  then seq_res (guard (missing caps true ":confirmed-commit")
                  [marker "confirmed" BASE_NS_1_0])
      (seq_res (match timeout with
                | None => Ok []
                | Some (TStr s) => Ok [text_element "confirm-timeout" BASE_NS_1_0 s]
                | Some (TInt _) => Raise TypeError
                end)
               (Ok (given_text "persist" BASE_NS_1_0 persist)))
  else Ok [].

(** The outcome of [Commit]: the first error it finds, or the children of the
    request. *)
Definition Commit_result
    (ncs nsr wti : string) (caps : list string) (confirmed : arg bool)
    (timeout : option pytext) (persist persist_id : option string)
    (no_deploy : arg bool) (reconcile : option string)
    (rollback_label rollback_comment : option string)
    (with_transaction_id : arg (option bool)) : res (list xml) :=
  seq_res
    (guard
       (if (arg_default false confirmed || truthy_str persist)
           && truthy_str persist_id
        then Some (OperationError
               "Invalid operation as confirmed or persist cannot be present with persist-id")
        else None) [])
  (seq_res (confirmed_result caps (arg_default false confirmed) timeout persist)
  (seq_res (Ok (present_text "persist-id" BASE_NS_1_0 persist_id))
  (seq_res (guard (reconcile_error reconcile)
              (service_commit_params_doc ncs no_deploy reconcile))
  (seq_res (Ok (rollback_meta_data_doc nsr rollback_label rollback_comment))
           (Ok (with_transaction_id_doc wti with_transaction_id)))))).

(** A string payload handed to [validated_element]: the parsed document when
    its root is named by one of [tags]. *)
Definition validated_string
    (parse : string → option xml) (s : string) (tags : list string) : res xml :=
  match parse s with
  | None => Raise XMLSyntaxError
  | Some (Element tg tx ks) =>
      if bool_decide (tg ∈ tags) then Ok (Element tg tx ks)
      else Raise (not_rooted tg)
  end.

(** The tag an element has after [ele.tag = t]. *)
Definition retag (t : string) (d : xml) : xml :=
  match d with
  | Element _ tx ks => Element t tx ks
  end.

(** What [EditConfig] makes of a string payload. *)
Definition EditConfig_string_payload
    (parse : string → option xml) (format s : string) : res (list xml) :=
  seq_res
    (if bool_decide (format = "xml")
     then match validated_string parse s ["config"; qualify "config"] with
          | Ok d =>
              Ok [retag "{urn:ietf:params:xml:ns:netconf:base:1.0}config" d]
          | Raise e => Raise e
          end
     else Ok [])
    (if bool_decide (format = "text")
     then Ok [Element (qualify "config-text") None
                [Element (qualify "configuration-text") (Some s) []]]
     else Ok []).

(** The children [EditConfig] gives its node after the target and before
    the payload, or the first error it finds on the way. *)
Definition EditConfig_options
    (ncs nsr wti nsi : string) (caps : list string)
    (default_operation test_option error_option : option string)
    (no_deploy : arg bool) (reconcile : option string)
    (rollback_label rollback_comment : option string)
    (with_transaction_id : arg (option bool)) (with_inactive : arg bool) :
    res (list xml) :=
  seq_res (Ok (given_text "default-operation" BASE_NS_1_0 default_operation))
  (seq_res (guard (missing caps (bool_decide (test_option ≠ None)) ":validate")
              (given_text "test-option" BASE_NS_1_0 test_option))
  (seq_res (guard (missing caps
                     (bool_decide (error_option = Some "rollback-on-error"))
                     ":rollback-on-error")
              (given_text "error-option" BASE_NS_1_0 error_option))
  (seq_res (guard (reconcile_error reconcile)
              (service_commit_params_doc ncs no_deploy reconcile))
  (seq_res (Ok (rollback_meta_data_doc nsr rollback_label rollback_comment))
  (seq_res (Ok (with_transaction_id_doc wti with_transaction_id))
     (Ok (with_inactive_doc nsi (Given (arg_default false with_inactive))))))))).

(** The children [EditConfig] gives its node after the target, for a string
    payload, or the first error it finds. *)
Definition EditConfig_steps
    (ncs nsr wti nsi : string) (caps : list string)
    (parse : string → option xml) (s : string) (format : arg string)
    (default_operation test_option error_option : option string)
    (no_deploy : arg bool) (reconcile : option string)
    (rollback_label rollback_comment : option string)
    (with_transaction_id : arg (option bool)) (with_inactive : arg bool) :
    res (list xml) :=
  seq_res (Ok (given_text "default-operation" BASE_NS_1_0 default_operation))
  (seq_res (guard (missing caps (bool_decide (test_option ≠ None)) ":validate")
              (given_text "test-option" BASE_NS_1_0 test_option))
  (seq_res (guard (missing caps
                     (bool_decide (error_option = Some "rollback-on-error"))
                     ":rollback-on-error")
              (given_text "error-option" BASE_NS_1_0 error_option))
  (seq_res (guard (reconcile_error reconcile)
              (service_commit_params_doc ncs no_deploy reconcile))
  (seq_res (Ok (rollback_meta_data_doc nsr rollback_label rollback_comment))
  (seq_res (Ok (with_transaction_id_doc wti with_transaction_id))
  (seq_res (Ok (with_inactive_doc nsi (Given (arg_default false with_inactive))))
     (EditConfig_string_payload parse (arg_default "xml" format) s))))))).

(** The outcome of [EditConfig] for a string payload: the error of the
    target, or of the steps, or the children of the request. *)
Definition EditConfig_result
    (ncs nsr wti nsi : string) (caps : list string)
    (datastore_or_url : string → pyval → (string → res unit) → res xml)
    (parse : string → option xml) (s : string) (format target : arg string)
    (default_operation test_option error_option : option string)
    (no_deploy : arg bool) (reconcile : option string)
    (rollback_label rollback_comment : option string)
    (with_transaction_id : arg (option bool)) (with_inactive : arg bool) :
    res (list xml) :=
  match datastore_or_url "target" (PStr (arg_default "candidate" target))
          (_assert caps) with
  | Raise e => Raise e
  | Ok tr =>
      seq_res (Ok [tr])
        (EditConfig_steps ncs nsr wti nsi caps parse s format
           default_operation test_option error_option no_deploy reconcile
           rollback_label rollback_comment with_transaction_id with_inactive)
  end.

(** What [CopyConfig] makes of a string source: the element of the datastore
    or URL, or, when the string is not understood as one, the parsed document
    rooted in [source]. *)
Definition CopyConfig_string_source
    (caps : list string)
    (datastore_or_url : string → pyval → (string → res unit) → res xml)
    (parse : string → option xml) (s : string) : res (list xml) :=
  match datastore_or_url "source" (PStr s) (_assert caps) with
  | Ok d => Ok [d]
  | Raise _ =>
      match validated_string parse s ["source"; qualify "source"] with
      | Ok d => Ok [d]
      | Raise e => Raise e
      end
  end.

(** The outcome of [CopyConfig] for a string source. *)
Definition CopyConfig_result
    (ncs wti nsi : string) (caps : list string)
    (datastore_or_url : string → pyval → (string → res unit) → res xml)
    (parse : string → option xml) (s target : string)
    (no_deploy : arg bool) (reconcile : option string)
    (with_transaction_id : arg (option bool)) (with_inactive : arg bool) :
    res (list xml) :=
  match datastore_or_url "target" (PStr target) (_assert caps) with
  | Raise e => Raise e
  | Ok tr =>
      seq_res (Ok [tr])
     (seq_res (CopyConfig_string_source caps datastore_or_url parse s)
     (seq_res (guard (reconcile_error reconcile)
                 (service_commit_params_doc ncs no_deploy reconcile))
     (seq_res (Ok (with_transaction_id_doc wti with_transaction_id))
              (Ok (with_inactive_doc nsi
                     (Given (arg_default false with_inactive)))))))
  end.

(** ** What the markup builder accepts *)

(** The markup builder of the program refuses a name that is not an XML name
    and a text that holds control characters.  The store does not model these
    refusals; the statements about what a call returns take as hypotheses
    that the names and texts the caller supplies are accepted, in the form of
    the conditions below, each sufficient for it. *)

Definition all_chars (p : ascii → bool) : string → bool :=
  fix go (s : string) : bool :=
    match s with
    | EmptyString => true
    | String c s' => p c && go s'
    end.

Definition between (lo hi : nat) (c : ascii) : bool :=
  (lo <=? nat_of_ascii c) && (nat_of_ascii c <=? hi).

(** A letter or the underscore. *)
Definition name_start (c : ascii) : bool :=
  between 65 90 c || between 97 122 c || between 95 95 c.

(** A letter, a digit, or one of [_ - .]. *)
Definition name_char (c : ascii) : bool :=
  name_start c || between 48 57 c || between 45 46 c.

(** A name of ASCII letters, digits, [_ - .] that starts with a letter or
    [_]. *)
Definition xml_name (s : string) : bool :=
  match s with
  | EmptyString => false
  | String c s' => name_start c && all_chars name_char s'
  end.

(** A printable ASCII character, a tab, a line feed or a carriage return. *)
Definition text_char (c : ascii) : bool :=
  between 32 126 c || between 9 10 c || between 13 13 c.

Definition xml_text (s : string) : bool := all_chars text_char s.

(** An optional text that, when given, is accepted. *)
Definition text_ok (o : option string) : Prop :=
  match o with
  | Some s => xml_text s = true
  | None => True
  end.

(** A timeout that, when given as a string, is accepted. *)
Definition timeout_ok (o : option pytext) : Prop :=
  match o with
  | Some (TStr s) => xml_text s = true
  | _ => True
  end.

(** * Reasoning about the store *)

Section StoreLemmas.

Context {A : Type}.
Implicit Types (f : A → A) (h l : list A).

Lemma alter_off0 f h l : alter f (length h) (h ++ l) = h ++ alter f 0 l.
Proof. rewrite <- (Nat.add_0_r (length h)) at 1. apply alter_app_r. Qed.

Lemma lookup_off h l k : (h ++ l) !! (length h + k) = l !! k.
Proof. rewrite lookup_app_r by lia. f_equal. lia. Qed.

Lemma lookup_off0 h l : (h ++ l) !! (length h) = l !! 0.
Proof. rewrite <- (Nat.add_0_r (length h)) at 1. apply lookup_off. Qed.

Lemma lookup_off_len h h' l k :
  length h' = length h → (h' ++ l) !! (length h + k) = l !! k.
Proof. intros <-. apply lookup_off. Qed.

Lemma lookup_off_len0 h h' l :
  length h' = length h → (h' ++ l) !! (length h) = l !! 0.
Proof. intros <-. apply lookup_off0. Qed.

End StoreLemmas.

(** Symbolic execution over a store [h ++ cells] whose prefix [h] is not
    known: references are [length h + k], and every update or lookup is moved
    into the known suffix. *)
Ltac heap_norm :=
  repeat (progress
    (cbn -[Nat.add qualify_ns qualify];
     rewrite ?length_app, <- ?app_assoc, ?alter_off0, ?alter_app_r,
       ?lookup_off0, ?lookup_off)).

(** The same when the prefix is [h] with some of its cells updated. *)
Ltac heap_read :=
  repeat (progress
    (cbn -[qualify_ns qualify];
     rewrite ?length_app, ?length_alter, <- ?app_assoc, <- ?Nat.add_assoc;
     rewrite ?lookup_off_len0 by (by rewrite ?length_alter);
     rewrite ?lookup_off_len by (by rewrite ?length_alter))).

Ltac unfold_store :=
  unfold new_ele_ns, new_ele, sub_ele_ns, sub_ele, set_text, set_tag, append,
    update, alloc, get_tag, lift, bind, when, ret, raise.

Lemma bind_Ok {A B} (m : M A) (f : A → M B) σ σ1 a :
  m σ = (σ1, Ok a) → bind m f σ = f a σ1.
Proof. unfold bind. by intros ->. Qed.

Lemma bind_Raise {A B} (m : M A) (f : A → M B) σ σ1 e :
  m σ = (σ1, Raise e) → bind m f σ = (σ1, Raise e).
Proof. unfold bind. by intros ->. Qed.

Lemma bind_ret {A B} (a : A) (f : A → M B) σ : bind (ret a) f σ = f a σ.
Proof. reflexivity. Qed.

Lemma bind_raise {A B} e (f : A → M B) σ : bind (raise e) f σ = (σ, Raise e).
Proof. reflexivity. Qed.

(** ** Local names *)

Lemma local_name_plain a : has_brace a = false → local_name a = a.
Proof. destruct a as [|c a]; [done|]. intros H. cbn [local_name]. by rewrite H. Qed.

Lemma append_cons c p s : String c p +:+ s = String c (p +:+ s).
Proof. reflexivity. Qed.

Lemma append_nil s : EmptyString +:+ s = s.
Proof. reflexivity. Qed.

Lemma has_brace_app p a : has_brace (p +:+ String "}" a) = true.
Proof.
  induction p as [|c p IH]; [done|].
  rewrite append_cons. cbn [has_brace]. rewrite IH. apply orb_true_r.
Qed.

Lemma local_name_app p a :
  has_brace a = false → local_name (p +:+ String "}" a) = a.
Proof.
  intros Ha. induction p as [|c p IH].
  - rewrite append_nil. cbn. by rewrite Ha, local_name_plain.
  - rewrite append_cons. cbn [local_name has_brace].
    by rewrite has_brace_app, orb_true_r.
Qed.

Lemma local_name_qualify_ns a ns :
  has_brace a = false → local_name (qualify_ns a ns) = a.
Proof.
  intros Ha. unfold qualify_ns.
  rewrite append_cons, append_nil.
  change ("}" +:+ a) with (String "}" a).
  cbn [local_name has_brace]. rewrite has_brace_app, orb_true_r.
  by apply local_name_app.
Qed.

Lemma local_name_qualify a : has_brace a = false → local_name (qualify a) = a.
Proof. apply local_name_qualify_ns. Qed.

(** ** Appending children to a node *)

Lemma ext_refl n P σ : ext n P σ σ.
Proof.
  repeat split; try done. exists []. by rewrite app_nil_r.
Qed.

Lemma ext_trans n P σ σ1 σ2 :
  n < length (heap σ) →
  ext n P σ σ1 → ext n P σ1 σ2 → ext n P σ σ2.
Proof.
  intros Hn (Ho1 & Hl1 & Hf1 & Ht1 & Hx1 & kids1 & Hk1 & HF1)
            (Ho2 & Hl2 & Hf2 & Ht2 & Hx2 & kids2 & Hk2 & HF2).
  repeat split; try congruence; try lia.
  - intros i Hi Hne. rewrite Hf2 by lia. by apply Hf1.
  - exists (kids1 ++ kids2). split.
    + by rewrite Hk2, Hk1, app_assoc.
    + apply Forall_app. split.
      * eapply Forall_impl; [exact HF1|]. cbn. intros k [Hk Hin]. split; [lia|].
        unfold tag_of in *. rewrite Hf2 by lia. done.
      * eapply Forall_impl; [exact HF2|]. cbn. intros k [Hk Hin]. split; [lia|done].
Qed.

Lemma ext_mono n (P Q : string → Prop) σ σ' :
  (∀ t, P t → Q t) → ext n P σ σ' → ext n Q σ σ'.
Proof.
  intros Hsub (Ho & Hl & Hf & Ht & Hx & kids & Hk & HF).
  repeat split; try done. exists kids. split; [done|].
  eapply Forall_impl; [exact HF|]. cbn. intros k [? ?]. split; [done|]. by apply Hsub.
Qed.

Lemma ext_append n P h ob news c :
  n < length h → length h ≤ c < length h + length news →
  (∀ e, news !! (c - length h) = Some e → P (tag e)) →
  ext n P (State h ob) (State (alter (add_child c) n h ++ news) ob).
Proof.
  intros Hn Hc He. unfold ext, tag_of, text_of, children_of. cbn [heap outbox].
  repeat split.
  - rewrite length_app, length_alter. lia.
  - intros i Hi Hne. rewrite lookup_app_l by (rewrite length_alter; lia).
    by rewrite list_lookup_alter_ne.
  - rewrite lookup_app_l by (rewrite length_alter; lia).
    rewrite list_lookup_alter_eq. by destruct (h !! n).
  - rewrite lookup_app_l by (rewrite length_alter; lia).
    rewrite list_lookup_alter_eq. by destruct (h !! n).
  - exists [c]. split.
    + rewrite lookup_app_l by (rewrite length_alter; lia).
      rewrite list_lookup_alter_eq.
      destruct (h !! n) as [x|] eqn:Hx; [done|].
      apply lookup_ge_None in Hx. lia.
    + apply Forall_singleton. rewrite length_app, length_alter.
      split; [lia|].
      rewrite lookup_app_r by (rewrite length_alter; lia).
      rewrite length_alter.
      destruct (news !! (c - length h)) as [e|] eqn:Hx.
      * by apply He.
      * apply lookup_ge_None in Hx. lia.
Qed.

Lemma ext_extend n P h ob e rest :
  n < length h → P (tag e) →
  ext n P (State h ob)
    (State (alter (add_child (length h)) n h ++ e :: rest) ob).
Proof.
  intros Hn He. apply ext_append; [done|cbn [length]; lia|].
  rewrite Nat.sub_diag. cbn. by intros ? [= <-].
Qed.

(** ** The three ways the encoders add a child *)

Lemma alter_off_len {A} (f : A → A) (h l : list A) k :
  length h = k → alter f k (h ++ l) = h ++ alter f 0 l.
Proof. intros <-. apply alter_off0. Qed.

Lemma sub_ele_ns_run n name ns h ob :
  n < length h →
  sub_ele_ns n name ns (State h ob) =
    (State (alter (add_child (length h)) n h ++ [leaf (qualify_ns name ns)]) ob,
     Ok (length h)).
Proof.
  intros Hn. unfold_store. cbn. by rewrite alter_app_l.
Qed.

Lemma sub_ele_run n name h ob :
  n < length h →
  sub_ele n name (State h ob) =
    (State (alter (add_child (length h)) n h ++ [leaf (qualify name)]) ob,
     Ok (length h)).
Proof. apply sub_ele_ns_run. Qed.

Lemma marker_run n name ns h ob :
  n < length h →
  (_ <- sub_ele_ns n name ns ;; ret tt) (State h ob) =
    (State (alter (add_child (length h)) n h ++ [leaf (qualify_ns name ns)]) ob,
     Ok tt).
Proof. intros Hn. by erewrite bind_Ok by by apply sub_ele_ns_run. Qed.

Lemma text_child_run n name ns s h ob :
  n < length h →
  (e <- sub_ele_ns n name ns ;; set_text e s) (State h ob) =
    (State (alter (add_child (length h)) n h
              ++ [ENode (qualify_ns name ns) (Some s) []]) ob,
     Ok tt).
Proof.
  intros Hn. erewrite bind_Ok by by apply sub_ele_ns_run.
  unfold_store. cbn. by rewrite alter_off_len by apply length_alter.
Qed.

Lemma nested_child_run n name sub ns h ob :
  n < length h →
  (r <- sub_ele_ns n name ns ;; _ <- sub_ele_ns r sub ns ;; ret tt) (State h ob) =
    (State (alter (add_child (length h)) n h
              ++ [ENode (qualify_ns name ns) None [length h + 1];
                  leaf (qualify_ns sub ns)]) ob,
     Ok tt).
Proof.
  intros Hn. erewrite bind_Ok by by apply sub_ele_ns_run.
  unfold_store. cbn.
  rewrite length_app, length_alter, <- app_assoc. cbn.
  by rewrite alter_off_len by apply length_alter.
Qed.

(** ** What each encoder does to its node *)

Ltac in_list :=
  repeat first [apply list_elem_of_here | apply list_elem_of_further].

Ltac ext_new_child :=
  apply ext_extend; [done|];
  unfold named; cbn [tag leaf];
  first [rewrite local_name_qualify_ns by done
        |rewrite local_name_qualify by done];
  in_list.

Lemma add_with_inactive_spec ns n w σ :
  n < length (heap σ) →
  ∃ σ', add_with_inactive ns n w σ = (σ', Ok tt) ∧ ext n (named ["with-inactive"]) σ σ'.
Proof.
  destruct σ as [h ob]. cbn [heap]. intros Hn. unfold add_with_inactive.
  destruct (arg_default true w); cbn [when].
  - eexists. split; [by apply marker_run|]. ext_new_child.
  - eexists. split; [done|]. apply ext_refl.
Qed.

Lemma add_with_transaction_id_spec ns n w σ :
  n < length (heap σ) →
  ∃ σ', add_with_transaction_id ns n w σ = (σ', Ok tt) ∧
        ext n (named ["with-transaction-id"]) σ σ'.
Proof.
  destruct σ as [h ob]. cbn [heap]. intros Hn. unfold add_with_transaction_id.
  destruct (truthy_bool _); cbn [when].
  - eexists. split; [by apply marker_run|]. ext_new_child.
  - eexists. split; [done|]. apply ext_refl.
Qed.

Lemma text_child_when_spec ns name names n (b : bool) s σ :
  n < length (heap σ) → has_brace name = false → name ∈ names →
  ∃ σ', when b (e <- sub_ele_ns n name ns ;; set_text e s) σ = (σ', Ok tt) ∧
        ext n (named names) σ σ'.
Proof.
  destruct σ as [h ob]. cbn [heap]. intros Hn Hb Hin. destruct b; cbn [when].
  - eexists. split; [by apply text_child_run|].
    apply ext_extend; [done|]. unfold named. cbn [tag].
    by rewrite local_name_qualify_ns.
  - eexists. split; [done|]. apply ext_refl.
Qed.

Lemma ext_length n P σ σ' :
  ext n P σ σ' → n < length (heap σ) → n < length (heap σ').
Proof. intros (_ & Hl & _). lia. Qed.

Lemma add_rollback_meta_data_spec ns n l c σ :
  n < length (heap σ) →
  ∃ σ', add_rollback_meta_data ns n l c σ = (σ', Ok tt) ∧
        ext n (named ["label"; "comment"]) σ σ'.
Proof.
  intros Hn. unfold add_rollback_meta_data.
  assert (∃ σ1, match l with
                | Some s => when (truthy_str l)
                              (e <- sub_ele_ns n "label" ns ;; set_text e s)
                | None => ret tt
                end σ = (σ1, Ok tt) ∧ ext n (named ["label"; "comment"]) σ σ1)
    as (σ1 & E1 & X1).
  { destruct l as [s|].
    - apply text_child_when_spec; [done|done|in_list].
    - eexists. split; [done|]. apply ext_refl. }
  rewrite (bind_Ok _ _ _ _ _ E1).
  assert (∃ σ2, match c with
                | Some s => when (truthy_str c)
                              (e <- sub_ele_ns n "comment" ns ;; set_text e s)
                | None => ret tt
                end σ1 = (σ2, Ok tt) ∧ ext n (named ["label"; "comment"]) σ1 σ2)
    as (σ2 & E2 & X2).
  { destruct c as [s|].
    - apply text_child_when_spec; [by eapply ext_length|done|in_list].
    - eexists. split; [done|]. apply ext_refl. }
  exists σ2. split; [done|]. by eapply ext_trans.
Qed.

Lemma add_service_commit_params_spec ns n nd r σ :
  n < length (heap σ) →
  ∃ σ', add_service_commit_params ns n nd r σ = (σ', reconcile_outcome r) ∧
        ext n (named ["no-deploy"; "reconcile"]) σ σ'.
Proof.
  intros Hn. unfold add_service_commit_params.
  assert (∃ σ1, when (arg_default false nd)
                  (_ <- sub_ele_ns n "no-deploy" ns ;; ret tt) σ = (σ1, Ok tt) ∧
                ext n (named ["no-deploy"; "reconcile"]) σ σ1) as (σ1 & E1 & X1).
  { destruct σ as [h ob]. destruct (arg_default false nd); cbn [when].
    - eexists. split; [by apply marker_run|]. ext_new_child.
    - eexists. split; [done|]. apply ext_refl. }
  rewrite (bind_Ok _ _ _ _ _ E1).
  pose proof (ext_length _ _ _ _ X1 Hn) as Hn1.
  destruct r as [r|]; cbn [reconcile_outcome].
  - fold reconcile_values. destruct (decide (r ∈ reconcile_values)) as [Hr|Hr].
    + rewrite (bool_decide_true (r ∈ _)) by done.
      rewrite (bool_decide_false (r ∉ _)) by (by intros ?). cbn [when].
      rewrite bind_ret.
      destruct σ1 as [h1 ob1]. eexists. split; [by apply nested_child_run|].
      eapply ext_trans; [done|exact X1|]. ext_new_child.
    + rewrite (bool_decide_false (r ∈ _)) by done.
      rewrite (bool_decide_true (r ∉ _)) by done. cbn [when].
      exists σ1. split; [done|done].
  - by exists σ1.
Qed.

(** ** Element values in the store *)

Lemma xml_ind' (P : xml → Prop) :
  (∀ tg tx ks, Forall P ks → P (Element tg tx ks)) → ∀ t, P t.
Proof.
  intros H. fix IH 1. intros [tg tx ks]. apply H.
  induction ks as [|k ks IHks]; constructor; [apply IH|apply IHks].
Qed.

Lemma alloc_list_stored ks :
  Forall (λ t, ∀ b, ∃ news k, stored b news k t) ks →
  ∀ b, ∃ news ids, stored_list b news ids ks.
Proof.
  induction 1 as [|t ks Ht _ IH]; intros b.
  - exists [], []. split.
    + intros h ob _. cbn. by rewrite app_nil_r.
    + done.
  - destruct (Ht b) as (news1 & k1 & Hk1 & Hrun1 & Hread1).
    destruct (IH (b + length news1)) as (news2 & ids2 & Hrun2 & Hread2).
    exists (news1 ++ news2), (b + k1 :: ids2). split.
    + intros h ob Hb. cbn [for_each].
      erewrite bind_Ok by by apply Hrun1.
      erewrite bind_Ok by (apply Hrun2; rewrite length_app; lia).
      by rewrite app_assoc.
    + intros h fuel Hh Hfuel. cbn [foldr] in Hfuel. cbn [mapM].
      rewrite Hread1; [|intros j e Hj; apply Hh; by apply lookup_app_l_Some|lia].
      cbn. rewrite Hread2; [done| |lia].
      intros j e Hj. rewrite <- Nat.add_assoc. apply Hh.
      by rewrite lookup_app_r, Nat.add_comm, Nat.add_sub by lia.
Qed.

Lemma alloc_tree_stored t : ∀ b, ∃ news k, stored b news k t.
Proof.
  induction t as [tg tx ks IH] using xml_ind'. intros b.
  destruct (alloc_list_stored ks IH b) as (news & ids & Hrun & Hread).
  exists (news ++ [ENode tg tx ids]), (length news). split; [|split].
  - rewrite length_app. cbn. lia.
  - intros h ob Hb. cbn [alloc_tree].
    erewrite bind_Ok by by apply Hrun.
    unfold alloc. cbn. by rewrite length_app, Hb, app_assoc.
  - intros h fuel Hh Hfuel. cbn [depth] in Hfuel.
    destruct fuel as [|fuel]; [lia|]. cbn [to_tree].
    rewrite (Hh (length news) (ENode tg tx ids)) by apply list_lookup_middle, eq_refl.
    cbn [children tag text].
    rewrite Hread; [done| |lia].
    intros j e Hj. apply Hh. by apply lookup_app_l_Some.
Qed.

(** [alloc_tree] never raises, dispatches nothing, and only adds cells. *)
Lemma alloc_tree_run t σ :
  ∃ news k, stored (length (heap σ)) news k t ∧
    alloc_tree t σ = (State (heap σ ++ news) (outbox σ), Ok (length (heap σ) + k)).
Proof.
  destruct (alloc_tree_stored t (length (heap σ))) as (news & k & Hs).
  exists news, k. split; [done|]. destruct σ as [h ob]. by apply Hs.
Qed.

(** Appending an element value to a node: the new child reads back as the
    value, also after the node has gained further children. *)
Lemma append_tree_spec n t σ :
  n < length (heap σ) →
  ∃ σ' c, (c <- alloc_tree t ;; append n c) σ = (σ', Ok tt) ∧
    ext n any_tag σ σ' ∧
    children_of (heap σ') n = children_of (heap σ) n ++ [c] ∧
    (∀ σ'' fuel, ext n any_tag σ' σ'' → depth t ≤ fuel →
       to_tree fuel (heap σ'') c = Some t).
Proof.
  intros Hn. destruct (alloc_tree_run t σ) as (news & k & (Hk & _ & Hread) & Hrun).
  destruct σ as [h ob]. cbn [heap outbox] in *.
  exists (State (alter (add_child (length h + k)) n h ++ news) ob), (length h + k).
  assert (ext n any_tag (State h ob)
            (State (alter (add_child (length h + k)) n h ++ news) ob)) as X.
  { apply ext_append; [done|lia|done]. }
  split; [|split; [done|split]].
  - erewrite bind_Ok by exact Hrun. unfold append, update. cbn.
    by rewrite alter_app_l.
  - unfold children_of. cbn [heap].
    rewrite lookup_app_l by (rewrite length_alter; lia).
    rewrite list_lookup_alter_eq.
    destruct (h !! n) as [x|] eqn:Hx; [done|].
    apply lookup_ge_None in Hx. lia.
  - intros σ'' fuel (_ & _ & Hf & _) Hfuel. apply Hread; [|done].
    intros j e Hj. cbn [heap] in Hf. rewrite Hf.
    + rewrite lookup_app_r by (rewrite length_alter; lia).
      rewrite length_alter. by rewrite Nat.add_comm, Nat.add_sub.
    + rewrite length_app, length_alter. apply lookup_lt_Some in Hj. lia.
    + lia.
Qed.

(** ** What a builder may raise, and when it dispatches *)

Section Compositional.

Context {A B : Type}.
Implicit Types (m : M A) (f : A → M B) (P : exn → Prop).

Lemma keeps_outbox_bind m f :
  keeps_outbox m → (∀ a, keeps_outbox (f a)) → keeps_outbox (bind m f).
Proof.
  intros Hm Hf σ. unfold bind. specialize (Hm σ).
  destruct (m σ) as [σ1 [a|e]]; cbn in *; [|done].
  by rewrite Hf.
Qed.

Lemma no_dispatch_bind m f :
  keeps_outbox m → (∀ a, no_dispatch_on_raise (f a)) →
  no_dispatch_on_raise (bind m f).
Proof.
  intros Hm Hf σ σ' e. unfold bind. specialize (Hm σ).
  destruct (m σ) as [σ1 [a|e1]]; cbn in *.
  - intros H%Hf. congruence.
  - by intros [= <- _].
Qed.

Lemma raises_only_bind P m f :
  raises_only P m → (∀ a, raises_only P (f a)) → raises_only P (bind m f).
Proof.
  intros Hm Hf σ σ' e. unfold bind.
  destruct (m σ) as [σ1 [a|e1]] eqn:E.
  - apply Hf.
  - intros [= <- <-]. by eapply Hm.
Qed.

Lemma keeps_outbox_try (m h : M A) :
  keeps_outbox m → keeps_outbox h → keeps_outbox (try_except m h).
Proof.
  intros Hm Hh σ. unfold try_except. specialize (Hm σ).
  destruct (m σ) as [σ1 [a|e]]; cbn in *; [done|].
  by rewrite Hh.
Qed.

Lemma raises_only_try P (m h : M A) :
  raises_only P h → raises_only P (try_except m h).
Proof.
  intros Hh σ σ' e. unfold try_except.
  destruct (m σ) as [σ1 [a|e1]]; [done|]. apply Hh.
Qed.

End Compositional.

Lemma keeps_outbox_ret {A} (a : A) : keeps_outbox (ret a).
Proof. done. Qed.

Lemma keeps_outbox_raise {A} e : keeps_outbox (@raise A e).
Proof. done. Qed.

Lemma keeps_outbox_lift {A} (r : res A) : keeps_outbox (lift r).
Proof. done. Qed.

Lemma keeps_outbox_alloc e : keeps_outbox (alloc e).
Proof. done. Qed.

Lemma keeps_outbox_update f i : keeps_outbox (update f i).
Proof. done. Qed.

Lemma keeps_outbox_get_tag i : keeps_outbox (get_tag i).
Proof. done. Qed.

Lemma keeps_outbox_when b m : keeps_outbox m → keeps_outbox (when b m).
Proof. by destruct b. Qed.

Lemma keeps_outbox_alloc_tree t : keeps_outbox (alloc_tree t).
Proof.
  intros σ. destruct (alloc_tree_run t σ) as (news & k & _ & ->). done.
Qed.

Lemma raises_only_ret {A} P (a : A) : raises_only P (ret a).
Proof. by intros σ σ' e. Qed.

Lemma raises_only_raise {A} (P : exn → Prop) e : P e → raises_only P (@raise A e).
Proof. intros He σ σ' e'. by intros [= _ <-]. Qed.

Lemma raises_only_lift {A} (P : exn → Prop) (r : res A) :
  (∀ e, r = Raise e → P e) → raises_only P (lift r).
Proof. intros Hr σ σ' e. intros [= _ ->]. by apply Hr. Qed.

Lemma raises_only_alloc P e : raises_only P (alloc e).
Proof. by intros σ σ' e'. Qed.

Lemma raises_only_update P f i : raises_only P (update f i).
Proof. by intros σ σ' e'. Qed.

Lemma raises_only_get_tag P i : raises_only P (get_tag i).
Proof. by intros σ σ' e'. Qed.

Lemma raises_only_when P b m : raises_only P m → raises_only P (when b m).
Proof. destruct b; [done|]. intros _. apply raises_only_ret. Qed.

Lemma raises_only_alloc_tree P t : raises_only P (alloc_tree t).
Proof.
  intros σ σ' e. destruct (alloc_tree_run t σ) as (news & k & _ & ->). done.
Qed.

Lemma no_dispatch_keeps {A} (m : M A) : keeps_outbox m → no_dispatch_on_raise m.
Proof. intros Hm σ σ' e E. specialize (Hm σ). by rewrite E in Hm. Qed.

Create HintDb outbox.
Create HintDb raises.

Ltac solve_keeps :=
  repeat first
    [ progress intros
    | solve [auto with outbox]
    | apply keeps_outbox_bind
    | apply keeps_outbox_ret | apply keeps_outbox_raise | apply keeps_outbox_lift
    | apply keeps_outbox_alloc | apply keeps_outbox_update
    | apply keeps_outbox_get_tag | apply keeps_outbox_alloc_tree
    | apply keeps_outbox_when | apply keeps_outbox_try
    | match goal with
      | |- keeps_outbox (match ?x with _ => _ end) => destruct x
      end ].

Ltac raises_step :=
  first
    [ progress intros
    | solve [auto with raises]
    | apply raises_only_bind
    | apply raises_only_ret
    | apply raises_only_alloc | apply raises_only_update
    | apply raises_only_get_tag | apply raises_only_alloc_tree
    | apply raises_only_when | apply raises_only_try
    | apply raises_only_raise | apply raises_only_lift
    | match goal with
      | |- raises_only _ (match ?x with _ => _ end) => destruct x
      end ].

Ltac solve_raises := repeat raises_step.

Lemma keeps_outbox_sub_ele_ns n name ns : keeps_outbox (sub_ele_ns n name ns).
Proof. unfold sub_ele_ns, append. solve_keeps. Qed.

Lemma keeps_outbox_sub_ele n name : keeps_outbox (sub_ele n name).
Proof. apply keeps_outbox_sub_ele_ns. Qed.

Lemma raises_only_sub_ele_ns P n name ns : raises_only P (sub_ele_ns n name ns).
Proof. unfold sub_ele_ns, append. solve_raises. Qed.

Lemma raises_only_sub_ele P n name : raises_only P (sub_ele n name).
Proof. apply raises_only_sub_ele_ns. Qed.

#[local] Hint Resolve keeps_outbox_sub_ele_ns keeps_outbox_sub_ele : outbox.
#[local] Hint Resolve raises_only_sub_ele_ns raises_only_sub_ele : raises.

Ltac unfold_prims :=
  unfold new_ele_ns, new_ele, set_text_py, set_text_of, set_text, set_tag,
    append.

Lemma keeps_outbox_add_service_commit_params ns n nd r :
  keeps_outbox (add_service_commit_params ns n nd r).
Proof. unfold add_service_commit_params. cbv zeta. solve_keeps. Qed.

Lemma keeps_outbox_add_rollback_meta_data ns n l c :
  keeps_outbox (add_rollback_meta_data ns n l c).
Proof. unfold add_rollback_meta_data. unfold_prims. solve_keeps. Qed.

Lemma keeps_outbox_add_with_transaction_id ns n w :
  keeps_outbox (add_with_transaction_id ns n w).
Proof. unfold add_with_transaction_id. cbv zeta. solve_keeps. Qed.

Lemma keeps_outbox_add_with_inactive ns n w :
  keeps_outbox (add_with_inactive ns n w).
Proof. unfold add_with_inactive. cbv zeta. solve_keeps. Qed.

Lemma keeps_outbox_validated_element parse x tags :
  keeps_outbox (validated_element parse x tags).
Proof. unfold validated_element, to_ele. solve_keeps. Qed.

Lemma keeps_outbox_datastore_or_url_ele caps dsou wha loc :
  keeps_outbox (datastore_or_url_ele caps dsou wha loc).
Proof. unfold datastore_or_url_ele. solve_keeps. Qed.

#[local] Hint Resolve keeps_outbox_add_service_commit_params
  keeps_outbox_add_rollback_meta_data keeps_outbox_add_with_transaction_id
  keeps_outbox_add_with_inactive keeps_outbox_validated_element
  keeps_outbox_datastore_or_url_ele : outbox.

Lemma no_dispatch_request n : no_dispatch_on_raise (_request n).
Proof. by intros σ σ' e. Qed.

Ltac solve_no_dispatch :=
  cbv zeta; unfold_prims;
  repeat first
    [ progress intros
    | apply no_dispatch_request
    | apply no_dispatch_bind; [solve [solve_keeps]|] ].






Lemma no_dispatch_CopyConfig ncs wti nsi caps dsou parse source target nd r w wi :
  no_dispatch_on_raise
    (CopyConfig_request ncs wti nsi caps dsou parse source target nd r w wi).
Proof. unfold CopyConfig_request. solve_no_dispatch. Qed.


Lemma children_of_alter f n h l :
  n < length h →
  children_of (alter f n h ++ l) n = default [] (children ∘ f <$> h !! n).
Proof.
  intros Hn. unfold children_of.
  rewrite lookup_app_l by (rewrite length_alter; lia).
  rewrite list_lookup_alter_eq. by destruct (h !! n).
Qed.

(** ** Exceptions of the encoders *)

Lemma raises_only_add_service_commit_params (P : exn → Prop) ns n nd r :
  (∀ x, P (OperationError ("Wrong reconcile argument: " +:+ x))) →
  raises_only P (add_service_commit_params ns n nd r).
Proof.
  intros HP. unfold add_service_commit_params. cbv zeta. solve_raises.
Qed.

Lemma raises_only_add_rollback_meta_data P ns n l c :
  raises_only P (add_rollback_meta_data ns n l c).
Proof. unfold add_rollback_meta_data. unfold_prims. solve_raises. Qed.

Lemma raises_only_add_with_transaction_id P ns n w :
  raises_only P (add_with_transaction_id ns n w).
Proof. unfold add_with_transaction_id. cbv zeta. solve_raises. Qed.

Lemma raises_only_add_with_inactive P ns n w :
  raises_only P (add_with_inactive ns n w).
Proof. unfold add_with_inactive. cbv zeta. solve_raises. Qed.

Lemma raises_only_request P caps : raises_only P (_request caps).
Proof. by intros σ σ' e. Qed.

Lemma raises_only_validated_element (P : exn → Prop) parse x tags :
  P XMLSyntaxError → (∀ m, P (XMLError m)) →
  raises_only P (validated_element parse x tags).
Proof. intros H1 H2. unfold validated_element, to_ele. solve_raises. Qed.

#[local] Hint Resolve raises_only_add_rollback_meta_data
  raises_only_add_with_transaction_id raises_only_add_with_inactive
  raises_only_request : raises.

(** What is left are the exceptions themselves: each has to be in [P]. *)
Ltac builder_raises :=
  cbv zeta; unfold_prims;
  repeat first
    [ apply raises_only_add_service_commit_params
    | apply raises_only_validated_element
    | raises_step ].

Lemma assert_raises caps c e :
  _assert caps c = Raise e → e = MissingCapabilityError c ∧ c ∉ caps.
Proof. unfold _assert. case_bool_decide; [done|]. by intros [= <-]. Qed.

Lemma assert_Ok caps c : c ∈ caps → _assert caps c = Ok tt.
Proof. intros H. unfold _assert. by rewrite bool_decide_true. Qed.

Lemma assert_Raise caps c :
  c ∉ caps → _assert caps c = Raise (MissingCapabilityError c).
Proof. intros H. unfold _assert. by rewrite bool_decide_false. Qed.

Lemma new_ele_run name σ :
  new_ele name σ =
    (State (heap σ ++ [leaf (qualify name)]) (outbox σ), Ok (length (heap σ))).
Proof. reflexivity. Qed.

Lemma ext_child_tags n (P : string → Prop) σ σ' :
  ext n P σ σ' → children_of (heap σ) n = [] →
  Forall P (child_tags (heap σ') n).
Proof.
  intros (_ & _ & _ & _ & _ & kids & Hk & HF) H0. unfold child_tags.
  rewrite Hk, H0. cbn. apply Forall_fmap.
  eapply Forall_impl; [exact HF|]. by intros k [_ ?].
Qed.

(** ** The children [Commit] gives its node *)

Lemma lift_run {A} (r : res A) σ : lift r σ = (σ, r).
Proof. reflexivity. Qed.

Lemma text_child_opt_spec name names n (o : option string) σ :
  n < length (heap σ) → has_brace name = false → name ∈ names →
  ∃ σ', match o with
        | None => ret tt
        | Some s => e <- sub_ele n name ;; set_text e s
        end σ = (σ', Ok tt) ∧
        ext n (named names) σ σ'.
Proof.
  intros Hn Hb Hin. destruct o as [s|].
  - by apply (text_child_when_spec BASE_NS_1_0 name names n true s σ).
  - eexists. split; [done|]. apply ext_refl.
Qed.

Ltac sub_list :=
  let x := fresh "x" in
  let Hx := fresh "Hx" in
  unfold named; intros x Hx;
  repeat (apply elem_of_cons in Hx as [->|Hx]; [in_list|]);
  by apply elem_of_nil in Hx.

Lemma confirmed_block_spec caps n (confirmed : bool) timeout persist σ :
  n < length (heap σ) →
  ∃ σ1 r,
    when confirmed
      (lift (_assert caps ":confirmed-commit") ;;;
       _ <- sub_ele n "confirmed" ;;
       match timeout with
       | None => ret tt
       | Some timeout =>
           e <- sub_ele n "confirm-timeout" ;; set_text_of e timeout
       end ;;;
       match persist with
       | None => ret tt
       | Some persist => e <- sub_ele n "persist" ;; set_text e persist
       end) σ = (σ1, r) ∧
    ext n (named (confirmed_names confirmed)) σ σ1 ∧
    (r = Ok tt ∨ r = Raise (MissingCapabilityError ":confirmed-commit") ∨
     r = Raise TypeError).
Proof.
  intros Hn. destruct confirmed; cbn [when confirmed_names].
  - destruct (_assert caps ":confirmed-commit") as [[]|e] eqn:Ha.
    + rewrite (bind_Ok _ _ _ _ _ (lift_run (Ok tt) _)).
      destruct σ as [h ob]. cbn [heap] in Hn.
      erewrite bind_Ok by by apply sub_ele_run.
      set (σ1 := State _ ob).
      assert (ext n (named ["confirmed"; "confirm-timeout"; "persist"])
                (State h ob) σ1) as X1 by ext_new_child.
      pose proof (ext_length _ _ _ _ X1 Hn) as Hn1.
      destruct timeout as [[t|z]|].
      * destruct (text_child_opt_spec "confirm-timeout"
                    ["confirmed"; "confirm-timeout"; "persist"] n (Some t) σ1)
          as (σ2 & E2 & X2); [done|done|in_list|].
        cbn [set_text_of]. rewrite (bind_Ok _ _ _ _ _ E2).
        pose proof (ext_length _ _ _ _ X2 Hn1) as Hn2.
        destruct (text_child_opt_spec "persist"
                    ["confirmed"; "confirm-timeout"; "persist"] n persist σ2)
          as (σ3 & E3 & X3); [done|done|in_list|].
        exists σ3, (Ok tt). split; [done|]. split; [|by left].
        eapply ext_trans; [done|exact X1|]. by eapply ext_trans.
      * unfold σ1 in *. cbn [set_text_of].
        erewrite bind_Raise;
          [|by erewrite bind_Ok by (apply sub_ele_run; exact Hn1)].
        eexists _, _. split; [done|]. split; [|by right; right].
        eapply ext_trans; [done|exact X1|]. ext_new_child.
      * rewrite bind_ret.
        destruct (text_child_opt_spec "persist"
                    ["confirmed"; "confirm-timeout"; "persist"] n persist σ1)
          as (σ3 & E3 & X3); [done|done|in_list|].
        exists σ3, (Ok tt). split; [done|]. split; [|by left].
        by eapply ext_trans.
    + rewrite (bind_Raise _ _ _ _ _ (lift_run (Raise e) _)).
      apply assert_raises in Ha as [-> _].
      exists σ, (Raise (MissingCapabilityError ":confirmed-commit")).
      split; [done|]. split; [apply ext_refl|by right; left].
  - exists σ, (Ok tt). split; [done|]. split; [apply ext_refl|by left].
Qed.

Lemma persist_id_step_spec n persist_id σ :
  n < length (heap σ) →
  ∃ σ', match persist_id with
        | Some p =>
            when (truthy_str persist_id)
              (e <- sub_ele n "persist-id" ;; set_text e p)
        | None => ret tt
        end σ = (σ', Ok tt) ∧
        ext n (named (persist_id_names persist_id)) σ σ'.
Proof.
  intros Hn. unfold persist_id_names. destruct persist_id as [p|].
  - destruct (truthy_str (Some p)); cbn [when].
    + by apply (text_child_when_spec BASE_NS_1_0 "persist-id" _ n true p σ);
        [| |in_list].
    + eexists. split; [done|]. apply ext_refl.
  - eexists. split; [done|]. apply ext_refl.
Qed.

Lemma Commit_children
    ncs nsr wti caps confirmed timeout persist persist_id nd r l c w σ σ' node :
  Commit_request ncs nsr wti caps confirmed timeout persist persist_id
    nd r l c w σ = (σ', Ok node) →
  node = length (heap σ) ∧
  (arg_default false confirmed || truthy_str persist) && truthy_str persist_id
    = false ∧
  outbox σ' = outbox σ ++ [node] ∧
  Forall (named (commit_names (arg_default false confirmed) persist_id))
    (child_tags (heap σ') node).
Proof.
  intros H. unfold Commit_request in H. cbv zeta in H.
  rewrite (bind_Ok _ _ _ _ _ (new_ele_run _ _)) in H.
  set (n := length (heap σ)) in *.
  set (σ0 := State (heap σ ++ [leaf (qualify "commit")]) (outbox σ)) in *.
  assert (n < length (heap σ0)) as Hn0
    by (unfold σ0, n; cbn; rewrite length_app; cbn; lia).
  assert (children_of (heap σ0) n = []) as Hc0.
  { unfold σ0, n, children_of. cbn [heap]. by rewrite lookup_off0. }
  set (P := named (commit_names (arg_default false confirmed) persist_id)).
  destruct ((arg_default false confirmed || truthy_str persist)
            && truthy_str persist_id) eqn:Hcond; cbn [when] in H.
  { by rewrite bind_raise in H. }
  rewrite bind_ret in H.
  destruct (confirmed_block_spec caps n (arg_default false confirmed)
              timeout persist σ0 Hn0) as (σ1 & r1 & E1 & X1 & Hr1).
  destruct Hr1 as [-> | [-> | ->]];
    [rewrite (bind_Ok _ _ _ _ _ E1) in H
    |by rewrite (bind_Raise _ _ _ _ _ E1) in H
    |by rewrite (bind_Raise _ _ _ _ _ E1) in H].
  assert (ext n P σ0 σ1) as Y1.
  { eapply ext_mono; [|exact X1]. unfold P, commit_names, confirmed_names.
    destruct (arg_default false confirmed); sub_list. }
  pose proof (ext_length _ _ _ _ Y1 Hn0) as Hn1.
  destruct (persist_id_step_spec n persist_id σ1 Hn1) as (σ2 & E2 & X2).
  rewrite (bind_Ok _ _ _ _ _ E2) in H.
  assert (ext n P σ1 σ2) as Y2.
  { eapply ext_mono; [|exact X2].
    unfold P, commit_names, confirmed_names, persist_id_names.
    destruct (arg_default false confirmed), (truthy_str persist_id); sub_list. }
  pose proof (ext_length _ _ _ _ Y2 Hn1) as Hn2.
  destruct (add_service_commit_params_spec ncs n (Given (arg_default false nd))
              r σ2 Hn2) as (σ3 & E3 & X3).
  destruct (reconcile_outcome r) as [[]|e3];
    [rewrite (bind_Ok _ _ _ _ _ E3) in H
    |by rewrite (bind_Raise _ _ _ _ _ E3) in H].
  assert (ext n P σ2 σ3) as Y3.
  { eapply ext_mono; [|exact X3].
    unfold P, commit_names, confirmed_names, persist_id_names.
    destruct (arg_default false confirmed), (truthy_str persist_id); sub_list. }
  pose proof (ext_length _ _ _ _ Y3 Hn2) as Hn3.
  destruct (add_rollback_meta_data_spec nsr n l c σ3 Hn3) as (σ4 & E4 & X4).
  rewrite (bind_Ok _ _ _ _ _ E4) in H.
  assert (ext n P σ3 σ4) as Y4.
  { eapply ext_mono; [|exact X4].
    unfold P, commit_names, confirmed_names, persist_id_names.
    destruct (arg_default false confirmed), (truthy_str persist_id); sub_list. }
  pose proof (ext_length _ _ _ _ Y4 Hn3) as Hn4.
  destruct (add_with_transaction_id_spec wti n
              (Given (arg_default (Some false) w)) σ4 Hn4) as (σ5 & E5 & X5).
  rewrite (bind_Ok _ _ _ _ _ E5) in H.
  assert (ext n P σ4 σ5) as Y5.
  { eapply ext_mono; [|exact X5].
    unfold P, commit_names, confirmed_names, persist_id_names.
    destruct (arg_default false confirmed), (truthy_str persist_id); sub_list. }
  unfold _request in H. injection H as <- <-. cbn [heap outbox].
  assert (ext n P σ0 σ5) as Y.
  { eapply ext_trans; [done|exact Y1|].
    eapply ext_trans; [done|exact Y2|].
    eapply ext_trans; [done|exact Y3|].
    eapply ext_trans; [done|exact Y4|exact Y5]. }
  split; [done|]. split; [done|]. split.
  - destruct Y as (-> & _). done.
  - by eapply ext_child_tags.
Qed.

Lemma named_qualify names a :
  has_brace a = false → named names (qualify a) → a ∈ names.
Proof. intros Ha. unfold named. by rewrite local_name_qualify. Qed.

Ltac not_in_list H :=
  repeat (apply elem_of_cons in H as [H|H]; [discriminate|]);
  by apply elem_of_nil in H.

(** ** The steps of [EditConfig] and [CopyConfig] *)

Lemma ext_any n P σ σ' : ext n P σ σ' → ext n any_tag σ σ'.
Proof. by apply ext_mono. Qed.

Lemma ext_lookup n P σ σ' i :
  ext n P σ σ' → i < length (heap σ) → i ≠ n → heap σ' !! i = heap σ !! i.
Proof. intros (_ & _ & Hf & _). apply Hf. Qed.

(** The step [node.append(util.datastore_or_url(wha, loc, self._assert))]
    when the name is understood, followed by whatever comes next. *)
Lemma datastore_step caps dsou wha loc tr n σ :
  dsou wha loc (_assert caps) = Ok tr →
  n < length (heap σ) →
  ∃ σ1 c,
    (∀ B (k : M B),
       (t <- datastore_or_url_ele caps dsou wha loc ;; append n t ;;; k) σ = k σ1) ∧
    ext n any_tag σ σ1 ∧
    children_of (heap σ1) n = children_of (heap σ) n ++ [c] ∧
    (∀ σ'' fuel, ext n any_tag σ1 σ'' → depth tr ≤ fuel →
       to_tree fuel (heap σ'') c = Some tr).
Proof.
  intros Hds Hn.
  destruct (append_tree_spec n tr σ Hn) as (σ1 & c & E & X & Hc & Hread).
  exists σ1, c. split; [|done].
  intros B k. unfold datastore_or_url_ele. rewrite Hds.
  unfold bind, lift in *.
  destruct (alloc_tree tr σ) as [σa [a|e]]; [|done].
  by rewrite E.
Qed.

Lemma default_operation_block_spec n dop σ :
  n < length (heap σ) →
  ∃ σ', match dop with
        | None => ret tt
        | Some d => e <- sub_ele n "default-operation" ;; set_text e d
        end σ = (σ', Ok tt) ∧
        ext n any_tag σ σ'.
Proof.
  intros Hn.
  destruct (text_child_opt_spec "default-operation" ["default-operation"]
              n dop σ) as (σ' & E & X); [done|done|in_list|].
  exists σ'. split; [done|]. by eapply ext_any.
Qed.

Lemma test_option_block_spec caps n top σ :
  n < length (heap σ) → (top ≠ None → ":validate" ∈ caps) →
  ∃ σ', match top with
        | None => ret tt
        | Some t =>
            lift (_assert caps ":validate") ;;;
            e <- sub_ele n "test-option" ;;
            set_text e t
        end σ = (σ', Ok tt) ∧
        ext n any_tag σ σ'.
Proof.
  intros Hn Hcap. destruct top as [t|].
  - rewrite assert_Ok by by apply Hcap.
    rewrite (bind_Ok _ _ _ _ _ (lift_run (Ok tt) _)).
    destruct (text_child_opt_spec "test-option" ["test-option"] n (Some t) σ)
      as (σ' & E & X); [done|done|in_list|].
    exists σ'. split; [done|]. by eapply ext_any.
  - exists σ. split; [done|]. apply ext_refl.
Qed.

Lemma error_option_block_spec caps n eop σ :
  n < length (heap σ) →
  (eop = Some "rollback-on-error" → ":rollback-on-error" ∈ caps) →
  ∃ σ', match eop with
        | None => ret tt
        | Some x =>
            when (bool_decide (x = "rollback-on-error"))
              (lift (_assert caps ":rollback-on-error")) ;;;
            e <- sub_ele n "error-option" ;;
            set_text e x
        end σ = (σ', Ok tt) ∧
        ext n any_tag σ σ'.
Proof.
  intros Hn Hcap. destruct eop as [x|].
  - assert (when (bool_decide (x = "rollback-on-error"))
              (lift (_assert caps ":rollback-on-error")) σ = (σ, Ok tt)) as E0.
    { case_bool_decide as Hx; [|done]. subst x. cbn [when].
      by rewrite assert_Ok by by apply Hcap. }
    rewrite (bind_Ok _ _ _ _ _ E0).
    destruct (text_child_opt_spec "error-option" ["error-option"] n (Some x) σ)
      as (σ' & E & X); [done|done|in_list|].
    exists σ'. split; [done|]. by eapply ext_any.
  - exists σ. split; [done|]. apply ext_refl.
Qed.

Lemma reconcile_outcome_ok r : reconcile_ok r → reconcile_outcome r = Ok tt.
Proof.
  destruct r as [r|]; [|done]. cbn. intros Hr.
  by rewrite bool_decide_true.
Qed.

(** [EditConfig] up to the payload: when the target is understood, the
    capabilities are there and the reconcile value is in the set, the builder
    arrives at the attachment of the payload with its node valid and no old
    cell changed. *)
Lemma EditConfig_prefix
    ncs nsr wti nsi caps dsou parse config format target dop top eop
    nd r l c w wi tr σ :
  dsou "target" (PStr (arg_default "candidate" target)) (_assert caps) = Ok tr →
  (top ≠ None → ":validate" ∈ caps) →
  (eop = Some "rollback-on-error" → ":rollback-on-error" ∈ caps) →
  reconcile_ok r →
  let node := length (heap σ) in
  ∃ σk,
    ext node any_tag
      (State (heap σ ++ [leaf (qualify "edit-config")]) (outbox σ)) σk ∧
    EditConfig_request ncs nsr wti nsi caps dsou parse config format target
      dop top eop nd r l c w wi σ =
    (when (bool_decide (arg_default "xml" format = "xml"))
       (config_node <- validated_element parse config ["config"; qualify "config"] ;;
        set_tag config_node
          ("{urn:ietf:params:xml:ns:netconf:base:1.0}" +:+ "config") ;;;
        append node config_node) ;;;
     when (bool_decide (arg_default "xml" format = "text"))
       (config_text <- sub_ele node "config-text" ;;
        e <- sub_ele config_text "configuration-text" ;;
        set_text_py e config) ;;;
     _request node) σk.
Proof.
  intros Hds Htop Heop Hr node.
  unfold EditConfig_request. cbv zeta.
  rewrite (bind_Ok _ _ _ _ _ (new_ele_run _ _)). fold node.
  set (σ0 := State (heap σ ++ [leaf (qualify "edit-config")]) (outbox σ)).
  assert (node < length (heap σ0)) as Hn0
    by (unfold σ0, node; cbn; rewrite length_app; cbn; lia).
  destruct (datastore_step caps dsou _ _ tr node σ0 Hds Hn0)
    as (σ1 & ct & E1 & X1 & _).
  rewrite E1. pose proof (ext_length _ _ _ _ X1 Hn0) as Hn1.
  destruct (default_operation_block_spec node dop σ1 Hn1) as (σ2 & E2 & X2).
  rewrite (bind_Ok _ _ _ _ _ E2). pose proof (ext_length _ _ _ _ X2 Hn1) as Hn2.
  destruct (test_option_block_spec caps node top σ2 Hn2 Htop) as (σ3 & E3 & X3).
  rewrite (bind_Ok _ _ _ _ _ E3). pose proof (ext_length _ _ _ _ X3 Hn2) as Hn3.
  destruct (error_option_block_spec caps node eop σ3 Hn3 Heop) as (σ4 & E4 & X4).
  rewrite (bind_Ok _ _ _ _ _ E4). pose proof (ext_length _ _ _ _ X4 Hn3) as Hn4.
  destruct (add_service_commit_params_spec ncs node
              (Given (arg_default false nd)) r σ4 Hn4) as (σ5 & E5 & X5%ext_any).
  rewrite reconcile_outcome_ok in E5 by done.
  rewrite (bind_Ok _ _ _ _ _ E5). pose proof (ext_length _ _ _ _ X5 Hn4) as Hn5.
  destruct (add_rollback_meta_data_spec nsr node l c σ5 Hn5)
    as (σ6 & E6 & X6%ext_any).
  rewrite (bind_Ok _ _ _ _ _ E6). pose proof (ext_length _ _ _ _ X6 Hn5) as Hn6.
  destruct (add_with_transaction_id_spec wti node
              (Given (arg_default (Some false) w)) σ6 Hn6)
    as (σ7 & E7 & X7%ext_any).
  rewrite (bind_Ok _ _ _ _ _ E7). pose proof (ext_length _ _ _ _ X7 Hn6) as Hn7.
  destruct (add_with_inactive_spec nsi node (Given (arg_default false wi)) σ7 Hn7)
    as (σ8 & E8 & X8%ext_any).
  rewrite (bind_Ok _ _ _ _ _ E8).
  exists σ8. split; [|done].
  eapply ext_trans; [done|exact X1|].
  eapply ext_trans; [done|exact X2|].
  eapply ext_trans; [done|exact X3|].
  eapply ext_trans; [done|exact X4|].
  eapply ext_trans; [done|exact X5|].
  eapply ext_trans; [done|exact X6|].
  eapply ext_trans; [done|exact X7|exact X8].
Qed.

Lemma alloc_tree_layout tg tx ks σ :
  ∃ kidnews ids,
    stored_list (length (heap σ)) kidnews ids ks ∧
    alloc_tree (Element tg tx ks) σ =
      (State (heap σ ++ kidnews ++ [ENode tg tx ids]) (outbox σ),
       Ok (length (heap σ) + length kidnews)).
Proof.
  assert (Forall (λ t, ∀ b, ∃ news k, stored b news k t) ks) as HF.
  { apply Forall_forall. intros t _. apply alloc_tree_stored. }
  destruct (alloc_list_stored ks HF (length (heap σ)))
    as (kidnews & ids & Hs).
  exists kidnews, ids. split; [done|].
  destruct σ as [h ob]. cbn [alloc_tree heap outbox].
  erewrite bind_Ok by by apply Hs.
  unfold alloc. cbn. by rewrite length_app, <- app_assoc.
Qed.

Lemma alter_off_add {A} (f : A → A) (h h' l : list A) k :
  length h' = length h → alter f (length h + k) (h' ++ l) = h' ++ alter f k l.
Proof. intros <-. apply alter_app_r. Qed.

Lemma config_text_run n s h ob :
  n < length h →
  (config_text <- sub_ele n "config-text" ;;
   e <- sub_ele config_text "configuration-text" ;;
   set_text_py e (PStr s)) (State h ob) =
    (State (alter (add_child (length h)) n h
              ++ [ENode (qualify "config-text") None [length h + 1];
                  ENode (qualify "configuration-text") (Some s) []]) ob,
     Ok tt).
Proof.
  intros Hn. erewrite bind_Ok by by apply sub_ele_run.
  unfold set_text_py. unfold_store. cbn.
  rewrite length_app, length_alter, <- app_assoc. cbn.
  rewrite alter_off_len by apply length_alter. cbn.
  by rewrite alter_off_add by apply length_alter.
Qed.

Lemma last_snoc_children f n h l c :
  n < length h → (∀ e, children (f e) = children e ++ [c]) →
  last (children_of (alter f n h ++ l) n) = Some c.
Proof.
  intros Hn Hf. rewrite children_of_alter by done.
  destruct (h !! n) as [e|] eqn:He.
  - cbn. by rewrite Hf, last_snoc.
  - apply lookup_ge_None in He. lia.
Qed.

(** Every exception of [EditConfig], given that the target is understood. *)
Lemma EditConfig_raises_only (P : exn → Prop)
    ncs nsr wti nsi caps dsou parse config format target dop top eop
    nd r l c w wi tr :
  dsou "target" (PStr (arg_default "candidate" target)) (_assert caps) = Ok tr →
  (top ≠ None → ":validate" ∉ caps → P (MissingCapabilityError ":validate")) →
  (eop = Some "rollback-on-error" → ":rollback-on-error" ∉ caps →
     P (MissingCapabilityError ":rollback-on-error")) →
  (∀ x, P (OperationError ("Wrong reconcile argument: " +:+ x))) →
  P XMLSyntaxError → (∀ m, P (XMLError m)) → P TypeError →
  raises_only P
    (EditConfig_request ncs nsr wti nsi caps dsou parse config format target
       dop top eop nd r l c w wi).
Proof.
  intros Hds Htop Heop Hrec Hsyn Hxml Hty.
  unfold EditConfig_request, datastore_or_url_ele. cbv zeta. rewrite Hds.
  destruct eop as [x|];
    [destruct (decide (x = "rollback-on-error")) as [->|Hx];
       [rewrite (bool_decide_true (_ = "rollback-on-error")) by done
       |rewrite (bool_decide_false (x = "rollback-on-error")) by done];
       cbn [when]|];
    builder_raises;
    try match goal with
        | H : _assert _ _ = Raise _ |- _ =>
            apply assert_raises in H as [-> ?]; auto
        | H : Ok _ = Raise _ |- _ => discriminate H
        end.
Qed.

(** ** The source of [CopyConfig] *)

Lemma try_Ok {A} (m h : M A) σ σ1 a :
  m σ = (σ1, Ok a) → try_except m h σ = (σ1, Ok a).
Proof. unfold try_except. by intros ->. Qed.

Lemma try_Raise {A} (m h : M A) σ σ1 e :
  m σ = (σ1, Raise e) → try_except m h σ = h σ1.
Proof. unfold try_except. by intros ->. Qed.

Lemma datastore_append_Ok caps dsou wha loc tr n σ :
  dsou wha loc (_assert caps) = Ok tr →
  (t <- datastore_or_url_ele caps dsou wha loc ;; append n t) σ =
  (c <- alloc_tree tr ;; append n c) σ.
Proof. intros Hds. unfold datastore_or_url_ele. by rewrite Hds. Qed.

Lemma datastore_append_Raise caps dsou wha loc e n σ :
  dsou wha loc (_assert caps) = Raise e →
  (t <- datastore_or_url_ele caps dsou wha loc ;; append n t) σ = (σ, Raise e).
Proof. intros Hds. unfold datastore_or_url_ele. by rewrite Hds. Qed.

Lemma validated_string_run parse str tg tx ks tags σ :
  parse str = Some (Element tg tx ks) →
  validated_element parse (PStr str) tags σ =
    if bool_decide (tg ∈ tags) then alloc_tree (Element tg tx ks) σ
    else ((alloc_tree (Element tg tx ks) σ).1, Raise (not_rooted tg)).
Proof.
  intros Hparse. unfold validated_element, to_ele. rewrite Hparse.
  destruct (alloc_tree_layout tg tx ks σ) as (kidnews & ids & _ & Ea).
  rewrite (bind_Ok _ _ _ _ _ Ea), Ea. unfold bind, get_tag. cbn [heap fst].
  rewrite lookup_off, list_lookup_middle by done. cbn.
  by case_bool_decide.
Qed.

Lemma validated_element_run parse ele tags σ :
  validated_element parse (PEle ele) tags σ =
    (σ, if bool_decide (tag_of (heap σ) ele ∈ tags) then Ok ele
        else Raise (not_rooted (tag_of (heap σ) ele))).
Proof.
  unfold validated_element, to_ele. rewrite bind_ret.
  unfold bind, get_tag. fold (tag_of (heap σ) ele). by case_bool_decide.
Qed.

Lemma validated_syntax_run parse str tags σ :
  parse str = None →
  validated_element parse (PStr str) tags σ = (σ, Raise XMLSyntaxError).
Proof. intros Hparse. unfold validated_element, to_ele. by rewrite Hparse. Qed.

(** The encoders and the dispatch that end [CopyConfig]. *)
Lemma CopyConfig_suffix ncs wti nsi node nd r w wi σ :
  node < length (heap σ) → reconcile_ok r →
  ∃ σe,
    ext node any_tag σ σe ∧
    (add_service_commit_params ncs node nd r ;;;
     add_with_transaction_id wti node w ;;;
     add_with_inactive nsi node wi ;;;
     _request node) σ =
    (State (heap σe) (outbox σe ++ [node]), Ok node).
Proof.
  intros Hn Hr.
  destruct (add_service_commit_params_spec ncs node nd r σ Hn)
    as (σ1 & E1 & X1%ext_any).
  rewrite reconcile_outcome_ok in E1 by done.
  rewrite (bind_Ok _ _ _ _ _ E1). pose proof (ext_length _ _ _ _ X1 Hn) as Hn1.
  destruct (add_with_transaction_id_spec wti node w σ1 Hn1)
    as (σ2 & E2 & X2%ext_any).
  rewrite (bind_Ok _ _ _ _ _ E2). pose proof (ext_length _ _ _ _ X2 Hn1) as Hn2.
  destruct (add_with_inactive_spec nsi node wi σ2 Hn2) as (σ3 & E3 & X3%ext_any).
  rewrite (bind_Ok _ _ _ _ _ E3).
  exists σ3. split; [|done].
  eapply ext_trans; [done|exact X1|]. by eapply ext_trans.
Qed.

Lemma ext_children n P σ σ' :
  ext n P σ σ' →
  ∃ kids, children_of (heap σ') n = children_of (heap σ) n ++ kids.
Proof. intros (_ & _ & _ & _ & _ & kids & Hk & _). by exists kids. Qed.

(** ** Calls that cannot return *)

























(** * The claims *)




(** C2: [StartTransaction] with [with_inactive] left out builds the
    with-inactive marker, and with [with_inactive=False] it does not.
    [EditConfig] and [CopyConfig] declare the default [False]: leaving
    [with_inactive] out is the same call as passing [False], and the request
    they build then has no marker. *)
Theorem with_inactive_defaults ns nsi target σ :
  (∃ σ',
     StartTransaction_request ns nsi (Given target) Omitted σ =
       (σ', Ok (length (heap σ))) ∧
     to_tree 3 (heap σ') (length (heap σ)) =
       Some (Element (qualify_ns "start-transaction" ns) None
               [Element (qualify_ns "target" ns) None
                  [Element (qualify_ns target ns) None []];
                Element (qualify_ns "with-inactive" nsi) None []])) ∧
  (∃ σ',
     StartTransaction_request ns nsi (Given target) (Given false) σ =
       (σ', Ok (length (heap σ))) ∧
     to_tree 3 (heap σ') (length (heap σ)) =
       Some (Element (qualify_ns "start-transaction" ns) None
               [Element (qualify_ns "target" ns) None
                  [Element (qualify_ns target ns) None []]])) ∧
  (∀ ncs nsr wti caps dsou parse config format tgt dop top eop nd r l c w,
     EditConfig_request ncs nsr wti nsi caps dsou parse config format tgt
       dop top eop nd r l c w Omitted =
     EditConfig_request ncs nsr wti nsi caps dsou parse config format tgt
       dop top eop nd r l c w (Given false)) ∧
  (∀ ncs wti caps dsou parse source tgt nd r w,
     CopyConfig_request ncs wti nsi caps dsou parse source tgt nd r w Omitted =
     CopyConfig_request ncs wti nsi caps dsou parse source tgt nd r w
       (Given false)) ∧
  (∃ σ',
     EditConfig_request "ncs" "rollback" "wti" nsi []
       example_datastore_or_url example_parse_xml
       (PStr "<config><system/></config>") Omitted Omitted None None None
       Omitted None None None Omitted Omitted (State [] []) = (σ', Ok 0) ∧
     to_tree 3 (heap σ') 0 =
       Some (Element (qualify "edit-config") None
               [Element (qualify "target") None
                  [Element (qualify "candidate") None []];
                Element (qualify "config") None [Element "system" None []]])) ∧
  (∃ σ',
     CopyConfig_request "ncs" "wti" nsi [] example_datastore_or_url
       example_parse_xml (PStr "running") "candidate" Omitted None Omitted
       Omitted (State [] []) = (σ', Ok 0) ∧
     to_tree 3 (heap σ') 0 =
       Some (Element (qualify "copy-config") None
               [Element (qualify "target") None
                  [Element (qualify "candidate") None []];
                Element (qualify "source") None
                  [Element (qualify "running") None []]])).
Proof.
  destruct σ as [h ob]. repeat split.
  - unfold StartTransaction_request, add_with_inactive, _request.
    unfold_store. heap_norm.
    eexists. split; [reflexivity|]. by heap_norm.
  - unfold StartTransaction_request, add_with_inactive, _request.
    unfold_store. heap_norm.
    eexists. split; [reflexivity|]. by heap_norm.
  - eexists. split; vm_compute; reflexivity.
  - eexists. split; vm_compute; reflexivity.
Qed.

(** C3: [Commit] raises the persist-id [OperationError] (InvalidArgument)
    exactly when [persist_id] is present together with [confirmed] true or a
    present [persist]; it then has built and dispatched nothing; and no
    request it dispatches holds a persist-id element next to a confirmed or a
    persist element.  (Present: neither [None] nor empty.) *)
Theorem Commit_persist_id_conflict
    ncs nsr wti caps confirmed timeout persist persist_id nd r l c w σ :
  let conflict :=
    (arg_default false confirmed || truthy_str persist) && truthy_str persist_id in
  let err := OperationError
    "Invalid operation as confirmed or persist cannot be present with persist-id" in
  let run := Commit_request ncs nsr wti caps confirmed timeout persist persist_id
               nd r l c w σ in
  ((∃ σ', run = (σ', Raise err)) ↔ conflict = true) ∧
  (conflict = true →
     run = (State (heap σ ++ [leaf (qualify "commit")]) (outbox σ), Raise err)) ∧
  (∀ σ' node, run = (σ', Ok node) →
     conflict = false ∧
     ¬ (qualify "persist-id" ∈ child_tags (heap σ') node ∧
        (qualify "confirmed" ∈ child_tags (heap σ') node ∨
         qualify "persist" ∈ child_tags (heap σ') node))).
Proof.
  intros conflict err run.
  assert (conflict = true →
          run = (State (heap σ ++ [leaf (qualify "commit")]) (outbox σ), Raise err))
    as HA.
  { intros Hc. unfold run, Commit_request. cbv zeta. fold conflict.
    by rewrite Hc. }
  split; [split|split; [done|]].
  - intros [σ' E]. destruct conflict eqn:Hc; [done|]. exfalso.
    assert (raises_only (λ e, e ≠ err)
              (Commit_request ncs nsr wti caps confirmed timeout persist
                 persist_id nd r l c w)) as Hr.
    { unfold Commit_request. cbv zeta. fold conflict. rewrite Hc. cbn [when].
      builder_raises.
      match goal with H : _assert _ _ = Raise _ |- _ =>
        by apply assert_raises in H as [-> _] end. }
    by apply (Hr _ _ _ E).
  - intros Hc. eexists. by apply HA.
  - intros σ' node E. apply Commit_children in E as (_ & Hc & _ & HF).
    split; [done|]. intros [Hpid Hconf].
    rewrite Forall_forall in HF.
    apply HF, named_qualify in Hpid; [|done].
    assert (truthy_str persist_id = true) as Hp.
    { unfold commit_names, confirmed_names, persist_id_names in Hpid.
      destruct (truthy_str persist_id); [done|].
      destruct (arg_default false confirmed); not_in_list Hpid. }
    assert (arg_default false confirmed = true) as Hcf.
    { destruct Hconf as [Hx|Hx]; apply HF, named_qualify in Hx; try done;
        unfold commit_names, confirmed_names, persist_id_names in Hx;
        rewrite Hp in Hx;
        (destruct (arg_default false confirmed); [done|not_in_list Hx]). }
    unfold conflict in Hc. by rewrite Hp, Hcf in Hc.
Qed.

Lemma Commit_persist_id_conflict_witness :
  Commit_request "ncs" "rollback" "wti" [":candidate"] Omitted None
    (Some "token") (Some "token") Omitted None None None Omitted (State [] []) =
    (State [leaf (qualify "commit")] [],
     Raise (OperationError
       "Invalid operation as confirmed or persist cannot be present with persist-id")).
Proof.
  apply (proj1 (proj2 (Commit_persist_id_conflict "ncs" "rollback" "wti"
    [":candidate"] Omitted None (Some "token") (Some "token") Omitted None None
    None Omitted (State [] []))) eq_refl).
Defined.

(** C4: [EditConfig] with a text payload dispatches a request whose last
    child is a config-text element holding one configuration-text element
    with exactly that text; with an xml payload whose root is named [config]
    or is the base namespace's [config], the root is re-tagged to the base
    namespace's [config] and appended as the last child, its content as it
    was: the caller's element itself when an element was passed, the parsed
    document when a string was passed.  (Holds whenever the earlier steps go
    through: target understood, capabilities advertised, reconcile value in
    the set.) *)
Theorem EditConfig_payload
    ncs nsr wti nsi caps dsou parse config format target dop top eop
    nd r l c w wi tr σ :
  dsou "target" (PStr (arg_default "candidate" target)) (_assert caps) = Ok tr →
  (top ≠ None → ":validate" ∈ caps) →
  (eop = Some "rollback-on-error" → ":rollback-on-error" ∈ caps) →
  match r with
  | Some x => x ∈ ["keep-non-service-config"; "discard-non-service-config"]
  | None => True
  end →
  let node := length (heap σ) in
  let run := EditConfig_request ncs nsr wti nsi caps dsou parse config format
               target dop top eop nd r l c w wi σ in
  (∀ s, config = PStr s → format = Given "text" →
     ∃ σ' ct,
       run = (σ', Ok node) ∧
       last (children_of (heap σ') node) = Some ct ∧
       to_tree 2 (heap σ') ct =
         Some (Element (qualify "config-text") None
                 [Element (qualify "configuration-text") (Some s) []])) ∧
  (∀ ele, config = PEle ele → arg_default "xml" format = "xml" →
     ele < length (heap σ) →
     tag_of (heap σ) ele ∈ ["config"; qualify "config"] →
     ∃ σ',
       run = (σ', Ok node) ∧
       last (children_of (heap σ') node) = Some ele ∧
       tag_of (heap σ') ele = "{urn:ietf:params:xml:ns:netconf:base:1.0}config" ∧
       text_of (heap σ') ele = text_of (heap σ) ele ∧
       children_of (heap σ') ele = children_of (heap σ) ele) ∧
  (∀ s tg tx ks, config = PStr s → arg_default "xml" format = "xml" →
     parse s = Some (Element tg tx ks) →
     tg ∈ ["config"; qualify "config"] →
     ∃ σ' cn,
       run = (σ', Ok node) ∧
       last (children_of (heap σ') node) = Some cn ∧
       to_tree (depth (Element tg tx ks)) (heap σ') cn =
         Some (Element "{urn:ietf:params:xml:ns:netconf:base:1.0}config" tx ks)).
Proof.
  intros Hds Htop Heop Hr node run.
  destruct (EditConfig_prefix ncs nsr wti nsi caps dsou parse config format
              target dop top eop nd r l c w wi tr σ Hds Htop Heop Hr)
    as (σk & X & E).
  fold node in X, E. fold run in E.
  assert (node < length (heap σk)) as Hnk.
  { apply (ext_length _ _ _ _ X). unfold node. cbn. rewrite length_app. cbn. lia. }
  destruct σk as [hk obk]. cbn [heap] in Hnk.
  split; [|split].
  - intros s -> ->. cbn [arg_default] in E.
    rewrite (bool_decide_false ("text" = "xml")) in E by done.
    rewrite (bool_decide_true ("text" = "text")) in E by done.
    cbn [when] in E. rewrite bind_ret in E.
    erewrite bind_Ok in E by by apply config_text_run.
    unfold _request in E. cbn [heap outbox] in E.
    eexists _, (length hk). split; [exact E|]. cbn [heap]. split.
    + by apply last_snoc_children.
    + by heap_read.
  - intros ele -> Hfmt Hele Htag. rewrite Hfmt in E.
    rewrite (bool_decide_true ("xml" = "xml")) in E by done.
    rewrite (bool_decide_false ("xml" = "text")) in E by done.
    cbn [when] in E.
    assert (ele ≠ node) as Hne by (unfold node; lia).
    assert (hk !! ele = heap σ !! ele) as Hk.
    { change hk with (heap (State hk obk)).
      rewrite (ext_lookup _ _ _ _ ele X); cbn [heap];
        [by apply lookup_app_l|rewrite length_app; lia|done]. }
    destruct (heap σ !! ele) as [x|] eqn:Hx;
      [|apply lookup_ge_None in Hx; lia].
    assert (validated_element parse (PEle ele) ["config"; qualify "config"]
              (State hk obk) = (State hk obk, Ok ele)) as Ev.
    { unfold validated_element, to_ele. rewrite bind_ret.
      unfold bind, get_tag. cbn [heap]. rewrite Hk. cbn.
      unfold tag_of in Htag. rewrite Hx in Htag. cbn in Htag.
      by rewrite bool_decide_true. }
    match type of E with
    | _ = bind ?m _ _ =>
        assert (m (State hk obk) =
                  (State (alter (add_child ele) node
                            (alter (with_tag
                               ("{urn:ietf:params:xml:ns:netconf:base:1.0}"
                                +:+ "config")) ele hk)) obk, Ok tt)) as Hb
          by (by erewrite bind_Ok by exact Ev)
    end.
    rewrite (bind_Ok _ _ _ _ _ Hb), bind_ret in E.
    unfold _request in E. cbn [heap outbox] in E.
    eexists. split; [exact E|]. cbn [heap].
    unfold children_of, tag_of, text_of.
    rewrite list_lookup_alter_eq, !list_lookup_alter_ne by done.
    rewrite !list_lookup_alter_eq, Hk, Hx. cbn.
    destruct (hk !! node) as [y|] eqn:Hy;
      [|apply lookup_ge_None in Hy; lia].
    cbn. by rewrite last_snoc.
  - intros s tg tx ks -> Hfmt Hparse Htag. rewrite Hfmt in E.
    rewrite (bool_decide_true ("xml" = "xml")) in E by done.
    rewrite (bool_decide_false ("xml" = "text")) in E by done.
    cbn [when] in E.
    destruct (alloc_tree_layout tg tx ks (State hk obk))
      as (kidnews & ids & [_ Hread] & Ea).
    cbn [heap outbox] in Ea, Hread.
    set (cn := length hk + length kidnews) in *.
    set (T := "{urn:ietf:params:xml:ns:netconf:base:1.0}" +:+ "config") in *.
    assert (validated_element parse (PStr s) ["config"; qualify "config"]
              (State hk obk) =
              (State (hk ++ kidnews ++ [ENode tg tx ids]) obk, Ok cn)) as Ev.
    { unfold validated_element, to_ele. rewrite Hparse.
      rewrite (bind_Ok _ _ _ _ _ Ea).
      unfold bind, get_tag. cbn [heap]. unfold cn.
      rewrite lookup_off, list_lookup_middle by done. cbn.
      by rewrite bool_decide_true. }
    match type of E with
    | _ = bind ?m _ _ =>
        assert (m (State hk obk) =
                  (State (alter (add_child cn) node hk
                            ++ kidnews ++ [ENode T tx ids]) obk, Ok tt)) as Hb
    end.
    { erewrite bind_Ok by exact Ev. unfold_store. cbn. unfold cn.
      rewrite alter_app_r, alter_off0. cbn.
      by rewrite alter_app_l by done. }
    rewrite (bind_Ok _ _ _ _ _ Hb), bind_ret in E.
    unfold _request in E. cbn [heap outbox] in E.
    eexists _, cn. split; [exact E|]. cbn [heap]. split.
    + by apply last_snoc_children.
    + cbn [depth to_tree]. unfold cn at 1.
      rewrite lookup_off_len by apply length_alter.
      rewrite list_lookup_middle by done. cbn [children tag text].
      rewrite Hread; [done| |done].
      intros j e Hj. rewrite lookup_off_len by apply length_alter.
      by apply lookup_app_l_Some.
Qed.

Lemma EditConfig_payload_witness :
  ∃ σ' ct,
    EditConfig_request "ncs" "rollback" "wti" "inactive" []
      example_datastore_or_url example_parse_xml
      (PStr "interfaces { ethernet 1 { enabled; } }") (Given "text") Omitted
      None None None Omitted None None None Omitted Omitted (State [] []) =
      (σ', Ok 0) ∧
    last (children_of (heap σ') 0) = Some ct ∧
    to_tree 2 (heap σ') ct =
      Some (Element (qualify "config-text") None
              [Element (qualify "configuration-text")
                 (Some "interfaces { ethernet 1 { enabled; } }") []]).
Proof.
  destruct (EditConfig_payload "ncs" "rollback" "wti" "inactive" []
              example_datastore_or_url example_parse_xml
              (PStr "interfaces { ethernet 1 { enabled; } }") (Given "text")
              Omitted None None None Omitted None None None Omitted Omitted
              (Element (qualify "target") None
                 [Element (qualify "candidate") None []])
              (State [] [])) as [H _]; [reflexivity|done|done|done|].
  apply (H _ eq_refl eq_refl).
Defined.

(** C5: [PrepareTransaction] with [dry_run="xml"] and every other argument
    left out hands over a request whose only child is the dry-run element,
    which holds only an outformat element with text "xml" (no reverse marker,
    no no-deploy, reconcile, label or comment element); with a [dry_run]
    outside native, cli, xml it raises [OperationError] (InvalidArgument) and
    hands over nothing. *)
Theorem PrepareTransaction_dry_run ns ncs nsr σ :
  (∃ σ',
     PrepareTransaction_request ns ncs nsr (Some "xml") Omitted Omitted
       None None None σ = (σ', Ok (length (heap σ))) ∧
     outbox σ' = outbox σ ++ [length (heap σ)] ∧
     to_tree 3 (heap σ') (length (heap σ)) =
       Some (Element (qualify_ns "prepare-transaction" ns) None
               [Element (qualify_ns "dry-run" ncs) None
                  [Element (qualify_ns "outformat" ncs) (Some "xml") []]])) ∧
  (∀ d reverse no_deploy reconcile label comment,
     d ∉ ["native"; "cli"; "xml"] →
     ∃ σ',
       PrepareTransaction_request ns ncs nsr (Some d) reverse no_deploy
         reconcile label comment σ =
         (σ', Raise (OperationError ("Wrong dry-run argument: " +:+ d))) ∧
       outbox σ' = outbox σ).
Proof.
  destruct σ as [h ob]. split.
  - unfold PrepareTransaction_request, add_service_commit_params,
      add_rollback_meta_data, _request.
    unfold_store. heap_norm.
    eexists. split; [reflexivity|]. split; [done|]. by heap_norm.
  - intros d reverse nd r l c Hd.
    unfold PrepareTransaction_request. cbv zeta.
    rewrite (bool_decide_true (d ∉ _)) by done.
    eexists. split; [reflexivity|done].
Qed.

Lemma PrepareTransaction_dry_run_witness :
  ∃ σ',
    PrepareTransaction_request "http://tail-f.com/ns/netconf/transactions"
      "http://tail-f.com/ns/ncs" "http://tail-f.com/ns/rollback"
      (Some "yaml") (Given true) Omitted None None (Some "why") (State [] []) =
      (σ', Raise (OperationError "Wrong dry-run argument: yaml")) ∧
    outbox σ' = [].
Proof.
  destruct (PrepareTransaction_dry_run
              "http://tail-f.com/ns/netconf/transactions"
              "http://tail-f.com/ns/ncs" "http://tail-f.com/ns/rollback"
              (State [] [])) as [_ H].
  apply (H "yaml" (Given true) Omitted None None (Some "why")).
  vm_compute. intros H1. repeat (apply elem_of_cons in H1 as [H1|H1]; [discriminate|]).
  by apply elem_of_nil in H1.
Defined.

(** C6: for a reconcile value of the enumerated set (or none),
    [add_service_commit_params] returns and has appended to the node exactly
    these elements, in this order: a no-deploy marker when [no_deploy] is
    true, then one reconcile element whose single child is named after the
    value; for any other value it raises [OperationError] (the spec's
    InvalidArgument). *)
Theorem add_service_commit_params_appends ns node no_deploy reconcile σ :
  node < length (heap σ) →
  (match reconcile with
   | Some r => r ∈ ["keep-non-service-config"; "discard-non-service-config"]
   | None => True
   end →
   ∃ σ' kids,
     add_service_commit_params ns node no_deploy reconcile σ = (σ', Ok tt) ∧
     children_of (heap σ') node = children_of (heap σ) node ++ kids ∧
     mapM (to_tree 2 (heap σ')) kids =
       Some ((if arg_default false no_deploy
              then [Element (qualify_ns "no-deploy" ns) None []] else []) ++
             match reconcile with
             | Some r => [Element (qualify_ns "reconcile" ns) None
                            [Element (qualify_ns r ns) None []]]
             | None => []
             end)) ∧
  (∀ r, reconcile = Some r →
     r ∉ ["keep-non-service-config"; "discard-non-service-config"] →
     ∃ σ', add_service_commit_params ns node no_deploy reconcile σ =
             (σ', Raise (OperationError ("Wrong reconcile argument: " +:+ r)))).
Proof.
  intros Hn. split.
  - destruct σ as [h ob]. cbn [heap] in *. intros Hr.
    assert (∃ x, h !! node = Some x) as [x Hx] by (by apply lookup_lt_is_Some).
    unfold add_service_commit_params.
    destruct (arg_default false no_deploy); cbn [when].
    + erewrite bind_Ok by by apply marker_run.
      destruct reconcile as [r|].
      * rewrite (bool_decide_false (r ∉ _)) by (by intros ?). cbn [when].
        rewrite bind_ret. eexists _, [_; _].
        split; [apply nested_child_run; rewrite length_app, length_alter; lia|].
        rewrite alter_app_l, <- app_assoc by (rewrite length_alter; lia).
        cbn [heap]. split.
        -- rewrite !children_of_alter, list_lookup_alter_eq, Hx
             by (rewrite ?length_alter; lia).
           unfold children_of. rewrite Hx. cbn. by rewrite <- app_assoc.
        -- by heap_read.
      * eexists _, [_]. split; [done|]. cbn [heap]. split.
        -- rewrite !children_of_alter, Hx by done.
           unfold children_of. by rewrite Hx.
        -- by heap_read.
    + rewrite bind_ret. destruct reconcile as [r|].
      * rewrite (bool_decide_false (r ∉ _)) by (by intros ?). cbn [when].
        rewrite bind_ret. eexists _, [_].
        split; [by apply nested_child_run|]. cbn [heap]. split.
        -- rewrite !children_of_alter, Hx by done.
           unfold children_of. by rewrite Hx.
        -- by heap_read.
      * eexists _, []. split; [done|]. split; [by rewrite app_nil_r|done].
  - intros r -> Hr.
    destruct (add_service_commit_params_spec ns node no_deploy (Some r) σ Hn)
      as (σ' & E & _).
    exists σ'. rewrite E. cbn [reconcile_outcome].
    by rewrite (bool_decide_false (r ∈ _)) by done.
Qed.

Lemma add_service_commit_params_appends_witness :
  ∃ σ' kids,
    add_service_commit_params "http://tail-f.com/ns/ncs" 0 (Given true)
      (Some "keep-non-service-config") (State [leaf "rpc"] []) = (σ', Ok tt) ∧
    children_of (heap σ') 0 = kids ∧
    mapM (to_tree 2 (heap σ')) kids =
      Some [Element "{http://tail-f.com/ns/ncs}no-deploy" None [];
            Element "{http://tail-f.com/ns/ncs}reconcile" None
              [Element "{http://tail-f.com/ns/ncs}keep-non-service-config"
                 None []]].
Proof.
  destruct (add_service_commit_params_appends "http://tail-f.com/ns/ncs" 0
              (Given true) (Some "keep-non-service-config")
              (State [leaf "rpc"] [])) as [H _]; [cbn; lia|].
  apply H. apply list_elem_of_here.
Defined.

(** C7: [EditConfig] does not check [default_operation] (the source leaves it
    as a TODO): whatever the value, also one outside merge, replace, none, the
    request is built and dispatched with that value as the text of the
    default-operation element. *)
Theorem EditConfig_default_operation_unchecked d :
  ∃ σ',
    EditConfig_request "ncs" "rollback" "wti" "inactive" []
      example_datastore_or_url example_parse_xml
      (PStr "<config><system/></config>") Omitted Omitted (Some d) None None
      Omitted None None None Omitted Omitted (State [] []) = (σ', Ok 0) ∧
    outbox σ' = [0] ∧
    to_tree 3 (heap σ') 0 =
      Some (Element (qualify "edit-config") None
              [Element (qualify "target") None
                 [Element (qualify "candidate") None []];
               Element (qualify "default-operation") (Some d) [];
               Element (qualify "config") None [Element "system" None []]]).
Proof.
  eexists. split; [vm_compute; reflexivity|]. split; vm_compute; reflexivity.
Qed.

(** C8: [CopyConfig] first asks [datastore_or_url] for the source.  When that
    returns, its element is the second child of the request (after the
    target) and nothing else is looked at.  Only when it raises, whatever the
    exception, is the source validated as an element rooted at [source]: the
    caller's element or the parsed document becomes the second child, and a
    payload that does not parse or is not so rooted makes the builder raise,
    with nothing dispatched.  (Target understood, reconcile value in the
    set.) *)
Theorem CopyConfig_source_resolution
    ncs wti nsi caps dsou parse source target nd r w wi tgt σ :
  dsou "target" (PStr target) (_assert caps) = Ok tgt →
  match r with
  | Some x => x ∈ ["keep-non-service-config"; "discard-non-service-config"]
  | None => True
  end →
  let node := length (heap σ) in
  let run := CopyConfig_request ncs wti nsi caps dsou parse source target
               nd r w wi σ in
  match dsou "source" source (_assert caps) with
  | Ok ts =>
      ∃ σ' s,
        run = (σ', Ok node) ∧
        children_of (heap σ') node !! 1 = Some s ∧
        to_tree (depth ts) (heap σ') s = Some ts
  | Raise _ =>
      match source with
      | PEle ele =>
          ele < length (heap σ) →
          if bool_decide (tag_of (heap σ) ele ∈ ["source"; qualify "source"])
          then ∃ σ', run = (σ', Ok node) ∧
                     children_of (heap σ') node !! 1 = Some ele
          else ∃ σ', run = (σ', Raise (XMLError
                       ("Element [" +:+ tag_of (heap σ) ele
                        +:+ "] does not meet requirement"))) ∧
                     outbox σ' = outbox σ
      | PStr str =>
          match parse str with
          | None => ∃ σ', run = (σ', Raise XMLSyntaxError) ∧ outbox σ' = outbox σ
          | Some (Element tg tx ks) =>
              if bool_decide (tg ∈ ["source"; qualify "source"])
              then ∃ σ' s,
                     run = (σ', Ok node) ∧
                     children_of (heap σ') node !! 1 = Some s ∧
                     to_tree (depth (Element tg tx ks)) (heap σ') s =
                       Some (Element tg tx ks)
              else ∃ σ', run = (σ', Raise (XMLError
                           ("Element [" +:+ tg +:+ "] does not meet requirement"))) ∧
                         outbox σ' = outbox σ
          end
      end
  end.
Proof.
  intros Hds Hr node run.
  assert (∀ σ' e, run = (σ', Raise e) → outbox σ' = outbox σ) as Hout.
  { intros σ' e. apply no_dispatch_CopyConfig. }
  set (σ0 := State (heap σ ++ [leaf (qualify "copy-config")]) (outbox σ)).
  assert (node < length (heap σ0)) as Hn0
    by (unfold σ0, node; cbn; rewrite length_app; cbn; lia).
  assert (children_of (heap σ0) node = []) as Hc0.
  { unfold σ0, node, children_of. cbn [heap]. by rewrite lookup_off0. }
  destruct (datastore_step caps dsou _ _ tgt node σ0 Hds Hn0)
    as (σ1 & ct & E1 & X1 & Hc1 & _).
  rewrite Hc0 in Hc1. cbn [app] in Hc1.
  pose proof (ext_length _ _ _ _ X1 Hn0) as Hn1.
  assert (run =
          (try_except
             (s <- datastore_or_url_ele caps dsou "source" source ;;
              append node s)
             (s <- validated_element parse source ["source"; qualify "source"] ;;
              append node s) ;;;
           add_service_commit_params ncs node (Given (arg_default false nd)) r ;;;
           add_with_transaction_id wti node
             (Given (arg_default (Some false) w)) ;;;
           add_with_inactive nsi node (Given (arg_default false wi)) ;;;
           _request node) σ1) as Erun.
  { unfold run, CopyConfig_request. cbv zeta.
    rewrite (bind_Ok _ _ _ _ _ (new_ele_run _ _)). fold node σ0.
    by rewrite E1. }
  (* what happens once the source is the second child *)
  assert (∀ σ2 s,
            try_except
              (s <- datastore_or_url_ele caps dsou "source" source ;;
               append node s)
              (s <- validated_element parse source ["source"; qualify "source"] ;;
               append node s) σ1 = (σ2, Ok ()) →
            node < length (heap σ2) →
            children_of (heap σ2) node = [ct; s] →
            ∃ σe, ext node any_tag σ2 σe ∧
                  run = (State (heap σe) (outbox σe ++ [node]), Ok node) ∧
                  children_of (heap σe) node !! 1 = Some s) as Hsuffix.
  { intros σ2 s E2 Hn2 Hc2.
    destruct (CopyConfig_suffix ncs wti nsi node (Given (arg_default false nd))
                r (Given (arg_default (Some false) w))
                (Given (arg_default false wi)) σ2 Hn2 Hr) as (σe & Xe & Ee).
    exists σe. split; [done|]. split.
    - by rewrite Erun, (bind_Ok _ _ _ _ _ E2).
    - destruct (ext_children _ _ _ _ Xe) as [kids ->]. by rewrite Hc2. }
  destruct (dsou "source" source (_assert caps)) as [ts|e] eqn:Hsrc.
  - destruct (append_tree_spec node ts σ1 Hn1) as (σ2 & s & E2 & X2 & Hc2 & Hread).
    rewrite Hc1 in Hc2. cbn [app] in Hc2.
    destruct (Hsuffix σ2 s) as (σe & Xe & Ee & Hs);
      [|by eapply ext_length|done|].
    { apply try_Ok. by rewrite (datastore_append_Ok _ _ _ _ ts). }
    eexists _, s. split; [exact Ee|]. split; [done|].
           cbn [heap]. apply Hread; [done|lia].
  - pose proof (try_Raise _
                  (s <- validated_element parse source
                          ["source"; qualify "source"] ;;
                   append node s) _ _ _
                  (datastore_append_Raise caps dsou "source" source e node σ1 Hsrc))
      as Etry.
    destruct source as [str|ele].
    + destruct (parse str) as [[tg tx ks]|] eqn:Hparse.
      * case_bool_decide as Htag.
        -- destruct (append_tree_spec node (Element tg tx ks) σ1 Hn1)
             as (σ2 & s & E2 & X2 & Hc2 & Hread).
           rewrite Hc1 in Hc2. cbn [app] in Hc2.
           destruct (Hsuffix σ2 s) as (σe & Xe & Ee & Hs);
             [|by eapply ext_length|done|].
           { rewrite Etry. unfold bind at 1.
             rewrite (validated_string_run _ _ tg tx ks) by done.
             rewrite bool_decide_true by done. exact E2. }
           eexists _, s. split; [exact Ee|]. split; [done|].
           cbn [heap]. apply Hread; [done|lia].
        -- assert (∃ σ', run = (σ', Raise (not_rooted tg))) as [σ' E'].
           { eexists. rewrite Erun. erewrite bind_Raise; [done|].
             rewrite Etry. unfold bind at 1.
             rewrite (validated_string_run _ _ tg tx ks) by done.
             by rewrite bool_decide_false by done. }
           exists σ'. split; [done|]. by eapply Hout.
      * assert (∃ σ', run = (σ', Raise XMLSyntaxError)) as [σ' E'].
        { eexists. rewrite Erun. erewrite bind_Raise; [done|].
          rewrite Etry. unfold bind at 1.
          by rewrite validated_syntax_run by done. }
        exists σ'. split; [done|]. by eapply Hout.
    + intros Hele.
      assert (ele ≠ node) as Hne by (unfold node; lia).
      assert (tag_of (heap σ1) ele = tag_of (heap σ) ele) as Htag1.
      { unfold tag_of. rewrite (ext_lookup _ _ _ _ ele X1); cbn [heap σ0];
          [by rewrite lookup_app_l|rewrite length_app; lia|done]. }
      case_bool_decide as Htag.
      * destruct (Hsuffix (State (alter (add_child ele) node (heap σ1))
                             (outbox σ1)) ele) as (σe & Xe & Ee & Hs).
        -- rewrite Etry. unfold bind at 1. rewrite validated_element_run.
           rewrite Htag1. by rewrite bool_decide_true by done.
        -- cbn [heap]. by rewrite length_alter.
        -- cbn [heap]. unfold children_of in *.
           rewrite list_lookup_alter_eq.
           destruct (heap σ1 !! node) as [x|]; [|done].
           cbn in *. by rewrite Hc1.
        -- eexists. split; [exact Ee|done].
      * assert (∃ σ', run = (σ', Raise (not_rooted (tag_of (heap σ) ele))))
          as [σ' E'].
        { eexists. rewrite Erun. erewrite bind_Raise; [done|].
          rewrite Etry. unfold bind at 1. rewrite validated_element_run.
          rewrite Htag1. by rewrite bool_decide_false by done. }
        exists σ'. split; [done|]. by eapply Hout.
Qed.

Lemma CopyConfig_source_resolution_witness :
  ∃ σ' s,
    CopyConfig_request "ncs" "wti" "inactive" [] example_datastore_or_url
      example_parse_xml (PStr "running") "candidate" Omitted None Omitted
      Omitted (State [] []) = (σ', Ok 0) ∧
    children_of (heap σ') 0 !! 1 = Some s ∧
    to_tree 2 (heap σ') s =
      Some (Element (qualify "source") None
              [Element (qualify "running") None []]).
Proof.
  apply (CopyConfig_source_resolution "ncs" "wti" "inactive" []
           example_datastore_or_url example_parse_xml (PStr "running")
           "candidate" Omitted None Omitted Omitted
           (Element (qualify "target") None
              [Element (qualify "candidate") None []])
           (State [] []) eq_refl I).
Defined.

(** C9 (as stated, refuted): with [test_option] set and [error_option] equal
    to "rollback-on-error", a session that has [:validate] but not
    [:rollback-on-error] gets [MissingCapabilityError] (UnsupportedCapability)
    although it does not lack [:validate]; and a session that has neither
    gets the error for [:validate], not for [:rollback-on-error]. *)
Lemma EditConfig_capability_counterexample :
  (∃ σ',
     EditConfig_request "ncs" "rollback" "wti" "inactive" [":validate"]
       example_datastore_or_url example_parse_xml
       (PStr "<config><system/></config>") Omitted Omitted None (Some "set")
       (Some "rollback-on-error") Omitted None None None Omitted Omitted
       (State [] []) =
       (σ', Raise (MissingCapabilityError ":rollback-on-error"))) ∧
  (∃ σ',
     EditConfig_request "ncs" "rollback" "wti" "inactive" []
       example_datastore_or_url example_parse_xml
       (PStr "<config><system/></config>") Omitted Omitted None (Some "set")
       (Some "rollback-on-error") Omitted None None None Omitted Omitted
       (State [] []) = (σ', Raise (MissingCapabilityError ":validate"))).
Proof.
  split; eexists; vm_compute; reflexivity.
Qed.

(** C9 (amended): with the target understood, a [test_option] makes
    [EditConfig] raise [MissingCapabilityError] for [:validate] exactly when
    the session lacks [:validate]; [error_option="rollback-on-error"] makes
    it raise [MissingCapabilityError] for [:rollback-on-error] exactly when
    the session lacks [:rollback-on-error], provided the [:validate] check,
    which comes first, goes through; any other [error_option] never raises
    for [:rollback-on-error], and no [test_option] never raises for
    [:validate]. *)
Theorem EditConfig_capability_checks
    ncs nsr wti nsi caps dsou parse config format target dop top eop
    nd r l c w wi tr σ :
  dsou "target" (PStr (arg_default "candidate" target)) (_assert caps) = Ok tr →
  let run := EditConfig_request ncs nsr wti nsi caps dsou parse config format
               target dop top eop nd r l c w wi σ in
  (top ≠ None →
     ((∃ σ', run = (σ', Raise (MissingCapabilityError ":validate"))) ↔
      ":validate" ∉ caps)) ∧
  (eop = Some "rollback-on-error" → top = None ∨ ":validate" ∈ caps →
     ((∃ σ', run = (σ', Raise (MissingCapabilityError ":rollback-on-error"))) ↔
      ":rollback-on-error" ∉ caps)) ∧
  (eop ≠ Some "rollback-on-error" →
     ∀ σ', run ≠ (σ', Raise (MissingCapabilityError ":rollback-on-error"))) ∧
  (top = None →
     ∀ σ', run ≠ (σ', Raise (MissingCapabilityError ":validate"))).
Proof.
  intros Hds run.
  assert (∀ (P : exn → Prop) σ' e,
            (top ≠ None → ":validate" ∉ caps →
               P (MissingCapabilityError ":validate")) →
            (eop = Some "rollback-on-error" → ":rollback-on-error" ∉ caps →
               P (MissingCapabilityError ":rollback-on-error")) →
            (∀ x, P (OperationError x)) →
            P XMLSyntaxError → (∀ m, P (XMLError m)) → P TypeError →
            run = (σ', Raise e) → P e) as Hraise.
  { intros P σ' e H1 H2 H3 H4 H5 H6 E.
    eapply (EditConfig_raises_only P); eauto. }
  (* the state in which the test-option block starts *)
  set (node := length (heap σ)).
  set (σ0 := State (heap σ ++ [leaf (qualify "edit-config")]) (outbox σ)).
  assert (node < length (heap σ0)) as Hn0
    by (unfold σ0, node; cbn; rewrite length_app; cbn; lia).
  destruct (datastore_step caps dsou _ _ tr node σ0 Hds Hn0)
    as (σ1 & ct & E1 & X1 & _).
  pose proof (ext_length _ _ _ _ X1 Hn0) as Hn1.
  destruct (default_operation_block_spec node dop σ1 Hn1) as (σ2 & E2 & X2).
  pose proof (ext_length _ _ _ _ X2 Hn1) as Hn2.
  split; [|split; [|split]].
  - intros Htop. split.
    + intros [σ' E] Hin.
      refine (Hraise (λ e, e ≠ MissingCapabilityError ":validate") σ' _
                _ _ _ _ _ _ E eq_refl); done.
    + intros Hcap. destruct top as [t|]; [|done].
      exists σ2. unfold run, EditConfig_request. cbv zeta.
      rewrite (bind_Ok _ _ _ _ _ (new_ele_run _ _)). fold node σ0.
      rewrite E1, (bind_Ok _ _ _ _ _ E2).
      by rewrite assert_Raise by done.
  - intros -> Hv. split.
    + intros [σ' E] Hin.
      refine (Hraise (λ e, e ≠ MissingCapabilityError ":rollback-on-error") σ' _
                _ _ _ _ _ _ E eq_refl); done.
    + intros Hcap.
      destruct (test_option_block_spec caps node top σ2 Hn2)
        as (σ3 & E3 & X3); [by destruct Hv|].
      exists σ3. unfold run, EditConfig_request. cbv zeta.
      rewrite (bind_Ok _ _ _ _ _ (new_ele_run _ _)). fold node σ0.
      rewrite E1, (bind_Ok _ _ _ _ _ E2), (bind_Ok _ _ _ _ _ E3).
      rewrite (bool_decide_true (_ = "rollback-on-error")) by done.
      cbn [when]. by rewrite assert_Raise by done.
  - intros Heop σ' E.
    by refine (Hraise (λ e, e ≠ MissingCapabilityError ":rollback-on-error") σ' _
                 _ _ _ _ _ _ E eq_refl).
  - intros -> σ' E.
    by refine (Hraise (λ e, e ≠ MissingCapabilityError ":validate") σ' _
                 _ _ _ _ _ _ E eq_refl).
Qed.

Lemma EditConfig_capability_checks_witness :
  ∃ σ',
    EditConfig_request "ncs" "rollback" "wti" "inactive" []
      example_datastore_or_url example_parse_xml
      (PStr "<config><system/></config>") Omitted Omitted None (Some "set")
      None Omitted None None None Omitted Omitted (State [] []) =
      (σ', Raise (MissingCapabilityError ":validate")).
Proof.
  destruct (EditConfig_capability_checks "ncs" "rollback" "wti" "inactive" []
              example_datastore_or_url example_parse_xml
              (PStr "<config><system/></config>") Omitted Omitted None
              (Some "set") None Omitted None None None Omitted Omitted
              (Element (qualify "target") None
                 [Element (qualify "candidate") None []])
              (State [] []) eq_refl) as [H _].
  apply H; [done|apply not_elem_of_nil].
Defined.

(** C10 (as stated, refuted): with [confirmed] false, a [persist] given next
    to a [persist_id] is not ignored: the very call that succeeds without it
    raises with it. *)
Lemma Commit_persist_not_ignored_counterexample :
  Commit_request "ncs" "rollback" "wti" [":candidate"] (Given false) None
    (Some "token") (Some "token") Omitted None None None Omitted (State [] []) =
    (State [leaf (qualify "commit")] [],
     Raise (OperationError
       "Invalid operation as confirmed or persist cannot be present with persist-id")) ∧
  ∃ σ',
    Commit_request "ncs" "rollback" "wti" [":candidate"] (Given false) None
      None (Some "token") Omitted None None None Omitted (State [] []) =
      (σ', Ok 0) ∧
    to_tree 2 (heap σ') 0 =
      Some (Element (qualify "commit") None
              [Element (qualify "persist-id") (Some "token") []]).
Proof.
  split; [by vm_compute|]. eexists. split; vm_compute; reflexivity.
Qed.

(** C10 (amended): with [confirmed] false, a request that is built has no
    confirmed, confirm-timeout or persist element; [timeout] is ignored;
    [persist] is ignored unless it is present together with a present
    [persist_id], in which case the call raises [OperationError]. *)
Theorem Commit_unconfirmed
    ncs nsr wti caps confirmed timeout persist persist_id nd r l c w σ :
  arg_default false confirmed = false →
  let run := Commit_request ncs nsr wti caps confirmed timeout persist persist_id
               nd r l c w σ in
  (∀ σ' node, run = (σ', Ok node) →
     (qualify "confirmed" ∉ child_tags (heap σ') node) ∧
     (qualify "confirm-timeout" ∉ child_tags (heap σ') node) ∧
     (qualify "persist" ∉ child_tags (heap σ') node)) ∧
  run = Commit_request ncs nsr wti caps confirmed None persist persist_id
          nd r l c w σ ∧
  (truthy_str persist && truthy_str persist_id = false →
     run = Commit_request ncs nsr wti caps confirmed None None persist_id
             nd r l c w σ) ∧
  (truthy_str persist && truthy_str persist_id = true →
     run = (State (heap σ ++ [leaf (qualify "commit")]) (outbox σ),
            Raise (OperationError
              "Invalid operation as confirmed or persist cannot be present with persist-id"))).
Proof.
  intros Hcf run. split; [|split; [|split]].
  - intros σ' node H. apply Commit_children in H as (_ & _ & _ & HF).
    rewrite Forall_forall in HF. rewrite Hcf in HF.
    repeat split; intros Hx; apply HF, named_qualify in Hx; try done;
      unfold commit_names, confirmed_names, persist_id_names in Hx;
      destruct (truthy_str persist_id); not_in_list Hx.
  - unfold run, Commit_request. cbv zeta. rewrite Hcf. reflexivity.
  - intros Hp. unfold run, Commit_request. cbv zeta. rewrite Hcf.
    cbn [orb]. rewrite Hp. reflexivity.
  - intros Hp. unfold run, Commit_request. cbv zeta. rewrite Hcf.
    cbn [orb]. rewrite Hp. reflexivity.
Qed.

Lemma Commit_unconfirmed_witness :
  Commit_request "ncs" "rollback" "wti" [":candidate"] (Given false)
    (Some (TInt 120)) (Some "token") None Omitted None None None Omitted
    (State [] []) =
  Commit_request "ncs" "rollback" "wti" [":candidate"] (Given false)
    None None None Omitted None None None Omitted (State [] []).
Proof.
  apply (proj1 (proj2 (proj2 (Commit_unconfirmed "ncs" "rollback" "wti"
    [":candidate"] (Given false) (Some (TInt 120)) (Some "token") None Omitted
    None None None Omitted (State [] []) eq_refl))) eq_refl).
Defined.

(** * Further properties of the builders *)

(** ** The store a builder finds is the store it leaves *)

Lemma untouched_refl b x σ : untouched b x σ σ.
Proof. by split. Qed.

Lemma untouched_trans b x σ σ1 σ2 :
  untouched b x σ σ1 → untouched b x σ1 σ2 → untouched b x σ σ2.
Proof.
  intros [Hl1 Hf1] [Hl2 Hf2]. split; [lia|].
  intros i Hi Hx. by rewrite Hf2, Hf1.
Qed.

Lemma untouched_extension σ σ' x :
  untouched (length (heap σ)) x σ σ' → length (heap σ) ≤ x →
  ∃ news, heap σ' = heap σ ++ news.
Proof.
  intros [Hl Hf] Hx. exists (drop (length (heap σ)) (heap σ')).
  rewrite <- (take_drop (length (heap σ)) (heap σ')) at 1. f_equal.
  apply list_eq. intros i. destruct (decide (i < length (heap σ))) as [Hi|Hi].
  - rewrite lookup_take_lt by done. apply Hf; lia.
  - rewrite lookup_take_ge by lia. symmetry. apply lookup_ge_None. lia.
Qed.

Section KeepsBelow.

Context {A B : Type}.
Implicit Types (m : M A) (f : A → M B) (Q : A → Prop) (R : B → Prop).

Lemma keeps_below_bind b x Q R m f :
  keeps_below b x Q m → (∀ a, Q a → keeps_below b x R (f a)) →
  keeps_below b x R (bind m f).
Proof.
  intros Hm Hf σ Hb. unfold bind. destruct (Hm σ Hb) as [Hu HQ].
  destruct (m σ) as [σ1 [a|e]]; cbn in *; [|done].
  destruct (Hf a (HQ a eq_refl) σ1) as [Hu2 HR]; [destruct Hu; lia|].
  split; [by eapply untouched_trans|done].
Qed.

Lemma keeps_below_weaken b x Q (Q' : A → Prop) m :
  (∀ a, Q a → Q' a) → keeps_below b x Q m → keeps_below b x Q' m.
Proof. intros HQ Hm σ Hb. destruct (Hm σ Hb) as [Hu H]. split; auto. Qed.

Lemma keeps_below_try b x Q (m h : M A) :
  keeps_below b x Q m → keeps_below b x Q h → keeps_below b x Q (try_except m h).
Proof.
  intros Hm Hh σ Hb. unfold try_except. destruct (Hm σ Hb) as [Hu HQ].
  destruct (m σ) as [σ1 [a|e]]; cbn in *; [done|].
  destruct (Hh σ1) as [Hu2 HR]; [destruct Hu; lia|].
  split; [by eapply untouched_trans|done].
Qed.

End KeepsBelow.

Lemma keeps_below_ret {A} b x (Q : A → Prop) a : Q a → keeps_below b x Q (ret a).
Proof. intros HQ σ Hb. split; [apply untouched_refl|]. by intros ? [= <-]. Qed.

Lemma keeps_below_raise {A} b x (Q : A → Prop) e : keeps_below b x Q (raise e).
Proof. intros σ Hb. split; [apply untouched_refl|done]. Qed.

Lemma keeps_below_lift {A} b x (r : res A) : keeps_below b x (λ _, True) (lift r).
Proof. intros σ Hb. split; [apply untouched_refl|done]. Qed.

Lemma keeps_below_alloc b x e : keeps_below b x (λ n, b ≤ n) (alloc e).
Proof.
  intros σ Hb. unfold alloc, untouched. cbn. split; [split|].
  - rewrite length_app. lia.
  - intros i Hi _. apply lookup_app_l. lia.
  - by intros a [= <-].
Qed.

Lemma keeps_below_update b x f i :
  b ≤ i ∨ i = x → keeps_below b x (λ _, True) (update f i).
Proof.
  intros Hi σ Hb. unfold update, untouched. cbn. split; [split|done].
  - by rewrite length_alter.
  - intros j Hj Hx. apply list_lookup_alter_ne. lia.
Qed.

Lemma keeps_below_get_tag b x i : keeps_below b x (λ _, True) (get_tag i).
Proof. intros σ Hb. split; [apply untouched_refl|done]. Qed.

Lemma keeps_below_when b x c m :
  keeps_below b x (λ _, True) m → keeps_below b x (λ _, True) (when c m).
Proof. destruct c; [done|]. intros _. by apply keeps_below_ret. Qed.

Lemma keeps_below_alloc_tree b x t : keeps_below b x (λ n, b ≤ n) (alloc_tree t).
Proof.
  intros σ Hb. destruct (alloc_tree_run t σ) as (news & k & _ & ->).
  unfold untouched. cbn. split; [split|].
  - rewrite length_app. lia.
  - intros i Hi _. apply lookup_app_l. lia.
  - intros a [= <-]. lia.
Qed.

Lemma keeps_below_sub_ele_ns b x p name ns :
  b ≤ p ∨ p = x → keeps_below b x (λ c, b ≤ c) (sub_ele_ns p name ns).
Proof.
  intros Hp. unfold sub_ele_ns, append.
  eapply keeps_below_bind; [apply keeps_below_alloc|]. intros c Hc.
  eapply keeps_below_bind; [by apply keeps_below_update|]. intros _ _.
  by apply keeps_below_ret.
Qed.

Lemma keeps_below_sub_ele b x p name :
  b ≤ p ∨ p = x → keeps_below b x (λ c, b ≤ c) (sub_ele p name).
Proof. apply keeps_below_sub_ele_ns. Qed.

Lemma keeps_below_request b x n : keeps_below b x (λ _, True) (_request n).
Proof. intros σ Hb. unfold _request, untouched. cbn. by split. Qed.

Ltac kb_side := first [done | left; lia | right; done | lia | by left | by right].

Ltac kb_step :=
  lazymatch goal with
  | |- keeps_below _ _ _ (bind (alloc _) _) =>
      eapply keeps_below_bind; [apply keeps_below_alloc|intros ? ?]
  | |- keeps_below _ _ _ (bind (alloc_tree _) _) =>
      eapply keeps_below_bind; [apply keeps_below_alloc_tree|intros ? ?]
  | |- keeps_below _ _ _ (bind (sub_ele_ns _ _ _) _) =>
      eapply keeps_below_bind; [apply keeps_below_sub_ele_ns; kb_side|intros ? ?]
  | |- keeps_below _ _ _ (bind (sub_ele _ _) _) =>
      eapply keeps_below_bind; [apply keeps_below_sub_ele; kb_side|intros ? ?]
  | |- keeps_below ?b ?x _ (bind _ _) =>
      apply (keeps_below_bind b x (λ _, True)); [|intros ? _]
  | |- keeps_below _ _ _ (match ?c with _ => _ end) => destruct c
  | |- keeps_below _ _ _ (when _ _) => apply keeps_below_when
  | |- keeps_below _ _ _ (try_except _ _) => apply keeps_below_try
  | |- keeps_below _ _ _ (update _ _) => apply keeps_below_update; kb_side
  | |- keeps_below _ _ _ (lift _) => apply keeps_below_lift
  | |- keeps_below _ _ _ (ret _) => apply keeps_below_ret; kb_side
  | |- keeps_below _ _ _ (raise _) => apply keeps_below_raise
  | |- keeps_below _ _ _ (_request _) => apply keeps_below_request
  | |- keeps_below _ _ _ (get_tag _) => apply keeps_below_get_tag
  end.

Ltac kb :=
  cbv zeta; unfold set_text_py, set_text_of, set_text, set_tag, append;
  repeat kb_step.

Lemma keeps_below_add_service_commit_params b x ns n nd r :
  b ≤ n ∨ n = x →
  keeps_below b x (λ _, True) (add_service_commit_params ns n nd r).
Proof. intros Hn. unfold add_service_commit_params. kb. Qed.

Lemma keeps_below_add_rollback_meta_data b x ns n l c :
  b ≤ n ∨ n = x →
  keeps_below b x (λ _, True) (add_rollback_meta_data ns n l c).
Proof. intros Hn. unfold add_rollback_meta_data. kb. Qed.

Lemma keeps_below_add_with_transaction_id b x ns n w :
  b ≤ n ∨ n = x →
  keeps_below b x (λ _, True) (add_with_transaction_id ns n w).
Proof. intros Hn. unfold add_with_transaction_id. kb. Qed.

Lemma keeps_below_add_with_inactive b x ns n w :
  b ≤ n ∨ n = x →
  keeps_below b x (λ _, True) (add_with_inactive ns n w).
Proof. intros Hn. unfold add_with_inactive. kb. Qed.

Lemma keeps_below_datastore_or_url_ele b x caps dsou wha loc :
  keeps_below b x (λ c, b ≤ c) (datastore_or_url_ele caps dsou wha loc).
Proof.
  unfold datastore_or_url_ele.
  eapply keeps_below_bind; [apply keeps_below_lift|]. intros t _.
  apply keeps_below_alloc_tree.
Qed.

Lemma keeps_below_validated_element b x parse v tags :
  (∀ ele, v = PEle ele → ele = x) →
  keeps_below b x (λ c, b ≤ c ∨ c = x) (validated_element parse v tags).
Proof.
  intros Hv. unfold validated_element, to_ele.
  apply (keeps_below_bind b x (λ c, b ≤ c ∨ c = x)).
  - destruct v as [s|ele].
    + destruct (parse s) as [t|].
      * eapply keeps_below_weaken; [|apply keeps_below_alloc_tree]. auto.
      * apply keeps_below_raise.
    + apply keeps_below_ret. right. by apply Hv.
  - intros c Hc. kb.
Qed.

Lemma keeps_below_StartTransaction b x ns nsi target wi :
  keeps_below b x (λ _, True) (StartTransaction_request ns nsi target wi).
Proof.
  unfold StartTransaction_request, new_ele_ns. kb.
  apply keeps_below_add_with_inactive. kb_side.
Qed.

Ltac kb_builder_step :=
  lazymatch goal with
  | |- keeps_below _ _ _ (bind (datastore_or_url_ele _ _ _ _) _) =>
      eapply keeps_below_bind;
        [apply keeps_below_datastore_or_url_ele|intros ? ?]
  | |- keeps_below _ _ _ (bind (validated_element _ _ _) _) =>
      eapply keeps_below_bind;
        [apply keeps_below_validated_element; kb_side|intros ? ?]
  | |- keeps_below _ _ _ (add_service_commit_params _ _ _ _) =>
      apply keeps_below_add_service_commit_params; kb_side
  | |- keeps_below _ _ _ (add_rollback_meta_data _ _ _ _) =>
      apply keeps_below_add_rollback_meta_data; kb_side
  | |- keeps_below _ _ _ (add_with_transaction_id _ _ _) =>
      apply keeps_below_add_with_transaction_id; kb_side
  | |- keeps_below _ _ _ (add_with_inactive _ _ _) =>
      apply keeps_below_add_with_inactive; kb_side
  | |- _ => kb_step
  end.

Ltac kb_builder :=
  cbv zeta;
  unfold new_ele_ns, new_ele, set_text_py, set_text_of, set_text, set_tag,
    append;
  repeat kb_builder_step.

Lemma keeps_below_PrepareTransaction b x ns ncs nsr dry_run rev nd r l c :
  keeps_below b x (λ _, True)
    (PrepareTransaction_request ns ncs nsr dry_run rev nd r l c).
Proof. unfold PrepareTransaction_request. kb_builder. Qed.

Lemma keeps_below_CommitTransaction b x ns wti w :
  keeps_below b x (λ _, True) (CommitTransaction_request ns wti w).
Proof. unfold CommitTransaction_request. kb_builder. Qed.

Lemma keeps_below_AbortTransaction b x ns :
  keeps_below b x (λ _, True) (AbortTransaction_request ns).
Proof. unfold AbortTransaction_request. kb_builder. Qed.

Lemma keeps_below_Commit b x ncs nsr wti caps confirmed timeout persist pid
    nd r l c w :
  keeps_below b x (λ _, True)
    (Commit_request ncs nsr wti caps confirmed timeout persist pid nd r l c w).
Proof. unfold Commit_request. kb_builder. Qed.

Lemma keeps_below_EditConfig b x ncs nsr wti nsi caps dsou parse
    config format target dop top eop nd r l c w wi :
  (∀ ele, config = PEle ele → ele = x) →
  keeps_below b x (λ _, True)
    (EditConfig_request ncs nsr wti nsi caps dsou parse config format target
       dop top eop nd r l c w wi).
Proof. intros Hc. unfold EditConfig_request. kb_builder. Qed.

Lemma keeps_below_CopyConfig b x ncs wti nsi caps dsou parse source target
    nd r w wi :
  keeps_below b x (λ _, True)
    (CopyConfig_request ncs wti nsi caps dsou parse source target nd r w wi).
Proof.
  unfold CopyConfig_request. kb_builder.
  apply (keeps_below_bind b x (λ _, True)); [|intros; kb_builder].
  unfold validated_element, to_ele.
  apply (keeps_below_bind b x (λ _, True)); [|intros; kb_builder].
  destruct source as [s|ele]; [destruct (parse s)|].
  - eapply keeps_below_weaken; [|apply keeps_below_alloc_tree]. done.
  - apply keeps_below_raise.
  - by apply keeps_below_ret.
Qed.

(** ** Documents in the store *)

Lemma to_tree_agree h h' : 
  (∀ i, i < length h → h' !! i = h !! i) →
  ∀ fuel c t, to_tree fuel h c = Some t → to_tree fuel h' c = Some t.
Proof.
  intros Hagree fuel. induction fuel as [|fuel IH]; intros c t; [done|].
  cbn [to_tree]. destruct (h !! c) as [e|] eqn:He; [|done].
  rewrite Hagree, He by (by eapply lookup_lt_Some).
  destruct (mapM (to_tree fuel h) (children e)) as [ks|] eqn:Hks; [|done].
  intros [= <-].
  assert (mapM (to_tree fuel h') (children e) = Some ks) as ->; [|done].
  apply mapM_Some in Hks. apply mapM_Some.
  eapply Forall2_impl; [exact Hks|]. intros x y. apply IH.
Qed.

Lemma reads_agree h h' c t :
  (∀ i, i < length h → h' !! i = h !! i) → reads h c t → reads h' c t.
Proof. intros Hagree Hr fuel Hf. eapply to_tree_agree; [done|]. by apply Hr. Qed.

Lemma reads_node h n e ts :
  h !! n = Some e → Forall2 (reads h) (children e) ts →
  reads h n (Element (tag e) (text e) ts).
Proof.
  intros He Hks fuel Hf. cbn [depth] in Hf.
  destruct fuel as [|fuel]; [lia|]. cbn [to_tree]. rewrite He.
  assert (mapM (to_tree fuel h) (children e) = Some ts) as ->; [|done].
  apply mapM_Some.
  assert (foldr (λ k d, depth k `max` d) 0 ts ≤ fuel) as Hd by lia.
  clear Hf He. induction Hks as [|c t cs ts' Hc _ IH]; [constructor|].
  cbn [foldr] in Hd. constructor; [apply Hc; lia|apply IH; lia].
Qed.

Lemma reads_from_reads b h c t : reads_from b h c t → reads h c t.
Proof. intros Hr. by apply Hr. Qed.

Lemma reads_from_le b b' h c t :
  b' ≤ b → reads_from b h c t → reads_from b' h c t.
Proof. intros Hb Hr h' Hh. apply Hr. intros i Hi. apply Hh. lia. Qed.

Lemma reads_from_grow b h1 h2 c t :
  length h1 ≤ length h2 → (∀ i, b ≤ i < length h1 → h2 !! i = h1 !! i) →
  reads_from b h1 c t → reads_from b h2 c t.
Proof.
  intros Hl H12 Hr h' Hh. apply Hr. intros i Hi.
  rewrite Hh by lia. by apply H12.
Qed.

Lemma reads_from_ext n P σ σ' b c t :
  ext n P σ σ' → n < b →
  reads_from b (heap σ) c t → reads_from b (heap σ') c t.
Proof.
  intros (_ & Hl & Hf & _) Hn. apply reads_from_grow; [done|].
  intros i Hi. apply Hf; lia.
Qed.

Lemma appends_refl n σ : appends n [] σ σ.
Proof. split; [apply ext_refl|]. exists []. by rewrite app_nil_r. Qed.

Lemma appends_trans n ts1 ts2 σ σ1 σ2 :
  n < length (heap σ) →
  appends n ts1 σ σ1 → appends n ts2 σ1 σ2 → appends n (ts1 ++ ts2) σ σ2.
Proof.
  intros Hn [X1 (kids1 & Hk1 & HF1)] [X2 (kids2 & Hk2 & HF2)].
  split; [by eapply ext_trans|].
  exists (kids1 ++ kids2). split; [by rewrite Hk2, Hk1, app_assoc|].
  apply Forall2_app.
  - eapply Forall2_impl; [exact HF1|]. intros c t.
    by apply (reads_from_ext n any_tag σ1 σ2).
  - eapply Forall2_impl; [exact HF2|]. intros c t.
    apply reads_from_le. by destruct X1 as (_ & Hl & _).
Qed.

Lemma appends_length n ts σ σ' :
  appends n ts σ σ' → n < length (heap σ) → n < length (heap σ').
Proof. intros [X _]. by apply (ext_length n any_tag). Qed.

(** A new child in new cells: what it reads as is decided by the new cells. *)
Lemma appends_new n h ob news k t :
  n < length h → k < length news →
  (∀ h', (∀ j e, news !! j = Some e → h' !! (length h + j) = Some e) →
         reads h' (length h + k) t) →
  appends n [t] (State h ob)
    (State (alter (add_child (length h + k)) n h ++ news) ob).
Proof.
  intros Hn Hk Hread. split; [apply ext_append; [done|lia|done]|].
  exists [length h + k]. cbn [heap]. split.
  - unfold children_of.
    rewrite lookup_app_l by (rewrite length_alter; lia).
    rewrite list_lookup_alter_eq.
    destruct (h !! n) as [x|] eqn:Hx; [done|].
    apply lookup_ge_None in Hx. lia.
  - constructor; [|constructor].
    intros h' Hh. apply Hread. intros j e Hj. rewrite Hh.
    + by rewrite lookup_off_len by apply length_alter.
    + rewrite length_app, length_alter. apply lookup_lt_Some in Hj. lia.
Qed.

Lemma reads_leaf h c tg tx :
  h !! c = Some (ENode tg tx []) → reads h c (Element tg tx []).
Proof. intros Hc. by apply (reads_node h c (ENode tg tx []) []). Qed.

(** The request a builder made: a new cell, then children appended to it. *)
Lemma appends_root h ob tg ts σ' :
  appends (length h) ts (State (h ++ [leaf tg]) ob) σ' →
  reads (heap σ') (length h) (Element tg None ts).
Proof.
  intros [(_ & Hl & _ & Ht & Hx & _) (kids & Hk & HF)].
  cbn [heap] in *. rewrite length_app in Hl. cbn in Hl.
  unfold tag_of, text_of, children_of in *. rewrite lookup_off0 in *.
  cbn in Ht, Hx, Hk.
  destruct (heap σ' !! length h) as [e|] eqn:He;
    [|apply lookup_ge_None in He; lia].
  cbn in Ht, Hx, Hk. rewrite <- Ht, <- Hx. apply reads_node; [done|].
  rewrite Hk. eapply Forall2_impl; [exact HF|]. intros c t.
  apply reads_from_reads.
Qed.

Lemma appends_new0 n h ob news t :
  n < length h → 0 < length news →
  (∀ h', (∀ j e, news !! j = Some e → h' !! (length h + j) = Some e) →
         reads h' (length h) t) →
  appends n [t] (State h ob)
    (State (alter (add_child (length h)) n h ++ news) ob).
Proof.
  intros Hn Hk Hread.
  pose proof (appends_new n h ob news 0 t Hn Hk) as H.
  rewrite Nat.add_0_r in H. by apply H.
Qed.

Lemma new_cell0 {h news : list enode} {b : nat} {e : enode} :
  (∀ j e, news !! j = Some e → h !! (b + j) = Some e) →
  news !! 0 = Some e → h !! b = Some e.
Proof. intros H H0. rewrite <- (Nat.add_0_r b). by apply H. Qed.

Lemma marker_appends n name ns h ob :
  n < length h →
  appends n [marker name ns] (State h ob)
    (State (alter (add_child (length h)) n h ++ [leaf (qualify_ns name ns)]) ob).
Proof.
  intros Hn. apply appends_new0; [done|cbn; lia|].
  intros h' Hh. apply reads_leaf. by apply (new_cell0 Hh).
Qed.

Lemma text_child_appends n name ns s h ob :
  n < length h →
  appends n [text_element name ns s] (State h ob)
    (State (alter (add_child (length h)) n h
              ++ [ENode (qualify_ns name ns) (Some s) []]) ob).
Proof.
  intros Hn. apply appends_new0; [done|cbn; lia|].
  intros h' Hh. apply reads_leaf. by apply (new_cell0 Hh).
Qed.

Lemma nested_child_appends n name sub ns h ob :
  n < length h →
  appends n [Element (qualify_ns name ns) None [marker sub ns]] (State h ob)
    (State (alter (add_child (length h)) n h
              ++ [ENode (qualify_ns name ns) None [length h + 1];
                  leaf (qualify_ns sub ns)]) ob).
Proof.
  intros Hn. apply appends_new0; [done|cbn; lia|].
  intros h' Hh.
  apply (reads_node h' _ (ENode (qualify_ns name ns) None [length h + 1])).
  - by apply (new_cell0 Hh).
  - constructor; [|constructor]. apply reads_leaf. by apply Hh.
Qed.

Lemma add_with_inactive_appends ns n w σ :
  n < length (heap σ) →
  ∃ σ', add_with_inactive ns n w σ = (σ', Ok tt) ∧
        appends n (with_inactive_doc ns w) σ σ'.
Proof.
  destruct σ as [h ob]. cbn [heap]. intros Hn.
  unfold add_with_inactive, with_inactive_doc.
  destruct (arg_default true w); cbn [when].
  - eexists. split; [by apply marker_run|]. by apply marker_appends.
  - eexists. split; [done|]. apply appends_refl.
Qed.

Lemma add_with_transaction_id_appends ns n w σ :
  n < length (heap σ) →
  ∃ σ', add_with_transaction_id ns n w σ = (σ', Ok tt) ∧
        appends n (with_transaction_id_doc ns w) σ σ'.
Proof.
  destruct σ as [h ob]. cbn [heap]. intros Hn.
  unfold add_with_transaction_id, with_transaction_id_doc.
  destruct (truthy_bool _); cbn [when].
  - eexists. split; [by apply marker_run|]. by apply marker_appends.
  - eexists. split; [done|]. apply appends_refl.
Qed.

Lemma present_text_appends name ns n o σ :
  n < length (heap σ) →
  ∃ σ', match o with
        | Some s => when (truthy_str o) (e <- sub_ele_ns n name ns ;; set_text e s)
        | None => ret tt
        end σ = (σ', Ok tt) ∧
        appends n (present_text name ns o) σ σ'.
Proof.
  destruct σ as [h ob]. cbn [heap]. intros Hn. unfold present_text.
  destruct o as [s|]; [destruct (truthy_str (Some s)); cbn [when]|].
  - eexists. split; [by apply text_child_run|]. by apply text_child_appends.
  - eexists. split; [done|]. apply appends_refl.
  - eexists. split; [done|]. apply appends_refl.
Qed.

Lemma given_text_appends name n o σ :
  n < length (heap σ) →
  ∃ σ', match o with
        | None => ret tt
        | Some s => e <- sub_ele n name ;; set_text e s
        end σ = (σ', Ok tt) ∧
        appends n (given_text name BASE_NS_1_0 o) σ σ'.
Proof.
  destruct σ as [h ob]. cbn [heap]. intros Hn. unfold given_text.
  destruct o as [s|].
  - eexists. split; [by apply (text_child_run n name BASE_NS_1_0)|].
    by apply text_child_appends.
  - eexists. split; [done|]. apply appends_refl.
Qed.

Lemma add_rollback_meta_data_appends ns n l c σ :
  n < length (heap σ) →
  ∃ σ', add_rollback_meta_data ns n l c σ = (σ', Ok tt) ∧
        appends n (rollback_meta_data_doc ns l c) σ σ'.
Proof.
  intros Hn. unfold add_rollback_meta_data.
  destruct (present_text_appends "label" ns n l σ Hn) as (σ1 & E1 & X1).
  rewrite (bind_Ok _ _ _ _ _ E1).
  destruct (present_text_appends "comment" ns n c σ1) as (σ2 & E2 & X2);
    [by eapply appends_length|].
  exists σ2. split; [done|]. by eapply appends_trans.
Qed.

Lemma add_service_commit_params_appends_doc ns n nd r σ :
  n < length (heap σ) → reconcile_ok r →
  ∃ σ', add_service_commit_params ns n nd r σ = (σ', Ok tt) ∧
        appends n (service_commit_params_doc ns nd r) σ σ'.
Proof.
  intros Hn Hr. unfold add_service_commit_params, service_commit_params_doc.
  assert (∃ σ1, when (arg_default false nd)
                  (_ <- sub_ele_ns n "no-deploy" ns ;; ret tt) σ = (σ1, Ok tt) ∧
                appends n (if arg_default false nd
                           then [marker "no-deploy" ns] else []) σ σ1)
    as (σ1 & E1 & X1).
  { destruct σ as [h ob]. destruct (arg_default false nd); cbn [when].
    - eexists. split; [by apply marker_run|]. by apply marker_appends.
    - eexists. split; [done|]. apply appends_refl. }
  rewrite (bind_Ok _ _ _ _ _ E1).
  pose proof (appends_length _ _ _ _ X1 Hn) as Hn1.
  destruct r as [r|].
  - cbn in Hr. rewrite (bool_decide_false (r ∉ _)) by (by intros ?).
    cbn [when]. rewrite bind_ret.
    destruct σ1 as [h1 ob1]. eexists. split; [by apply nested_child_run|].
    eapply appends_trans; [done|exact X1|]. by apply nested_child_appends.
  - exists σ1. split; [done|]. rewrite app_nil_r. done.
Qed.

(** ** The documents of the builders *)

Lemma new_ele_ns_run name ns σ :
  new_ele_ns name ns σ =
    (State (heap σ ++ [leaf (qualify_ns name ns)]) (outbox σ),
     Ok (length (heap σ))).
Proof. reflexivity. Qed.

Lemma request_finish h ob tg ts σk :
  appends (length h) ts (State (h ++ [leaf tg]) ob) σk →
  ∃ σ', _request (length h) σk = (σ', Ok (length h)) ∧
        outbox σ' = ob ++ [length h] ∧
        reads (heap σ') (length h) (Element tg None ts).
Proof.
  intros X. eexists. split; [reflexivity|]. cbn [heap outbox]. split.
  - destruct X as [(-> & _) _]. done.
  - by apply (appends_root h ob).
Qed.

Lemma fresh_node_valid h (e : enode) : length h < length (h ++ [e]).
Proof. rewrite length_app. cbn. lia. Qed.

Lemma nested_child_step {B} n name sub ns h ob (k : M B) :
  n < length h →
  (r <- sub_ele_ns n name ns ;; _ <- sub_ele_ns r sub ns ;; k) (State h ob) =
  k (State (alter (add_child (length h)) n h
              ++ [ENode (qualify_ns name ns) None [length h + 1];
                  leaf (qualify_ns sub ns)]) ob).
Proof.
  intros Hn. pose proof (nested_child_run n name sub ns h ob Hn) as E.
  unfold bind in *.
  destruct (sub_ele_ns n name ns (State h ob)) as [σa [a|e]]; [|done].
  destruct (sub_ele_ns a sub ns σa) as [σb [b|e]]; [|done].
  by injection E as ->.
Qed.

Lemma reconcile_error_None r : reconcile_error r = None → reconcile_ok r.
Proof.
  destruct r as [r|]; [|done]. cbn. by case_bool_decide.
Qed.

Lemma reconcile_error_outcome r :
  reconcile_outcome r =
    match reconcile_error r with Some e => Raise e | None => Ok tt end.
Proof.
  destruct r as [r|]; [|done]. cbn. unfold reconcile_values.
  by case_bool_decide.
Qed.

Lemma StartTransaction_builds ns nsi target with_inactive σ :
  ∃ σ',
    StartTransaction_request ns nsi target with_inactive σ =
      (σ', Ok (length (heap σ))) ∧
    outbox σ' = outbox σ ++ [length (heap σ)] ∧
    reads (heap σ') (length (heap σ))
      (StartTransaction_doc ns nsi target with_inactive).
Proof.
  destruct σ as [h ob]. cbn [heap outbox].
  unfold StartTransaction_request. cbv zeta.
  rewrite (bind_Ok _ _ _ _ _ (new_ele_ns_run _ _ _)). cbn [heap outbox].
  rewrite nested_child_step by apply fresh_node_valid.
  pose proof (nested_child_appends (length h) "target"
                (arg_default "candidate" target) ns
                (h ++ [leaf (qualify_ns "start-transaction" ns)]) ob
                (fresh_node_valid _ _)) as X1.
  pose proof (fresh_node_valid h (leaf (qualify_ns "start-transaction" ns)))
    as Hn0.
  destruct (add_with_inactive_appends nsi (length h)
              (Given (arg_default true with_inactive)) _
              (appends_length _ _ _ _ X1 Hn0))
    as (σ2 & E2 & X2).
  rewrite (bind_Ok _ _ _ _ _ E2).
  pose proof (appends_trans _ _ _ (State _ ob) _ _ Hn0 X1 X2) as X.
  destruct (request_finish h ob _ _ σ2 X) as (σ' & E & Ho & Hr).
  by exists σ'.
Qed.

(** X1: [StartTransaction] does not check the target against startup,
    running, candidate.  For a target that the markup builder accepts as a
    name it does not raise: it dispatches one request, the element it
    created, which is the start-transaction element holding a target element
    with one child named after the target, then the with-inactive marker
    unless [with_inactive] is false. *)
Theorem StartTransaction_document ns nsi target with_inactive σ :
  xml_name (arg_default "candidate" target) = true →
  ∃ σ' reply,
    StartTransaction_request ns nsi target with_inactive σ = (σ', Ok reply) ∧
    outbox σ' = outbox σ ++ [length (heap σ)] ∧
    reads (heap σ') (length (heap σ))
      (StartTransaction_doc ns nsi target with_inactive).
Proof.
  intros _.
  destruct (StartTransaction_builds ns nsi target with_inactive σ)
    as (σ' & E & Ho & Hr).
  by exists σ', (length (heap σ)).
Qed.

Lemma StartTransaction_document_witness :
  ∃ σ' reply,
    StartTransaction_request "ns" "inactive" (Given "running") Omitted
      (State [] []) = (σ', Ok reply) ∧
    outbox σ' = [0] ∧
    reads (heap σ') 0
      (Element "{ns}start-transaction" None
         [Element "{ns}target" None [Element "{ns}running" None []];
          Element "{inactive}with-inactive" None []]).
Proof.
  apply (StartTransaction_document "ns" "inactive" (Given "running") Omitted
           (State [] [])).
  reflexivity.
Defined.

(** X2: [CommitTransaction] and [AbortTransaction] never raise and dispatch
    one request each: the commit-transaction element, with the
    with-transaction-id marker as its only child exactly when
    [with_transaction_id] is true (left out, [None] and [False] give none),
    and the abort-transaction element without children. *)
Theorem CommitTransaction_AbortTransaction_document ns wti with_transaction_id σ :
  (∃ σ',
     CommitTransaction_request ns wti with_transaction_id σ =
       (σ', Ok (length (heap σ))) ∧
     outbox σ' = outbox σ ++ [length (heap σ)] ∧
     reads (heap σ') (length (heap σ))
       (Element (qualify_ns "commit-transaction" ns) None
          (match with_transaction_id with
           | Given (Some true) => [marker "with-transaction-id" wti]
           | _ => []
           end))) ∧
  (∃ σ',
     AbortTransaction_request ns σ = (σ', Ok (length (heap σ))) ∧
     outbox σ' = outbox σ ++ [length (heap σ)] ∧
     reads (heap σ') (length (heap σ)) (marker "abort-transaction" ns)).
Proof.
  destruct σ as [h ob]. cbn [heap outbox]. split.
  - unfold CommitTransaction_request. cbv zeta.
    rewrite (bind_Ok _ _ _ _ _ (new_ele_ns_run _ _ _)). cbn [heap outbox].
    destruct (add_with_transaction_id_appends wti (length h)
                (Given (arg_default None with_transaction_id))
                (State (h ++ [leaf (qualify_ns "commit-transaction" ns)]) ob)
                (fresh_node_valid _ _)) as (σ1 & E1 & X1).
    rewrite (bind_Ok _ _ _ _ _ E1).
    destruct (request_finish h ob _ _ σ1 X1) as (σ' & E & Ho & Hr).
    exists σ'. split; [done|]. split; [done|].
    by destruct with_transaction_id as [|[[]|]].
  - unfold AbortTransaction_request.
    rewrite (bind_Ok _ _ _ _ _ (new_ele_ns_run _ _ _)). cbn [heap outbox].
    destruct (request_finish h ob (qualify_ns "abort-transaction" ns) [] _
                (appends_refl _ _)) as (σ' & E & Ho & Hr).
    by exists σ'.
Qed.

Ltac alter_in :=
  match goal with
  | |- context [alter ?f (length ?h) (alter ?g ?n ?h ++ ?l)] =>
      rewrite (alter_off_len f (alter g n h) l (length h))
        by apply length_alter
  | |- context [alter ?f (length ?h + ?k) (alter ?g ?n ?h ++ ?l)] =>
      rewrite (alter_off_add f h (alter g n h) l k) by apply length_alter
  end.

Ltac heap_write :=
  repeat (progress
    (cbn -[qualify_ns qualify];
     rewrite ?length_app, ?length_alter, <- ?app_assoc, <- ?Nat.add_assoc;
     repeat alter_in)).

Lemma dry_run_block_run ncs n d (rev : bool) h ob :
  n < length h →
  (dr_node <- sub_ele_ns n "dry-run" ncs ;;
   outformat <- sub_ele_ns dr_node "outformat" ncs ;;
   set_text outformat d ;;;
   when rev (_ <- sub_ele_ns dr_node "reverse" ncs ;; ret tt)) (State h ob) =
    (State (alter (add_child (length h)) n h ++
            if rev
            then [ENode (qualify_ns "dry-run" ncs) None
                    [length h + 1; length h + 2];
                  ENode (qualify_ns "outformat" ncs) (Some d) [];
                  leaf (qualify_ns "reverse" ncs)]
            else [ENode (qualify_ns "dry-run" ncs) None [length h + 1];
                  ENode (qualify_ns "outformat" ncs) (Some d) []]) ob,
     Ok tt).
Proof.
  intros Hn. erewrite bind_Ok by by apply sub_ele_ns_run.
  destruct rev; unfold_store; heap_write; reflexivity.
Qed.

Lemma dry_run_block_appends ncs n d (rev : bool) h ob :
  n < length h →
  appends n
    [Element (qualify_ns "dry-run" ncs) None
       ([text_element "outformat" ncs d] ++
        if rev then [marker "reverse" ncs] else [])]
    (State h ob)
    (State (alter (add_child (length h)) n h ++
            if rev
            then [ENode (qualify_ns "dry-run" ncs) None
                    [length h + 1; length h + 2];
                  ENode (qualify_ns "outformat" ncs) (Some d) [];
                  leaf (qualify_ns "reverse" ncs)]
            else [ENode (qualify_ns "dry-run" ncs) None [length h + 1];
                  ENode (qualify_ns "outformat" ncs) (Some d) []]) ob).
Proof.
  intros Hn. apply appends_new0; [done|destruct rev; cbn; lia|].
  intros h' Hh. destruct rev.
  - apply (reads_node h' _ (ENode (qualify_ns "dry-run" ncs) None
                              [length h + 1; length h + 2])).
    + by apply (new_cell0 Hh).
    + repeat constructor; apply reads_leaf; by apply Hh.
  - apply (reads_node h' _ (ENode (qualify_ns "dry-run" ncs) None
                              [length h + 1])).
    + by apply (new_cell0 Hh).
    + repeat constructor; apply reads_leaf; by apply Hh.
Qed.

Lemma add_service_commit_params_outcome ns n nd r σ :
  n < length (heap σ) →
  ∃ σ',
    match reconcile_error r with
    | Some e =>
        add_service_commit_params ns n nd r σ = (σ', Raise e) ∧
        outbox σ' = outbox σ
    | None =>
        add_service_commit_params ns n nd r σ = (σ', Ok tt) ∧
        appends n (service_commit_params_doc ns nd r) σ σ'
    end.
Proof.
  intros Hn. destruct (reconcile_error r) as [e|] eqn:Er.
  - destruct (add_service_commit_params_spec ns n nd r σ Hn) as (σ' & E & X).
    rewrite reconcile_error_outcome, Er in E. exists σ'. split; [done|].
    by destruct X as (-> & _).
  - apply add_service_commit_params_appends_doc; [done|].
    by apply reconcile_error_None.
Qed.

Lemma appends_outbox n ts σ σ' : appends n ts σ σ' → outbox σ' = outbox σ.
Proof. by intros [(-> & _) _]. Qed.

Lemma PrepareTransaction_builds
    ns ncs nsr dry_run dry_run_reverse no_deploy reconcile
    rollback_label rollback_comment σ :
  ∃ σ',
    match PrepareTransaction_error dry_run reconcile with
    | Some e =>
        PrepareTransaction_request ns ncs nsr dry_run dry_run_reverse
          no_deploy reconcile rollback_label rollback_comment σ =
          (σ', Raise e) ∧
        outbox σ' = outbox σ
    | None =>
        PrepareTransaction_request ns ncs nsr dry_run dry_run_reverse
          no_deploy reconcile rollback_label rollback_comment σ =
          (σ', Ok (length (heap σ))) ∧
        outbox σ' = outbox σ ++ [length (heap σ)] ∧
        reads (heap σ') (length (heap σ))
          (PrepareTransaction_doc ns ncs nsr dry_run dry_run_reverse
             no_deploy reconcile rollback_label rollback_comment)
    end.
Proof.
  destruct σ as [h ob]. cbn [heap outbox].
  unfold PrepareTransaction_request, PrepareTransaction_error. cbv zeta.
  rewrite (bind_Ok _ _ _ _ _ (new_ele_ns_run _ _ _)). cbn [heap outbox].
  set (σ0 := State (h ++ [leaf (qualify_ns "prepare-transaction" ns)]) ob).
  pose proof (fresh_node_valid h (leaf (qualify_ns "prepare-transaction" ns)))
    as Hn0.
  assert (∀ σ1,
    appends (length h) (dry_run_doc ncs dry_run dry_run_reverse) σ0 σ1 →
    ∃ σ',
      match reconcile_error reconcile with
      | Some e =>
          (add_service_commit_params ncs (length h)
             (Given (arg_default false no_deploy)) reconcile ;;;
           add_rollback_meta_data nsr (length h) rollback_label
             rollback_comment ;;;
           _request (length h)) σ1 = (σ', Raise e) ∧
          outbox σ' = ob
      | None =>
          (add_service_commit_params ncs (length h)
             (Given (arg_default false no_deploy)) reconcile ;;;
           add_rollback_meta_data nsr (length h) rollback_label
             rollback_comment ;;;
           _request (length h)) σ1 = (σ', Ok (length h)) ∧
          outbox σ' = ob ++ [length h] ∧
          reads (heap σ') (length h)
            (PrepareTransaction_doc ns ncs nsr dry_run dry_run_reverse
               no_deploy reconcile rollback_label rollback_comment)
      end) as Htail.
  { intros σ1 X1.
    pose proof (appends_length _ _ _ _ X1 Hn0) as Hn1.
    destruct (add_service_commit_params_outcome ncs (length h)
                (Given (arg_default false no_deploy)) reconcile σ1 Hn1)
      as (σ2 & H2).
    destruct (reconcile_error reconcile) as [e|].
    - destruct H2 as [E2 Ho]. exists σ2.
      rewrite (bind_Raise _ _ _ _ _ E2). split; [done|].
      rewrite Ho. by apply appends_outbox in X1.
    - destruct H2 as [E2 X2]. rewrite (bind_Ok _ _ _ _ _ E2).
      pose proof (appends_length _ _ _ _ X2 Hn1) as Hn2.
      destruct (add_rollback_meta_data_appends nsr (length h) rollback_label
                  rollback_comment σ2 Hn2) as (σ3 & E3 & X3).
      rewrite (bind_Ok _ _ _ _ _ E3).
      pose proof (appends_trans _ _ _ σ0 _ _ Hn0 X1
                    (appends_trans _ _ _ σ1 _ _ Hn1 X2 X3)) as X.
      destruct (request_finish h ob _ _ σ3 X) as (σ' & E & Ho & Hr).
      by exists σ'. }
  destruct dry_run as [d|].
  - destruct (decide (d ∈ ["native"; "cli"; "xml"])) as [Hd|Hd].
    + rewrite (bool_decide_true (d ∈ _)) by done.
      rewrite (bool_decide_false (d ∉ _)) by (by intros ?).
      cbn [when].
      erewrite bind_Ok by (rewrite bind_ret; by apply dry_run_block_run).
      apply Htail. by apply dry_run_block_appends.
    + rewrite (bool_decide_false (d ∈ _)) by done.
      rewrite (bool_decide_true (d ∉ _)) by done.
      cbn [when]. eexists. split; [reflexivity|done].
  - rewrite bind_ret. apply Htail. apply appends_refl.
Qed.

(** X3: the outcome of [PrepareTransaction], for every argument combination
    whose rollback label and comment are texts the markup builder accepts.
    A dry-run value outside native, cli, xml raises its OperationError, and
    does so before a wrong reconcile value is looked at; otherwise a wrong
    reconcile value raises; in both cases nothing is dispatched.  Otherwise
    one request is dispatched: the prepare-transaction element whose
    children are, in this order, the dry-run element (outformat, then the
    reverse marker if asked for), the service commit parameters and the
    rollback label and comment.  [dry_run_reverse] without [dry_run] adds
    nothing. *)
Theorem PrepareTransaction_outcome
    ns ncs nsr dry_run dry_run_reverse no_deploy reconcile
    rollback_label rollback_comment σ :
  text_ok rollback_label → text_ok rollback_comment →
  ∃ σ',
    match PrepareTransaction_error dry_run reconcile with
    | Some e =>
        PrepareTransaction_request ns ncs nsr dry_run dry_run_reverse
          no_deploy reconcile rollback_label rollback_comment σ =
          (σ', Raise e) ∧
        outbox σ' = outbox σ
    | None =>
        (∃ reply,
           PrepareTransaction_request ns ncs nsr dry_run dry_run_reverse
             no_deploy reconcile rollback_label rollback_comment σ =
             (σ', Ok reply)) ∧
        outbox σ' = outbox σ ++ [length (heap σ)] ∧
        reads (heap σ') (length (heap σ))
          (PrepareTransaction_doc ns ncs nsr dry_run dry_run_reverse
             no_deploy reconcile rollback_label rollback_comment)
    end.
Proof.
  intros _ _.
  destruct (PrepareTransaction_builds ns ncs nsr dry_run dry_run_reverse
              no_deploy reconcile rollback_label rollback_comment σ)
    as (σ' & H).
  exists σ'. destruct (PrepareTransaction_error dry_run reconcile); [done|].
  destruct H as (E & Ho & Hr). split; [by eexists|done].
Qed.

Lemma PrepareTransaction_outcome_witness :
  (∃ σ' reply,
     PrepareTransaction_request "ns" "ncs" "rb" (Some "cli") (Given true)
       Omitted None (Some "before-upgrade") None (State [] []) =
       (σ', Ok reply) ∧
     outbox σ' = [0] ∧
     reads (heap σ') 0
       (Element "{ns}prepare-transaction" None
          [Element "{ncs}dry-run" None
             [Element "{ncs}outformat" (Some "cli") [];
              Element "{ncs}reverse" None []];
           Element "{rb}label" (Some "before-upgrade") []])) ∧
  (∃ σ',
     PrepareTransaction_request "ns" "ncs" "rb" (Some "json") Omitted
       (Given true) (Some "bad") None None (State [] []) =
       (σ', Raise (OperationError "Wrong dry-run argument: json")) ∧
     outbox σ' = []).
Proof.
  split.
  - destruct (PrepareTransaction_outcome "ns" "ncs" "rb" (Some "cli")
                (Given true) Omitted None (Some "before-upgrade") None
                (State [] []) eq_refl I) as (σ' & [reply E] & Ho & Hr).
    by exists σ', reply.
  - destruct (PrepareTransaction_outcome "ns" "ncs" "rb" (Some "json") Omitted
                (Given true) (Some "bad") None None (State [] []) I I)
      as (σ' & E & Ho).
    by exists σ'.
Defined.

(** ** Steps as outcomes *)

Lemma to_tree_fuel h :
  ∀ f c t, to_tree f h c = Some t →
    ∀ f', depth t ≤ f' → to_tree f' h c = Some t.
Proof.
  induction f as [|f IH]; intros c t; [done|].
  cbn [to_tree]. destruct (h !! c) as [e|] eqn:He; [|done].
  destruct (mapM (to_tree f h) (children e)) as [ks|] eqn:Hks; [|done].
  intros [= <-] f' Hd. cbn [depth] in Hd.
  destruct f' as [|f']; [lia|]. cbn [to_tree]. rewrite He.
  assert (mapM (to_tree f' h) (children e) = Some ks) as ->; [|done].
  apply mapM_Some in Hks. apply mapM_Some.
  assert (foldr (λ k d, depth k `max` d) 0 ks ≤ f') as Hm by lia.
  clear Hd He. induction Hks as [|x y xs ys Hxy _ IHks]; [constructor|].
  cbn [foldr] in Hm. constructor.
  - eapply IH; [exact Hxy|lia].
  - apply IHks. lia.
Qed.

Lemma performs_ok n ts m σ :
  (∃ σ', m σ = (σ', Ok tt) ∧ appends n ts σ σ') → performs n (Ok ts) m σ.
Proof. done. Qed.

Lemma performs_run n r m m' σ :
  m σ = m' σ → performs n r m' σ → performs n r m σ.
Proof. unfold performs. by intros ->. Qed.

Lemma dispatches_last n r m σ :
  performs n r m σ → dispatches n r (m ;;; _request n) σ.
Proof.
  intros (σ1 & H). destruct r as [ts|e]; cbn.
  - destruct H as [E X]. exists σ1. split; [done|].
    by rewrite (bind_Ok _ _ _ _ _ E).
  - destruct H as [E Ho]. exists σ1. by rewrite (bind_Raise _ _ _ _ _ E).
Qed.

Lemma dispatches_step n r1 r2 m k σ :
  n < length (heap σ) →
  performs n r1 m σ →
  (∀ σ1, n < length (heap σ1) → dispatches n r2 k σ1) →
  dispatches n (seq_res r1 r2) (m ;;; k) σ.
Proof.
  intros Hn (σ1 & H) Hk. destruct r1 as [ts1|e1].
  - destruct H as [E X].
    pose proof (appends_length _ _ _ _ X Hn) as Hn1.
    specialize (Hk σ1 Hn1).
    destruct r2 as [ts2|e2]; unfold dispatches, seq_res in *;
      rewrite (bind_Ok _ _ _ _ _ E).
    + destruct Hk as (σk & Xk & Ek). exists σk. split; [|done].
      by apply (appends_trans n _ _ σ σ1).
    + destruct Hk as (σ' & Ek & Ho). exists σ'. split; [done|].
      rewrite Ho. by apply appends_outbox in X.
  - destruct H as [E Ho]. exists σ1. unfold dispatches, seq_res.
    by rewrite (bind_Raise _ _ _ _ _ E).
Qed.

Lemma builds_new_ele name r (k : nat → M nat) σ :
  dispatches (length (heap σ)) r (k (length (heap σ)))
    (State (heap σ ++ [leaf (qualify name)]) (outbox σ)) →
  builds (qualify name) r (node <- new_ele name ;; k node) σ.
Proof.
  intros H. unfold builds.
  rewrite (bind_Ok _ _ _ _ _ (new_ele_run _ _)).
  destruct r as [ts|e]; cbn in H.
  - destruct H as (σk & X & E). eexists. split; [exact E|].
    cbn [heap outbox]. split.
    + by rewrite (appends_outbox _ _ _ _ X).
    + by apply (appends_root (heap σ) (outbox σ)).
  - destruct H as (σ' & E & Ho). by exists σ'.
Qed.

Lemma append_tree_appends n t σ :
  n < length (heap σ) →
  ∃ σ', (c <- alloc_tree t ;; append n c) σ = (σ', Ok tt) ∧
        appends n [t] σ σ'.
Proof.
  intros Hn.
  destruct (alloc_tree_run t σ) as (news & k & (Hk & _ & Hread) & Hrun).
  destruct σ as [h ob]. cbn [heap outbox] in *.
  exists (State (alter (add_child (length h + k)) n h ++ news) ob). split.
  - erewrite bind_Ok by exact Hrun. unfold append, update. cbn.
    by rewrite alter_app_l.
  - apply appends_new; [done|done|].
    intros h' Hh fuel Hf. by apply Hread.
Qed.

Lemma dispatches_datastore caps dsou wha loc n r k σ :
  n < length (heap σ) →
  (∀ σ1, n < length (heap σ1) → dispatches n r k σ1) →
  dispatches n
    (match dsou wha loc (_assert caps) with
     | Raise e => Raise e
     | Ok tr => seq_res (Ok [tr]) r
     end)
    (t <- datastore_or_url_ele caps dsou wha loc ;; append n t ;;; k) σ.
Proof.
  intros Hn Hk. unfold datastore_or_url_ele.
  destruct (dsou wha loc (_assert caps)) as [tr|e] eqn:Hds.
  - destruct (append_tree_appends n tr σ Hn) as (σ1 & E & X).
    assert ((t <- (t <- lift (Ok tr) ;; alloc_tree t) ;; append n t ;;; k) σ
            = k σ1) as Heq.
    { unfold bind, lift in *.
      destruct (alloc_tree tr σ) as [σa [a|e]]; [|done]. by rewrite E. }
    pose proof (appends_length _ _ _ _ X Hn) as Hn1.
    specialize (Hk σ1 Hn1).
    destruct r as [ts|e]; unfold dispatches, seq_res in *; rewrite Heq.
    + destruct Hk as (σk & Xk & Ek). exists σk. split; [|done].
      by apply (appends_trans n [tr] ts σ σ1).
    + destruct Hk as (σ' & Ek & Ho). exists σ'. split; [done|].
      rewrite Ho. by apply appends_outbox in X.
  - unfold dispatches. by exists σ.
Qed.

(** ** The steps of [EditConfig] *)

Lemma given_text_performs name n o σ :
  n < length (heap σ) →
  performs n (Ok (given_text name BASE_NS_1_0 o))
    (match o with
     | None => ret tt
     | Some s => e <- sub_ele n name ;; set_text e s
     end) σ.
Proof. intros Hn. by apply performs_ok, given_text_appends. Qed.

Lemma test_option_performs caps n top σ :
  n < length (heap σ) →
  performs n
    (guard (missing caps (bool_decide (top ≠ None)) ":validate")
       (given_text "test-option" BASE_NS_1_0 top))
    (match top with
     | None => ret tt
     | Some t =>
         lift (_assert caps ":validate") ;;;
         e <- sub_ele n "test-option" ;;
         set_text e t
     end) σ.
Proof.
  intros Hn. unfold missing, _assert. destruct top as [t|].
  - rewrite (bool_decide_true (Some t ≠ None)) by done.
    destruct (decide (":validate" ∈ caps)) as [Hc|Hc].
    + rewrite !(bool_decide_true (_ ∈ caps)) by done. cbn [andb negb guard].
      eapply performs_run; [apply (bind_Ok _ _ _ _ _ (lift_run _ _))|].
      by apply (given_text_performs "test-option" n (Some t)).
    + rewrite !(bool_decide_false (_ ∈ caps)) by done. cbn [andb negb guard].
      by exists σ.
  - rewrite (bool_decide_false (None ≠ None)) by (intros H; by apply H).
    cbn [andb guard]. by apply (given_text_performs "test-option" n None).
Qed.

Lemma error_option_performs caps n eop σ :
  n < length (heap σ) →
  performs n
    (guard (missing caps (bool_decide (eop = Some "rollback-on-error"))
              ":rollback-on-error")
       (given_text "error-option" BASE_NS_1_0 eop))
    (match eop with
     | None => ret tt
     | Some error_option =>
         when (bool_decide (error_option = "rollback-on-error"))
           (lift (_assert caps ":rollback-on-error")) ;;;
         e <- sub_ele n "error-option" ;;
         set_text e error_option
     end) σ.
Proof.
  intros Hn. unfold missing, _assert. destruct eop as [x|].
  - destruct (decide (x = "rollback-on-error")) as [Hx|Hx].
    + rewrite (bool_decide_true (x = _)) by done.
      rewrite (bool_decide_true (Some x = _)) by (by rewrite Hx).
      cbn [when].
      destruct (decide (":rollback-on-error" ∈ caps)) as [Hc|Hc].
      * rewrite !(bool_decide_true (_ ∈ caps)) by done.
        cbn [andb negb guard].
        eapply performs_run; [apply (bind_Ok _ _ _ _ _ (lift_run _ _))|].
        by apply (given_text_performs "error-option" n (Some x)).
      * rewrite !(bool_decide_false (_ ∈ caps)) by done.
        cbn [andb negb guard]. by exists σ.
    + rewrite (bool_decide_false (x = _)) by done.
      rewrite (bool_decide_false (Some x = _)) by (by intros [= ?]).
      cbn [when andb guard].
      eapply performs_run; [apply bind_ret|].
      by apply (given_text_performs "error-option" n (Some x)).
  - rewrite (bool_decide_false (None = _)) by done.
    cbn [andb guard]. by apply (given_text_performs "error-option" n None).
Qed.

Lemma add_service_commit_params_performs ns n nd r σ :
  n < length (heap σ) →
  performs n (guard (reconcile_error r) (service_commit_params_doc ns nd r))
    (add_service_commit_params ns n nd r) σ.
Proof.
  intros Hn.
  destruct (add_service_commit_params_outcome ns n nd r σ Hn) as (σ' & H).
  exists σ'. by destruct (reconcile_error r).
Qed.

Lemma add_rollback_meta_data_performs ns n l c σ :
  n < length (heap σ) →
  performs n (Ok (rollback_meta_data_doc ns l c))
    (add_rollback_meta_data ns n l c) σ.
Proof. intros Hn. by apply performs_ok, add_rollback_meta_data_appends. Qed.

Lemma add_with_transaction_id_performs ns n w σ :
  n < length (heap σ) →
  performs n (Ok (with_transaction_id_doc ns w))
    (add_with_transaction_id ns n w) σ.
Proof. intros Hn. by apply performs_ok, add_with_transaction_id_appends. Qed.

Lemma add_with_inactive_performs ns n w σ :
  n < length (heap σ) →
  performs n (Ok (with_inactive_doc ns w)) (add_with_inactive ns n w) σ.
Proof. intros Hn. by apply performs_ok, add_with_inactive_appends. Qed.

Lemma validated_string_performs parse s tags n σ :
  n < length (heap σ) →
  performs n
    (match validated_string parse s tags with
     | Ok d => Ok [d]
     | Raise e => Raise e
     end)
    (c <- validated_element parse (PStr s) tags ;; append n c) σ.
Proof.
  intros Hn. unfold validated_string.
  destruct (parse s) as [[tg tx ks]|] eqn:Hp.
  - pose proof (validated_string_run parse s tg tx ks tags σ Hp) as E.
    destruct (bool_decide (tg ∈ tags)).
    + destruct (append_tree_appends n (Element tg tx ks) σ Hn)
        as (σ' & E' & X).
      exists σ'. split; [|done]. unfold bind in *. by rewrite E.
    + exists (alloc_tree (Element tg tx ks) σ).1.
      split; [by rewrite (bind_Raise _ _ _ _ _ E)|].
      destruct (alloc_tree_run (Element tg tx ks) σ) as (news & k & _ & ->).
      done.
  - exists σ. split; [|done].
    by rewrite (bind_Raise _ _ _ _ _ (validated_syntax_run _ _ _ _ Hp)).
Qed.

Lemma retagged_string_performs parse s tags new n σ :
  n < length (heap σ) →
  performs n
    (match validated_string parse s tags with
     | Ok d => Ok [retag new d]
     | Raise e => Raise e
     end)
    (c <- validated_element parse (PStr s) tags ;;
     set_tag c new ;;;
     append n c) σ.
Proof.
  intros Hn. unfold validated_string.
  destruct (parse s) as [[tg tx ks]|] eqn:Hp.
  - pose proof (validated_string_run parse s tg tx ks tags σ Hp) as E.
    destruct (bool_decide (tg ∈ tags)).
    + destruct (alloc_tree_layout tg tx ks σ)
        as (kidnews & ids & [_ Hread] & Hrun).
      rewrite Hrun in E. destruct σ as [h ob]. cbn [heap outbox] in *.
      exists (State (alter (add_child (length h + length kidnews)) n h ++
                     kidnews ++ [ENode new tx ids]) ob).
      split.
      * rewrite (bind_Ok _ _ _ _ _ E). unfold set_tag, append, update, bind.
        cbn. rewrite (alter_app_r (with_tag new)).
        rewrite (alter_app_r_alt (with_tag new)) by lia.
        rewrite Nat.sub_diag. cbn. by rewrite alter_app_l by done.
      * apply appends_new; [done|rewrite length_app; cbn; lia|].
        intros h' Hh. cbn [retag].
        apply (reads_node h' _ (ENode new tx ids)).
        { apply Hh. by rewrite lookup_app_r, Nat.sub_diag by lia. }
        cbn [children].
        assert (mapM (to_tree (foldr (λ k d, depth k `max` d) 0 ks) h') ids
                = Some ks) as Hks.
        { apply Hread; [|done]. intros j e Hj. apply Hh.
          by apply lookup_app_l_Some. }
        apply mapM_Some in Hks.
        eapply Forall2_impl; [exact Hks|]. intros c t Ht fuel Hf.
        exact (to_tree_fuel h' _ c t Ht fuel Hf).
    + exists (alloc_tree (Element tg tx ks) σ).1.
      split; [by rewrite (bind_Raise _ _ _ _ _ E)|].
      destruct (alloc_tree_run (Element tg tx ks) σ) as (news & k & _ & ->).
      done.
  - exists σ. split; [|done].
    by rewrite (bind_Raise _ _ _ _ _ (validated_syntax_run _ _ _ _ Hp)).
Qed.

Lemma config_text_appends n s h ob :
  n < length h →
  appends n
    [Element (qualify "config-text") None
       [Element (qualify "configuration-text") (Some s) []]]
    (State h ob)
    (State (alter (add_child (length h)) n h
              ++ [ENode (qualify "config-text") None [length h + 1];
                  ENode (qualify "configuration-text") (Some s) []]) ob).
Proof.
  intros Hn. apply appends_new0; [done|cbn; lia|].
  intros h' Hh.
  apply (reads_node h' _ (ENode (qualify "config-text") None [length h + 1])).
  - by apply (new_cell0 Hh).
  - constructor; [|constructor]. apply reads_leaf. by apply Hh.
Qed.

Lemma xml_payload_performs parse s format n σ :
  n < length (heap σ) →
  performs n
    (if bool_decide (format = "xml")
     then match validated_string parse s ["config"; qualify "config"] with
          | Ok d =>
              Ok [retag "{urn:ietf:params:xml:ns:netconf:base:1.0}config" d]
          | Raise e => Raise e
          end
     else Ok [])
    (when (bool_decide (format = "xml"))
       (config_node <- validated_element parse (PStr s)
                         ["config"; qualify "config"] ;;
        set_tag config_node
          ("{urn:ietf:params:xml:ns:netconf:base:1.0}" +:+ "config") ;;;
        append n config_node)) σ.
Proof.
  intros Hn. destruct (bool_decide (format = "xml")); cbn [when].
  - by apply retagged_string_performs.
  - exists σ. split; [done|]. apply appends_refl.
Qed.

Lemma text_payload_performs s format n σ :
  n < length (heap σ) →
  performs n
    (if bool_decide (format = "text")
     then Ok [Element (qualify "config-text") None
                [Element (qualify "configuration-text") (Some s) []]]
     else Ok [])
    (when (bool_decide (format = "text"))
       (config_text <- sub_ele n "config-text" ;;
        e <- sub_ele config_text "configuration-text" ;;
        set_text_py e (PStr s))) σ.
Proof.
  intros Hn. destruct σ as [h ob].
  destruct (bool_decide (format = "text")); cbn [when].
  - eexists. split; [by apply config_text_run|]. by apply config_text_appends.
  - eexists. split; [done|]. apply appends_refl.
Qed.

Lemma EditConfig_string_builds
    ncs nsr wti nsi caps dsou parse s format target default_operation
    test_option error_option no_deploy reconcile rollback_label
    rollback_comment with_transaction_id with_inactive σ :
  ∃ σ',
    match EditConfig_result ncs nsr wti nsi caps dsou parse s format target
            default_operation test_option error_option no_deploy reconcile
            rollback_label rollback_comment with_transaction_id
            with_inactive with
    | Raise e =>
        EditConfig_request ncs nsr wti nsi caps dsou parse (PStr s) format
          target default_operation test_option error_option no_deploy
          reconcile rollback_label rollback_comment with_transaction_id
          with_inactive σ = (σ', Raise e) ∧
        outbox σ' = outbox σ
    | Ok ts =>
        EditConfig_request ncs nsr wti nsi caps dsou parse (PStr s) format
          target default_operation test_option error_option no_deploy
          reconcile rollback_label rollback_comment with_transaction_id
          with_inactive σ = (σ', Ok (length (heap σ))) ∧
        outbox σ' = outbox σ ++ [length (heap σ)] ∧
        reads (heap σ') (length (heap σ))
          (Element (qualify "edit-config") None ts)
    end.
Proof.
  unfold EditConfig_request, EditConfig_result, EditConfig_steps. cbv zeta.
  apply builds_new_ele.
  pose proof (fresh_node_valid (heap σ) (leaf (qualify "edit-config"))) as Hn0.
  apply dispatches_datastore; [done|]. intros σ1 Hn1.
  apply dispatches_step; [done|by apply given_text_performs|]. intros σ2 Hn2.
  apply dispatches_step; [done|by apply test_option_performs|]. intros σ3 Hn3.
  apply dispatches_step; [done|by apply error_option_performs|]. intros σ4 Hn4.
  apply dispatches_step;
    [done
    |exact (add_service_commit_params_performs ncs _
              (Given (arg_default false no_deploy)) reconcile σ4 Hn4)|].
  intros σ5 Hn5.
  apply dispatches_step;
    [done|by apply add_rollback_meta_data_performs|]. intros σ6 Hn6.
  apply dispatches_step;
    [done
    |exact (add_with_transaction_id_performs wti _
              (Given (arg_default (Some false) with_transaction_id)) σ6 Hn6)|].
  intros σ7 Hn7.
  apply dispatches_step; [done|by apply add_with_inactive_performs|].
  intros σ8 Hn8.
  apply dispatches_step; [done|by apply xml_payload_performs|]. intros σ9 Hn9.
  apply dispatches_last. by apply text_payload_performs.
Qed.

(** X5: the outcome of [EditConfig] for a string payload, for every
    argument combination whose texts (default operation, test option, error
    option, rollback label and comment, and the payload in text format) are
    ones the markup builder accepts.  The steps run in this order and the
    first error wins, with nothing dispatched: the error of the target (as
    [util.datastore_or_url] raises it), a test option without :validate, the
    error option rollback-on-error without :rollback-on-error, a wrong
    reconcile value, and last the payload (for the xml format a string that
    does not parse or is not rooted in config).  Otherwise one request is
    dispatched: the edit-config element whose children are, in this order,
    the target, default-operation, test-option, error-option, the service
    commit parameters, the rollback label and comment, the
    with-transaction-id and with-inactive markers, and the payload: for the
    xml format the parsed document re-tagged to the base namespace's config,
    for the text format the config-text element, and for any other format
    nothing at all. *)
Theorem EditConfig_string_outcome
    ncs nsr wti nsi caps dsou parse s format target default_operation
    test_option error_option no_deploy reconcile rollback_label
    rollback_comment with_transaction_id with_inactive σ :
  text_ok default_operation → text_ok test_option → text_ok error_option →
  text_ok rollback_label → text_ok rollback_comment →
  (arg_default "xml" format = "text" → xml_text s = true) →
  ∃ σ',
    match EditConfig_result ncs nsr wti nsi caps dsou parse s format target
            default_operation test_option error_option no_deploy reconcile
            rollback_label rollback_comment with_transaction_id
            with_inactive with
    | Raise e =>
        EditConfig_request ncs nsr wti nsi caps dsou parse (PStr s) format
          target default_operation test_option error_option no_deploy
          reconcile rollback_label rollback_comment with_transaction_id
          with_inactive σ = (σ', Raise e) ∧
        outbox σ' = outbox σ
    | Ok children =>
        (∃ reply,
           EditConfig_request ncs nsr wti nsi caps dsou parse (PStr s) format
             target default_operation test_option error_option no_deploy
             reconcile rollback_label rollback_comment with_transaction_id
             with_inactive σ = (σ', Ok reply)) ∧
        outbox σ' = outbox σ ++ [length (heap σ)] ∧
        reads (heap σ') (length (heap σ))
          (Element (qualify "edit-config") None children)
    end.
Proof.
  intros _ _ _ _ _ _.
  destruct (EditConfig_string_builds ncs nsr wti nsi caps dsou parse s format
              target default_operation test_option error_option no_deploy
              reconcile rollback_label rollback_comment with_transaction_id
              with_inactive σ) as (σ' & H).
  exists σ'.
  destruct (EditConfig_result _ _ _ _ _ _ _ _ _ _ _ _ _ _ _ _ _ _ _); [|done].
  destruct H as (E & Ho & Hr). split; [by eexists|done].
Qed.

Lemma EditConfig_string_outcome_witness :
  (∃ σ' reply,
     EditConfig_request "ncs" "rb" "wti" "inactive"
       [":validate"; ":rollback-on-error"] example_datastore_or_url
       example_parse_xml (PStr "<config><system/></config>") Omitted
       (Given "running") None (Some "test-then-set")
       (Some "rollback-on-error") Omitted None None None Omitted (Given true)
       (State [] []) = (σ', Ok reply) ∧
     outbox σ' = [0] ∧
     reads (heap σ') 0
       (Element (qualify "edit-config") None
          [Element (qualify "target") None
             [Element (qualify "running") None []];
           Element (qualify "test-option") (Some "test-then-set") [];
           Element (qualify "error-option") (Some "rollback-on-error") [];
           Element "{inactive}with-inactive" None [];
           Element (qualify "config") None [Element "system" None []]])) ∧
  (∃ σ',
     EditConfig_request "ncs" "rb" "wti" "inactive" [":validate"]
       example_datastore_or_url example_parse_xml (PStr "<not-xml") Omitted
       (Given "running") None (Some "test-then-set")
       (Some "rollback-on-error") Omitted None None None Omitted Omitted
       (State [] []) =
       (σ', Raise (MissingCapabilityError ":rollback-on-error")) ∧
     outbox σ' = []).
Proof.
  split.
  - destruct (EditConfig_string_outcome "ncs" "rb" "wti" "inactive"
                [":validate"; ":rollback-on-error"] example_datastore_or_url
                example_parse_xml "<config><system/></config>" Omitted
                (Given "running") None (Some "test-then-set")
                (Some "rollback-on-error") Omitted None None None Omitted
                (Given true) (State [] []) I eq_refl eq_refl I I)
      as (σ' & [reply E] & Ho & Hr); [done|].
    by exists σ', reply.
  - destruct (EditConfig_string_outcome "ncs" "rb" "wti" "inactive"
                [":validate"] example_datastore_or_url example_parse_xml
                "<not-xml" Omitted (Given "running") None
                (Some "test-then-set") (Some "rollback-on-error") Omitted
                None None None Omitted Omitted (State [] []) I eq_refl
                eq_refl I I) as (σ' & E & Ho); [done|].
    by exists σ'.
Defined.

(** ** The steps of [CopyConfig] *)

Lemma string_source_performs caps dsou parse s n σ :
  n < length (heap σ) →
  performs n (CopyConfig_string_source caps dsou parse s)
    (try_except
       (c <- datastore_or_url_ele caps dsou "source" (PStr s) ;; append n c)
       (c <- validated_element parse (PStr s) ["source"; qualify "source"] ;;
        append n c)) σ.
Proof.
  intros Hn. unfold CopyConfig_string_source, datastore_or_url_ele.
  destruct (dsou "source" (PStr s) (_assert caps)) as [d|e] eqn:Hds.
  - destruct (append_tree_appends n d σ Hn) as (σ' & E & X).
    exists σ'. split; [|done].
    unfold try_except, bind, lift in *.
    destruct (alloc_tree d σ) as [σa [a|e]]; [|done]. by rewrite E.
  - eapply performs_run; [|by apply validated_string_performs].
    reflexivity.
Qed.

(** X6: the outcome of [CopyConfig] for a string source and every argument
    combination.  An error of the target (as [util.datastore_or_url] raises
    it) is raised as it is, and is not caught by the handler that guards the
    source.  A source that is not understood as a datastore or URL is parsed
    instead, whatever the error was: it raises when it does not parse or is
    not rooted in source.  Then a wrong reconcile value raises.  In each case
    nothing is dispatched.  Otherwise one request is dispatched: the
    copy-config element whose children are, in this order, the target, the
    source (the parsed document is appended as it is, not re-tagged), the
    service commit parameters, and the with-transaction-id and with-inactive
    markers. *)
Theorem CopyConfig_string_outcome
    ncs wti nsi caps dsou parse s target no_deploy reconcile
    with_transaction_id with_inactive σ :
  ∃ σ',
    match CopyConfig_result ncs wti nsi caps dsou parse s target no_deploy
            reconcile with_transaction_id with_inactive with
    | Raise e =>
        CopyConfig_request ncs wti nsi caps dsou parse (PStr s) target
          no_deploy reconcile with_transaction_id with_inactive σ =
          (σ', Raise e) ∧
        outbox σ' = outbox σ
    | Ok ts =>
        CopyConfig_request ncs wti nsi caps dsou parse (PStr s) target
          no_deploy reconcile with_transaction_id with_inactive σ =
          (σ', Ok (length (heap σ))) ∧
        outbox σ' = outbox σ ++ [length (heap σ)] ∧
        reads (heap σ') (length (heap σ))
          (Element (qualify "copy-config") None ts)
    end.
Proof.
  unfold CopyConfig_request, CopyConfig_result. cbv zeta.
  apply builds_new_ele.
  pose proof (fresh_node_valid (heap σ) (leaf (qualify "copy-config"))) as Hn0.
  apply dispatches_datastore; [done|]. intros σ1 Hn1.
  apply dispatches_step; [done|by apply string_source_performs|].
  intros σ2 Hn2.
  apply dispatches_step;
    [done
    |exact (add_service_commit_params_performs ncs _
              (Given (arg_default false no_deploy)) reconcile σ2 Hn2)|].
  intros σ3 Hn3.
  apply dispatches_step;
    [done
    |exact (add_with_transaction_id_performs wti _
              (Given (arg_default (Some false) with_transaction_id)) σ3 Hn3)|].
  intros σ4 Hn4.
  apply dispatches_last. by apply add_with_inactive_performs.
Qed.

(** ** The steps of [Commit] *)

Lemma performs_seq n r1 r2 (m1 m2 : M unit) σ :
  n < length (heap σ) →
  performs n r1 m1 σ →
  (∀ σ1, n < length (heap σ1) → performs n r2 m2 σ1) →
  performs n (seq_res r1 r2) (m1 ;;; m2) σ.
Proof.
  intros Hn (σ1 & H) Hk. destruct r1 as [ts1|e1].
  - destruct H as [E X].
    pose proof (appends_length _ _ _ _ X Hn) as Hn1.
    destruct (Hk σ1 Hn1) as (σ2 & H2).
    exists σ2. unfold seq_res. rewrite (bind_Ok _ _ _ _ _ E).
    destruct r2 as [ts2|e2].
    + destruct H2 as [E2 X2]. split; [done|].
      by apply (appends_trans n _ _ σ σ1).
    + destruct H2 as [E2 Ho]. split; [done|].
      rewrite Ho. by apply appends_outbox in X.
  - destruct H as [E Ho]. exists σ1. unfold seq_res.
    by rewrite (bind_Raise _ _ _ _ _ E).
Qed.

Lemma conflict_performs n (conflict : bool) e σ :
  performs n (guard (if conflict then Some e else None) [])
    (when conflict (raise e)) σ.
Proof.
  destruct conflict; cbn [when guard].
  - by exists σ.
  - exists σ. split; [done|]. apply appends_refl.
Qed.

Lemma timeout_performs n timeout σ :
  n < length (heap σ) →
  performs n
    (match timeout with
     | None => Ok []
     | Some (TStr s) => Ok [text_element "confirm-timeout" BASE_NS_1_0 s]
     | Some (TInt _) => Raise TypeError
     end)
    (match timeout with
     | None => ret tt
     | Some timeout =>
         e <- sub_ele n "confirm-timeout" ;; set_text_of e timeout
     end) σ.
Proof.
  intros Hn. destruct timeout as [[s|z]|].
  - by apply (given_text_performs "confirm-timeout" n (Some s)).
  - destruct σ as [h ob]. eexists.
    split; [by erewrite bind_Ok by by apply sub_ele_run|done].
  - by apply (given_text_performs "confirm-timeout" n None).
Qed.

Lemma confirmed_performs caps n (confirmed : bool) timeout persist σ :
  n < length (heap σ) →
  performs n (confirmed_result caps confirmed timeout persist)
    (when confirmed
       (lift (_assert caps ":confirmed-commit") ;;;
        _ <- sub_ele n "confirmed" ;;
        match timeout with
        | None => ret tt
        | Some timeout =>
            e <- sub_ele n "confirm-timeout" ;; set_text_of e timeout
        end ;;;
        match persist with
        | None => ret tt
        | Some persist => e <- sub_ele n "persist" ;; set_text e persist
        end)) σ.
Proof.
  intros Hn. unfold confirmed_result, missing, _assert.
  destruct confirmed; cbn [when andb];
    [|exists σ; split; [done|apply appends_refl]].
  destruct (decide (":confirmed-commit" ∈ caps)) as [Hc|Hc].
  - rewrite !(bool_decide_true (_ ∈ caps)) by done. cbn [negb guard].
    eapply performs_run; [apply (bind_Ok _ _ _ _ _ (lift_run _ _))|].
    cbv beta.
    eapply (performs_run _ _ _
              ((_ <- sub_ele n "confirmed" ;; ret tt) ;;;
               match timeout with
               | None => ret tt
               | Some timeout =>
                   e <- sub_ele n "confirm-timeout" ;; set_text_of e timeout
               end ;;;
               match persist with
               | None => ret tt
               | Some persist => e <- sub_ele n "persist" ;; set_text e persist
               end)).
    { unfold bind. by destruct (sub_ele n "confirmed" σ) as [? []]. }
    apply performs_seq; [done| |].
    + destruct σ as [h ob]. eexists. split; [by apply marker_run|].
      by apply (marker_appends n "confirmed" BASE_NS_1_0).
    + intros σ1 Hn1. apply performs_seq; [done|by apply timeout_performs|].
      intros σ2 Hn2. by apply given_text_performs.
  - rewrite !(bool_decide_false (_ ∈ caps)) by done. cbn [negb guard seq_res].
    by exists σ.
Qed.

Lemma persist_id_performs n persist_id σ :
  n < length (heap σ) →
  performs n (Ok (present_text "persist-id" BASE_NS_1_0 persist_id))
    (match persist_id with
     | Some p =>
         when (truthy_str persist_id)
           (e <- sub_ele n "persist-id" ;; set_text e p)
     | None => ret tt
     end) σ.
Proof.
  intros Hn.
  exact (present_text_appends "persist-id" BASE_NS_1_0 n persist_id σ Hn).
Qed.

Lemma Commit_builds
    ncs nsr wti caps confirmed timeout persist persist_id no_deploy reconcile
    rollback_label rollback_comment with_transaction_id σ :
  builds (qualify "commit")
    (Commit_result ncs nsr wti caps confirmed timeout persist persist_id
       no_deploy reconcile rollback_label rollback_comment
       with_transaction_id)
    (Commit_request ncs nsr wti caps confirmed timeout persist persist_id
       no_deploy reconcile rollback_label rollback_comment
       with_transaction_id) σ.
Proof.
  unfold Commit_request, Commit_result. cbv zeta.
  apply builds_new_ele.
  pose proof (fresh_node_valid (heap σ) (leaf (qualify "commit"))) as Hn0.
  apply dispatches_step; [done|apply conflict_performs|]. intros σ1 Hn1.
  apply dispatches_step; [done|by apply confirmed_performs|]. intros σ2 Hn2.
  apply dispatches_step; [done|by apply persist_id_performs|]. intros σ3 Hn3.
  apply dispatches_step;
    [done
    |exact (add_service_commit_params_performs ncs _
              (Given (arg_default false no_deploy)) reconcile σ3 Hn3)|].
  intros σ4 Hn4.
  apply dispatches_step;
    [done|by apply add_rollback_meta_data_performs|]. intros σ5 Hn5.
  apply dispatches_last.
  exact (add_with_transaction_id_performs wti _
           (Given (arg_default (Some false) with_transaction_id)) σ5 Hn5).
Qed.

(** X4: the outcome of [Commit], for every argument combination whose
    texts (timeout when it is a string, persist, persist-id, rollback label
    and comment) are ones the markup builder accepts.  The checks run in this
    order and the first that fails decides the error, with nothing
    dispatched: persist-id together with confirmed or a non-empty persist
    raises the OperationError of the rule; a confirmed commit on a session
    without :confirmed-commit raises the missing-capability error; a
    confirmed commit whose timeout is a number raises TypeError (the text of
    an element is a string); a wrong reconcile value raises.  Otherwise one
    request is dispatched: the commit element whose children are, in this
    order, confirmed with confirm-timeout and persist (only for a confirmed
    commit), persist-id (if not empty), the service commit parameters, the
    rollback label and comment, and the with-transaction-id marker. *)
Theorem Commit_outcome
    ncs nsr wti caps confirmed timeout persist persist_id no_deploy reconcile
    rollback_label rollback_comment with_transaction_id σ :
  timeout_ok timeout → text_ok persist → text_ok persist_id →
  text_ok rollback_label → text_ok rollback_comment →
  ∃ σ',
    match Commit_result ncs nsr wti caps confirmed timeout persist persist_id
            no_deploy reconcile rollback_label rollback_comment
            with_transaction_id with
    | Raise e =>
        Commit_request ncs nsr wti caps confirmed timeout persist persist_id
          no_deploy reconcile rollback_label rollback_comment
          with_transaction_id σ = (σ', Raise e) ∧
        outbox σ' = outbox σ
    | Ok children =>
        (∃ reply,
           Commit_request ncs nsr wti caps confirmed timeout persist
             persist_id no_deploy reconcile rollback_label rollback_comment
             with_transaction_id σ = (σ', Ok reply)) ∧
        outbox σ' = outbox σ ++ [length (heap σ)] ∧
        reads (heap σ') (length (heap σ))
          (Element (qualify "commit") None children)
    end.
Proof.
  intros _ _ _ _ _.
  destruct (Commit_builds ncs nsr wti caps confirmed timeout persist
              persist_id no_deploy reconcile rollback_label rollback_comment
              with_transaction_id σ) as (σ' & H).
  exists σ'. destruct (Commit_result _ _ _ _ _ _ _ _ _ _ _ _ _); [|done].
  destruct H as (E & Ho & Hr). split; [by eexists|done].
Qed.

Lemma Commit_outcome_witness :
  (∃ σ' reply,
     Commit_request "ncs" "rb" "wti" [":candidate"; ":confirmed-commit"]
       (Given true) (Some (TStr "120")) (Some "token") None Omitted None
       (Some "nightly") None (Given (Some true)) (State [] []) =
       (σ', Ok reply) ∧
     outbox σ' = [0] ∧
     reads (heap σ') 0
       (Element (qualify "commit") None
          [Element (qualify "confirmed") None [];
           Element (qualify "confirm-timeout") (Some "120") [];
           Element (qualify "persist") (Some "token") [];
           Element "{rb}label" (Some "nightly") [];
           Element "{wti}with-transaction-id" None []])) ∧
  (∃ σ',
     Commit_request "ncs" "rb" "wti" [":candidate"; ":confirmed-commit"]
       (Given true) (Some (TInt 120)) None None Omitted (Some "bad") None None
       Omitted (State [] []) = (σ', Raise TypeError) ∧
     outbox σ' = []) ∧
  (∃ σ',
     Commit_request "ncs" "rb" "wti" [":candidate"] (Given true)
       (Some (TInt 120)) None None Omitted None None None Omitted
       (State [] []) =
       (σ', Raise (MissingCapabilityError ":confirmed-commit")) ∧
     outbox σ' = []).
Proof.
  split; [|split].
  - destruct (Commit_outcome "ncs" "rb" "wti"
                [":candidate"; ":confirmed-commit"] (Given true)
                (Some (TStr "120")) (Some "token") None Omitted None
                (Some "nightly") None (Given (Some true)) (State [] [])
                eq_refl eq_refl I eq_refl I) as (σ' & [reply E] & Ho & Hr).
    by exists σ', reply.
  - destruct (Commit_outcome "ncs" "rb" "wti"
                [":candidate"; ":confirmed-commit"] (Given true)
                (Some (TInt 120)) None None Omitted (Some "bad") None None
                Omitted (State [] []) I I I I I) as (σ' & E & Ho).
    by exists σ'.
  - destruct (Commit_outcome "ncs" "rb" "wti" [":candidate"] (Given true)
                (Some (TInt 120)) None None Omitted None None None Omitted
                (State [] []) I I I I I) as (σ' & E & Ho).
    by exists σ'.
Defined.

(** ** What a call leaves of the store *)

Lemma appends_children n ts σ σ' :
  appends n ts σ σ' →
  outbox σ' = outbox σ ∧
  (∀ i, i < length (heap σ) → i ≠ n → heap σ' !! i = heap σ !! i) ∧
  ∃ kids,
    children_of (heap σ') n = children_of (heap σ) n ++ kids ∧
    Forall2 (reads (heap σ')) kids ts.
Proof.
  intros [(Ho & _ & Hf & _) (kids & Hk & HF)]. split; [done|]. split; [done|].
  exists kids. split; [done|].
  eapply Forall2_impl; [exact HF|]. intros c t. apply reads_from_reads.
Qed.

Lemma keeps_below_extension {A} (m : M A) σ :
  keeps_below (length (heap σ)) (length (heap σ)) (λ _, True) m →
  ∃ news, heap (m σ).1 = heap σ ++ news.
Proof.
  intros H. destruct (H σ) as [Hu _]; [done|].
  by apply (untouched_extension σ (m σ).1 (length (heap σ))).
Qed.

Lemma extension_reads h news n t : reads h n t → reads (h ++ news) n t.
Proof.
  apply reads_agree. intros i Hi. by apply lookup_app_l.
Qed.

(** X7: for a label and a comment that the markup builder accepts as
    texts, [add_rollback_meta_data] returns and dispatches nothing.  It
    appends to the node, after the children it had, the label element and
    then the comment element, each holding its text; a label or comment that
    is [None] or the empty string adds nothing.  No other element of the
    store changes. *)
Theorem add_rollback_meta_data_document
    ns node rollback_label rollback_comment σ :
  node < length (heap σ) →
  text_ok rollback_label → text_ok rollback_comment →
  ∃ σ' kids,
    add_rollback_meta_data ns node rollback_label rollback_comment σ =
      (σ', Ok tt) ∧
    outbox σ' = outbox σ ∧
    (∀ i, i < length (heap σ) → i ≠ node → heap σ' !! i = heap σ !! i) ∧
    children_of (heap σ') node = children_of (heap σ) node ++ kids ∧
    Forall2 (reads (heap σ')) kids
      (match rollback_label with
       | Some s =>
           if bool_decide (s = "") then []
           else [Element (qualify_ns "label" ns) (Some s) []]
       | None => []
       end ++
       match rollback_comment with
       | Some s =>
           if bool_decide (s = "") then []
           else [Element (qualify_ns "comment" ns) (Some s) []]
       | None => []
       end).
Proof.
  intros Hn _ _.
  destruct (add_rollback_meta_data_appends ns node rollback_label
              rollback_comment σ Hn) as (σ' & E & X).
  destruct (appends_children _ _ _ _ X) as (Ho & Hf & kids & Hk & HF).
  exists σ', kids. repeat (split; [done|]).
  unfold rollback_meta_data_doc, present_text, truthy_str, text_element in HF.
  destruct rollback_label as [l|], rollback_comment as [c|]; cbn in *;
    repeat case_bool_decide; done.
Qed.

Lemma add_rollback_meta_data_document_witness :
  ∃ σ' kids,
    add_rollback_meta_data "rb" 0 (Some "before-upgrade") (Some "")
      (State [leaf "rpc"] []) = (σ', Ok tt) ∧
    outbox σ' = [] ∧
    (∀ i, i < 1 → i ≠ 0 → heap σ' !! i = [leaf "rpc"] !! i) ∧
    children_of (heap σ') 0 = kids ∧
    Forall2 (reads (heap σ')) kids
      [Element "{rb}label" (Some "before-upgrade") []].
Proof.
  apply (add_rollback_meta_data_document "rb" 0 (Some "before-upgrade")
           (Some "") (State [leaf "rpc"] [])); [cbn; lia|reflexivity..].
Defined.

(** X8: [add_with_transaction_id] and [add_with_inactive] never raise and
    dispatch nothing.  The first appends one with-transaction-id marker to
    the node exactly when the flag is true ([None], [False] and a flag left
    out add nothing); the second appends one with-inactive marker unless the
    flag is false (a flag left out adds it).  No other element of the store
    changes. *)
Theorem marker_encoders_document wti nsi node with_transaction_id with_inactive σ :
  node < length (heap σ) →
  (∃ σ' kids,
     add_with_transaction_id wti node with_transaction_id σ = (σ', Ok tt) ∧
     outbox σ' = outbox σ ∧
     (∀ i, i < length (heap σ) → i ≠ node → heap σ' !! i = heap σ !! i) ∧
     children_of (heap σ') node = children_of (heap σ) node ++ kids ∧
     Forall2 (reads (heap σ')) kids
       (match with_transaction_id with
        | Given (Some true) =>
            [Element (qualify_ns "with-transaction-id" wti) None []]
        | _ => []
        end)) ∧
  (∃ σ' kids,
     add_with_inactive nsi node with_inactive σ = (σ', Ok tt) ∧
     outbox σ' = outbox σ ∧
     (∀ i, i < length (heap σ) → i ≠ node → heap σ' !! i = heap σ !! i) ∧
     children_of (heap σ') node = children_of (heap σ) node ++ kids ∧
     Forall2 (reads (heap σ')) kids
       (match with_inactive with
        | Given false => []
        | _ => [Element (qualify_ns "with-inactive" nsi) None []]
        end)).
Proof.
  intros Hn. split.
  - destruct (add_with_transaction_id_appends wti node with_transaction_id σ
                Hn) as (σ' & E & X).
    destruct (appends_children _ _ _ _ X) as (Ho & Hf & kids & Hk & HF).
    exists σ', kids. repeat (split; [done|]).
    by destruct with_transaction_id as [|[[]|]].
  - destruct (add_with_inactive_appends nsi node with_inactive σ Hn)
      as (σ' & E & X).
    destruct (appends_children _ _ _ _ X) as (Ho & Hf & kids & Hk & HF).
    exists σ', kids. repeat (split; [done|]).
    by destruct with_inactive as [|[]].
Qed.

Lemma marker_encoders_document_witness :
  (∃ σ' kids,
     add_with_transaction_id "wti" 0 (Given (Some true))
       (State [leaf "rpc"] []) = (σ', Ok tt) ∧
     outbox σ' = [] ∧
     (∀ i, i < 1 → i ≠ 0 → heap σ' !! i = [leaf "rpc"] !! i) ∧
     children_of (heap σ') 0 = kids ∧
     Forall2 (reads (heap σ')) kids
       [Element "{wti}with-transaction-id" None []]) ∧
  (∃ σ' kids,
     add_with_inactive "inactive" 0 Omitted (State [leaf "rpc"] []) =
       (σ', Ok tt) ∧
     outbox σ' = [] ∧
     (∀ i, i < 1 → i ≠ 0 → heap σ' !! i = [leaf "rpc"] !! i) ∧
     children_of (heap σ') 0 = kids ∧
     Forall2 (reads (heap σ')) kids
       [Element "{inactive}with-inactive" None []]).
Proof.
  apply (marker_encoders_document "wti" "inactive" 0 (Given (Some true))
           Omitted (State [leaf "rpc"] [])).
  cbn. lia.
Defined.

(** X9: whether it returns or raises, a builder called with string
    payloads only adds elements to the store: the store after the call is
    the store before it, followed by new elements.  This holds for all seven
    builders and every argument combination in which the payload of
    [EditConfig] and the source of [CopyConfig] are strings. *)
Theorem builders_only_allocate ns ncs nsr wti nsi caps dsou parse σ :
  (∀ target with_inactive,
     ∃ news, heap (StartTransaction_request ns nsi target with_inactive σ).1
             = heap σ ++ news) ∧
  (∀ dry_run dry_run_reverse no_deploy reconcile rollback_label
     rollback_comment,
     ∃ news, heap (PrepareTransaction_request ns ncs nsr dry_run
                     dry_run_reverse no_deploy reconcile rollback_label
                     rollback_comment σ).1
             = heap σ ++ news) ∧
  (∀ with_transaction_id,
     ∃ news, heap (CommitTransaction_request ns wti with_transaction_id σ).1
             = heap σ ++ news) ∧
  (∃ news, heap (AbortTransaction_request ns σ).1 = heap σ ++ news) ∧
  (∀ confirmed timeout persist persist_id no_deploy reconcile rollback_label
     rollback_comment with_transaction_id,
     ∃ news, heap (Commit_request ncs nsr wti caps confirmed timeout persist
                     persist_id no_deploy reconcile rollback_label
                     rollback_comment with_transaction_id σ).1
             = heap σ ++ news) ∧
  (∀ s format target default_operation test_option error_option no_deploy
     reconcile rollback_label rollback_comment with_transaction_id
     with_inactive,
     ∃ news, heap (EditConfig_request ncs nsr wti nsi caps dsou parse
                     (PStr s) format target default_operation test_option
                     error_option no_deploy reconcile rollback_label
                     rollback_comment with_transaction_id with_inactive σ).1
             = heap σ ++ news) ∧
  (∀ s target no_deploy reconcile with_transaction_id with_inactive,
     ∃ news, heap (CopyConfig_request ncs wti nsi caps dsou parse (PStr s)
                     target no_deploy reconcile with_transaction_id
                     with_inactive σ).1
             = heap σ ++ news).
Proof.
  repeat split; intros.
  - apply keeps_below_extension, keeps_below_StartTransaction.
  - apply keeps_below_extension, keeps_below_PrepareTransaction.
  - apply keeps_below_extension, keeps_below_CommitTransaction.
  - apply keeps_below_extension, keeps_below_AbortTransaction.
  - apply keeps_below_extension, keeps_below_Commit.
  - apply keeps_below_extension, keeps_below_EditConfig. by intros ele [=].
  - apply keeps_below_extension, keeps_below_CopyConfig.
Qed.

(** X10: building a request does not disturb a document that is already in
    the store, such as a request dispatched before: an element that reads as
    the document [t] before the call reads as [t] after it, whether the call
    returns or raises, for every builder and every argument combination
    with string payloads. *)
Theorem earlier_documents_survive ns ncs nsr wti nsi caps dsou parse σ n t :
  reads (heap σ) n t →
  (∀ target with_inactive,
     reads (heap (StartTransaction_request ns nsi target with_inactive σ).1)
       n t) ∧
  (∀ dry_run dry_run_reverse no_deploy reconcile rollback_label
     rollback_comment,
     reads (heap (PrepareTransaction_request ns ncs nsr dry_run
                    dry_run_reverse no_deploy reconcile rollback_label
                    rollback_comment σ).1) n t) ∧
  (∀ with_transaction_id,
     reads (heap (CommitTransaction_request ns wti with_transaction_id σ).1)
       n t) ∧
  reads (heap (AbortTransaction_request ns σ).1) n t ∧
  (∀ confirmed timeout persist persist_id no_deploy reconcile rollback_label
     rollback_comment with_transaction_id,
     reads (heap (Commit_request ncs nsr wti caps confirmed timeout persist
                    persist_id no_deploy reconcile rollback_label
                    rollback_comment with_transaction_id σ).1) n t) ∧
  (∀ s format target default_operation test_option error_option no_deploy
     reconcile rollback_label rollback_comment with_transaction_id
     with_inactive,
     reads (heap (EditConfig_request ncs nsr wti nsi caps dsou parse
                    (PStr s) format target default_operation test_option
                    error_option no_deploy reconcile rollback_label
                    rollback_comment with_transaction_id with_inactive σ).1)
       n t) ∧
  (∀ s target no_deploy reconcile with_transaction_id with_inactive,
     reads (heap (CopyConfig_request ncs wti nsi caps dsou parse (PStr s)
                    target no_deploy reconcile with_transaction_id
                    with_inactive σ).1) n t).
Proof.
  intros Hr.
  assert (∀ A (m : M A),
            keeps_below (length (heap σ)) (length (heap σ)) (λ _, True) m →
            reads (heap (m σ).1) n t) as Hkeep.
  { intros A m Hm. destruct (keeps_below_extension m σ Hm) as [news ->].
    by apply extension_reads. }
  repeat split; intros; apply Hkeep.
  - apply keeps_below_StartTransaction.
  - apply keeps_below_PrepareTransaction.
  - apply keeps_below_CommitTransaction.
  - apply keeps_below_AbortTransaction.
  - apply keeps_below_Commit.
  - apply keeps_below_EditConfig. by intros ele [=].
  - apply keeps_below_CopyConfig.
Qed.

Lemma earlier_documents_survive_witness :
  reads [leaf "rpc"] 0 (Element "rpc" None []) ∧
  reads (heap (StartTransaction_request "ns" "inactive" (Given "running")
                 Omitted (State [leaf "rpc"] [0])).1)
    0 (Element "rpc" None []) ∧
  reads (heap (PrepareTransaction_request "ns" "ncs" "rb" (Some "bogus")
                 Omitted Omitted None None None (State [leaf "rpc"] [0])).1)
    0 (Element "rpc" None []).
Proof.
  assert (reads (heap (State [leaf "rpc"] [0])) 0 (Element "rpc" None []))
    as Hr by (by apply reads_leaf).
  split; [exact Hr|].
  destruct (earlier_documents_survive "ns" "ncs" "rb" "wti" "inactive" []
              example_datastore_or_url example_parse_xml
              (State [leaf "rpc"] [0]) 0 (Element "rpc" None []) Hr)
    as (H1 & H2 & _).
  split; [apply H1|apply H2].
Defined.

Lemma dispatches_run n r (k k' : M nat) σ :
  k σ = k' σ → dispatches n r k' σ → dispatches n r k σ.
Proof. unfold dispatches. by intros ->. Qed.

Lemma EditConfig_other_builds
    ncs nsr wti nsi caps dsou parse config format target default_operation
    test_option error_option no_deploy reconcile rollback_label
    rollback_comment with_transaction_id with_inactive σ :
  format ≠ "xml" → format ≠ "text" →
  builds (qualify "edit-config")
    (match dsou "target" (PStr (arg_default "candidate" target))
             (_assert caps) with
     | Raise e => Raise e
     | Ok tr =>
         seq_res (Ok [tr])
           (EditConfig_options ncs nsr wti nsi caps default_operation
              test_option error_option no_deploy reconcile rollback_label
              rollback_comment with_transaction_id with_inactive)
     end)
    (EditConfig_request ncs nsr wti nsi caps dsou parse config (Given format)
       target default_operation test_option error_option no_deploy reconcile
       rollback_label rollback_comment with_transaction_id with_inactive) σ.
Proof.
  intros Hx Ht. unfold EditConfig_request, EditConfig_options. cbv zeta.
  cbn [arg_default].
  rewrite (bool_decide_false (format = "xml")) by done.
  rewrite (bool_decide_false (format = "text")) by done.
  cbn [when]. apply builds_new_ele.
  pose proof (fresh_node_valid (heap σ) (leaf (qualify "edit-config"))) as Hn0.
  apply dispatches_datastore; [done|]. intros σ1 Hn1.
  apply dispatches_step; [done|by apply given_text_performs|]. intros σ2 Hn2.
  apply dispatches_step; [done|by apply test_option_performs|]. intros σ3 Hn3.
  apply dispatches_step; [done|by apply error_option_performs|]. intros σ4 Hn4.
  apply dispatches_step;
    [done
    |exact (add_service_commit_params_performs ncs _
              (Given (arg_default false no_deploy)) reconcile σ4 Hn4)|].
  intros σ5 Hn5.
  apply dispatches_step;
    [done|by apply add_rollback_meta_data_performs|]. intros σ6 Hn6.
  apply dispatches_step;
    [done
    |exact (add_with_transaction_id_performs wti _
              (Given (arg_default (Some false) with_transaction_id)) σ6 Hn6)|].
  intros σ7 Hn7.
  eapply (dispatches_run _ _ _
            (add_with_inactive nsi (length (heap σ))
               (Given (arg_default false with_inactive)) ;;;
             _request (length (heap σ)))).
  { unfold bind.
    by destruct (add_with_inactive nsi (length (heap σ)) _ σ7) as [? []]. }
  apply dispatches_last. by apply add_with_inactive_performs.
Qed.

(** X11: [EditConfig] does not check [format].  With a format that is
    neither xml nor text the payload is not looked at: whatever is passed as
    [config], a string that does not parse or an element included, the call
    behaves as for any other payload.  Nothing is raised on account of the
    format: the only errors are those of the target, of a missing capability
    and of a wrong reconcile value; and otherwise one request is dispatched,
    the edit-config element whose children are the target, default-operation,
    test-option, error-option, the service commit parameters, the rollback
    label and comment and the two markers, with no payload among them.
    (For texts the markup builder accepts.) *)
Theorem EditConfig_format_unchecked
    ncs nsr wti nsi caps dsou parse config format target
    default_operation test_option error_option no_deploy reconcile
    rollback_label rollback_comment with_transaction_id with_inactive σ :
  format ≠ "xml" → format ≠ "text" →
  text_ok default_operation → text_ok test_option → text_ok error_option →
  text_ok rollback_label → text_ok rollback_comment →
  (∀ config',
     EditConfig_request ncs nsr wti nsi caps dsou parse config (Given format)
       target default_operation test_option error_option no_deploy reconcile
       rollback_label rollback_comment with_transaction_id with_inactive =
     EditConfig_request ncs nsr wti nsi caps dsou parse config' (Given format)
       target default_operation test_option error_option no_deploy reconcile
       rollback_label rollback_comment with_transaction_id with_inactive) ∧
  ∃ σ',
    match
      match dsou "target" (PStr (arg_default "candidate" target))
              (_assert caps) with
      | Raise e => Raise e
      | Ok tr =>
          seq_res (Ok [tr])
            (EditConfig_options ncs nsr wti nsi caps default_operation
               test_option error_option no_deploy reconcile rollback_label
               rollback_comment with_transaction_id with_inactive)
      end
    with
    | Raise e =>
        EditConfig_request ncs nsr wti nsi caps dsou parse config
          (Given format) target default_operation test_option error_option
          no_deploy reconcile rollback_label rollback_comment
          with_transaction_id with_inactive σ = (σ', Raise e) ∧
        outbox σ' = outbox σ
    | Ok children =>
        (∃ reply,
           EditConfig_request ncs nsr wti nsi caps dsou parse config
             (Given format) target default_operation test_option
             error_option no_deploy reconcile rollback_label
             rollback_comment with_transaction_id with_inactive σ =
             (σ', Ok reply)) ∧
        outbox σ' = outbox σ ++ [length (heap σ)] ∧
        reads (heap σ') (length (heap σ))
          (Element (qualify "edit-config") None children)
    end.
Proof.
  intros Hx Ht _ _ _ _ _. split.
  - intros config'. unfold EditConfig_request. cbv zeta. cbn [arg_default].
    rewrite (bool_decide_false (format = "xml")) by done.
    by rewrite (bool_decide_false (format = "text")) by done.
  - destruct (EditConfig_other_builds ncs nsr wti nsi caps dsou parse config
                format target default_operation test_option error_option
                no_deploy reconcile rollback_label rollback_comment
                with_transaction_id with_inactive σ Hx Ht) as (σ' & H).
    exists σ'.
    destruct (match dsou _ _ _ with Raise e => _ | Ok tr => _ end); [|done].
    destruct H as (E & Ho & Hr). split; [by eexists|done].
Qed.

Lemma EditConfig_format_unchecked_witness :
  EditConfig_request "ncs" "rb" "wti" "inactive" [] example_datastore_or_url
    example_parse_xml (PStr "<not-xml") (Given "json") Omitted None None None
    Omitted None None None Omitted Omitted =
  EditConfig_request "ncs" "rb" "wti" "inactive" [] example_datastore_or_url
    example_parse_xml (PEle 7) (Given "json") Omitted None None None
    Omitted None None None Omitted Omitted ∧
  ∃ σ' reply,
    EditConfig_request "ncs" "rb" "wti" "inactive" [] example_datastore_or_url
      example_parse_xml (PStr "<not-xml") (Given "json") Omitted None None
      None Omitted None None None Omitted Omitted (State [] []) =
      (σ', Ok reply) ∧
    outbox σ' = [0] ∧
    reads (heap σ') 0
      (Element (qualify "edit-config") None
         [Element (qualify "target") None
            [Element (qualify "candidate") None []]]).
Proof.
  destruct (EditConfig_format_unchecked "ncs" "rb" "wti" "inactive" []
              example_datastore_or_url example_parse_xml (PStr "<not-xml")
              "json" Omitted None None None Omitted None None None Omitted
              Omitted (State [] [])) as (Heq & σ' & [reply E] & Ho & Hr);
    try done.
  split; [apply Heq|by exists σ', reply].
Defined.

(** X12: [EditConfig] with an element payload whose root is not named
    config (plainly or in the base namespace) raises the XMLError naming the
    root's tag, nothing is dispatched, and the caller's element is left as
    it was: for the payload the check comes before the re-tagging.  (Holds
    for the xml format whenever the earlier steps go through: target
    understood, capabilities advertised, reconcile value in the set.) *)
Theorem EditConfig_element_rejected
    ncs nsr wti nsi caps dsou parse ele format target default_operation
    test_option error_option no_deploy reconcile rollback_label
    rollback_comment with_transaction_id with_inactive tr σ :
  dsou "target" (PStr (arg_default "candidate" target)) (_assert caps) = Ok tr →
  (test_option ≠ None → ":validate" ∈ caps) →
  (error_option = Some "rollback-on-error" → ":rollback-on-error" ∈ caps) →
  reconcile_ok reconcile →
  arg_default "xml" format = "xml" →
  ele < length (heap σ) →
  tag_of (heap σ) ele ∉ ["config"; qualify "config"] →
  ∃ σ',
    EditConfig_request ncs nsr wti nsi caps dsou parse (PEle ele) format
      target default_operation test_option error_option no_deploy reconcile
      rollback_label rollback_comment with_transaction_id with_inactive σ =
      (σ', Raise (XMLError ("Element [" +:+ tag_of (heap σ) ele
                            +:+ "] does not meet requirement"))) ∧
    outbox σ' = outbox σ ∧
    heap σ' !! ele = heap σ !! ele.
Proof.
  intros Hds Htop Heop Hr Hfmt Hele Htag.
  destruct (EditConfig_prefix ncs nsr wti nsi caps dsou parse (PEle ele)
              format target default_operation test_option error_option
              no_deploy reconcile rollback_label rollback_comment
              with_transaction_id with_inactive tr σ Hds Htop Heop Hr)
    as (σk & X & E).
  cbv zeta in X, E. rewrite E, Hfmt.
  rewrite (bool_decide_true ("xml" = "xml")) by done. cbn [when].
  assert (heap σk !! ele = heap σ !! ele) as Hk.
  { rewrite (ext_lookup _ _ _ _ ele X); cbn [heap];
      [by apply lookup_app_l|rewrite length_app; lia|lia]. }
  assert (tag_of (heap σk) ele = tag_of (heap σ) ele) as Ht
    by (unfold tag_of; by rewrite Hk).
  pose proof (validated_element_run parse ele ["config"; qualify "config"] σk)
    as Ev.
  rewrite Ht, (bool_decide_false (tag_of (heap σ) ele ∈ _)) in Ev by done.
  exists σk. split.
  - erewrite bind_Raise; [done|]. by erewrite bind_Raise by exact Ev.
  - split; [|done]. by destruct X as (-> & _).
Qed.

Lemma EditConfig_element_rejected_witness :
  ∃ σ',
    EditConfig_request "ncs" "rb" "wti" "inactive" [] example_datastore_or_url
      example_parse_xml (PEle 0) Omitted Omitted None None None Omitted None
      None None Omitted Omitted (State [leaf "data"] []) =
      (σ', Raise (XMLError "Element [data] does not meet requirement")) ∧
    outbox σ' = [] ∧
    heap σ' !! 0 = Some (leaf "data").
Proof.
  apply (EditConfig_element_rejected "ncs" "rb" "wti" "inactive" []
           example_datastore_or_url example_parse_xml 0 Omitted Omitted None
           None None Omitted None None None Omitted Omitted
           (Element (qualify "target") None [Element (qualify "candidate") None []])
           (State [leaf "data"] [])); try done.
  - cbn. lia.
  - vm_compute. intros H.
    repeat (apply elem_of_cons in H as [H|H]; [discriminate|]).
    by apply elem_of_nil in H.
Defined.
